(** * AutoCodeforge: the iterate / generate / act / classify engine

    A shallow embedding of the Python sources
      - [main.py]            ([AutoCodeforge.parse_response],
                              [execute_file_actions], [execute_shell_actions],
                              [run_cycle]),
      - [file_manager.py]    ([FileManager.get_full_path], [read_file],
                              [write_file], [delete_file],
                              [create_directory]),
      - [shell_executor.py]  ([PowerShellExecutor.execute],
                              [execute_multiple]),
      - [result_analyzer.py] ([ResultAnalyzer]),
      - [config.py]          ([sanitize_project_name], [get_project_path],
                              [deep_update]),
      - [api_client.py]      ([MockAPIClient.send_message]),
    together with the properties of the specification that concern them.

    Conventions of the embedding.
      - A Python [str] is a [string]: a sequence of 8-bit units, the UTF-8
        form of the text.  Case folding ([str.lower], [re.IGNORECASE]) acts
        on the letters A-Z and leaves every other unit alone.
      - A Python [int] is a [Z]; indices returned by [str.find] are [Z]
        (with -1 for "not found").  The interpreter's limit on the number
        of digits of an integer literal is not modelled.
      - Code that may raise returns a [result]; code that also touches the
        file system or the outside world threads the state explicitly.
      - [print] writes to a standard output that is open; what its encoder
        raises for a text is a parameter ([console]), and a text of ASCII
        characters is always printed.  What is printed is not kept.
        Logging does not raise: the handlers of [logging] catch what
        writing a record raises.
      - The operating system (files, processes), the text generator and the
        library functions [json.loads], [os.path.join], [os.path.normpath],
        [os.path.split], [os.path.dirname], [os.makedirs] are not part of
        the repository; they are modelled next to the code that calls
        them. *)

From stdpp Require Import base gmap strings list fin_maps pretty.
From Stdlib Require Import ZArith Lia Ascii.

Local Open Scope Z_scope.
Set Warnings "-register-all".

(* ===================================================================== *)
(** * 1. Exceptions *)
(* ===================================================================== *)

(** The exception classes that the modelled code raises or catches.
    [JSONDecodeError] and, in [os.makedirs], [FileExistsError] and [OSError]
    are caught by name; every handler [except Exception] catches all of
    them.  [OSError] stands for the class and its subclasses other than
    [FileExistsError]. *)
Inductive exn_class :=
  | ValueError | TypeError | AttributeError | OSError
  | JSONDecodeError | RecursionError | NameError | GeneratorError
  | FileExistsError | UnicodeEncodeError.

Record exn := Exn { exn_kind : exn_class; exn_message : string }.

Inductive result (A : Type) :=
  | Ok (a : A)
  | Raise (e : exn).
Arguments Ok {A} a.
Arguments Raise {A} e.

Global Instance result_ret : MRet result := fun A a => Ok a.

Global Instance result_bind : MBind result := fun A B k r =>
  match r with
  | Ok a => k a
  | Raise e => Raise e
  end.

Definition is_ok {A} (r : result A) : bool :=
  match r with Ok _ => true | Raise _ => false end.

Global Instance exn_class_eq_dec : EqDecision exn_class.
Proof. solve_decision. Defined.

(* ===================================================================== *)
(** * 2. Python strings *)
(* ===================================================================== *)

Definition nl : string := String "010"%char EmptyString.
Definition dquote : ascii := "034"%char.

Definition ascii_eqb (a b : ascii) : bool := bool_decide (a = b).

Fixpoint str_length (s : string) : nat :=
  match s with
  | EmptyString => 0%nat
  | String _ s' => S (str_length s')
  end.

Fixpoint str_take (n : nat) (s : string) : string :=
  match n, s with
  | S n', String c s' => String c (str_take n' s')
  | _, _ => EmptyString
  end.

Fixpoint str_drop (n : nat) (s : string) : string :=
  match n, s with
  | S n', String _ s' => str_drop n' s'
  | _, _ => s
  end.

(** [s.startswith(p)] *)
Fixpoint startswith (s p : string) {struct p} : bool :=
  match p, s with
  | EmptyString, _ => true
  | String a p', String b s' => ascii_eqb a b && startswith s' p'
  | String _ _, EmptyString => false
  end.

(** [s.endswith(c)] for a one-character [c] *)
Fixpoint endswith_char (s : string) (c : ascii) : bool :=
  match s with
  | EmptyString => false
  | String a EmptyString => ascii_eqb a c
  | String _ s' => endswith_char s' c
  end.

(** [needle in hay] *)
Fixpoint contains (needle hay : string) : bool :=
  startswith hay needle ||
  match hay with
  | EmptyString => false
  | String _ hay' => contains needle hay'
  end.

(** Position of the first occurrence of a character. *)
Fixpoint find_char (c : ascii) (s : string) : option nat :=
  match s with
  | EmptyString => None
  | String a s' => if ascii_eqb a c then Some 0%nat else S <$> find_char c s'
  end.

(** Position of the last occurrence of a character. *)
Fixpoint rfind_char (c : ascii) (s : string) : option nat :=
  match s with
  | EmptyString => None
  | String a s' =>
      match rfind_char c s' with
      | Some i => Some (S i)
      | None => if ascii_eqb a c then Some 0%nat else None
      end
  end.

(** [s.find(c)] and [s.rfind(c)]: an index, or -1. *)
Definition py_find (s : string) (c : ascii) : Z :=
  match find_char c s with Some i => Z.of_nat i | None => -1 end.

Definition py_rfind (s : string) (c : ascii) : Z :=
  match rfind_char c s with Some i => Z.of_nat i | None => -1 end.

(** [s[a:b]] for indices that are not negative. *)
Definition py_slice (s : string) (a b : Z) : string :=
  str_take (Z.to_nat (b - a)) (str_drop (Z.to_nat a) s).

(** [sep.join(parts)] *)
Fixpoint join (sep : string) (parts : list string) : string :=
  match parts with
  | [] => EmptyString
  | [p] => p
  | p :: rest => p +:+ sep +:+ join sep rest
  end.

(** [s.split(c)]: the pieces between the occurrences of [c]. *)
Fixpoint split_on (c : ascii) (s : string) : list string :=
  match s with
  | EmptyString => [EmptyString]
  | String a s' =>
      if ascii_eqb a c then EmptyString :: split_on c s'
      else match split_on c s' with
           | p :: ps => String a p :: ps
           | [] => [String a EmptyString]
           end
  end.

Definition lower_char (c : ascii) : ascii :=
  let n := nat_of_ascii c in
  if ((65 <=? n) && (n <=? 90))%nat then ascii_of_nat (n + 32) else c.

(** [s.lower()] *)
Fixpoint str_lower (s : string) : string :=
  match s with
  | EmptyString => EmptyString
  | String c s' => String (lower_char c) (str_lower s')
  end.

(** [re.search(lit, hay, re.IGNORECASE)] for a pattern [lit] without
    metacharacters. *)
Definition icontains (lit hay : string) : bool :=
  contains (str_lower lit) (str_lower hay).

Definition str_eqb (a b : string) : bool := bool_decide (a = b).

(** [s.isascii()] *)
Fixpoint is_ascii (s : string) : bool :=
  match s with
  | EmptyString => true
  | String c s' => (nat_of_ascii c <? 128)%nat && is_ascii s'
  end.

(** Replace the apostrophes of a literal by double quotes; used to write
    JSON texts readably. *)
Fixpoint dq (s : string) : string :=
  match s with
  | EmptyString => EmptyString
  | String c s' => String (if ascii_eqb c "'"%char then dquote else c) (dq s')
  end.

(* ===================================================================== *)
(** * 3. Python values and [json.loads] *)
(* ===================================================================== *)

(** The values that [json.loads] produces.  A [float] is kept as the
    decimal number [m * 10^e] it was read from (or as one of the three
    constants the decoder accepts); a [dict] keeps its keys in insertion
    order, each key once. *)
Inductive pyval :=
  | PNone
  | PBool (b : bool)
  | PInt (z : Z)
  | PFloat (m e : Z)
  | PNaN
  | PInf (negative : bool)
  | PStr (s : string)
  | PList (l : list pyval)
  | PDict (d : list (string * pyval)).

(** [d[k] = v] *)
Fixpoint dict_set (k : string) (v : pyval) (d : list (string * pyval))
  : list (string * pyval) :=
  match d with
  | [] => [(k, v)]
  | (k', v') :: d' =>
      if str_eqb k k' then (k, v) :: d' else (k', v') :: dict_set k v d'
  end.

(** [d.get(k, default)] *)
Fixpoint dict_get (k : string) (d : list (string * pyval)) (default : pyval)
  : pyval :=
  match d with
  | [] => default
  | (k', v) :: d' => if str_eqb k k' then v else dict_get k d' default
  end.

(** A decimal [m * 10^e] is read as the float 0.0 exactly when it is at
    most half the smallest positive double, 2^-1075, in magnitude. *)
Definition float_is_zero (m e : Z) : bool :=
  if m =? 0 then true
  else if 0 <=? e then false
  else Z.abs m * 2 ^ 1075 <=? 10 ^ (- e).

(** Truth value of a Python object ([if x], [not x]). *)
Definition truthy (v : pyval) : bool :=
  match v with
  | PNone => false
  | PBool b => b
  | PInt z => negb (z =? 0)
  | PFloat m e => negb (float_is_zero m e)
  | PNaN | PInf _ => true
  | PStr s => negb (str_eqb s EmptyString)
  | PList l => match l with [] => false | _ => true end
  | PDict d => match d with [] => false | _ => true end
  end.

(** [v == s] for a string literal [s] *)
Definition py_eq_str (v : pyval) (s : string) : bool :=
  match v with
  | PStr s' => str_eqb s' s
  | _ => false
  end.

Definition decode_error (msg : string) : exn := Exn JSONDecodeError msg.

Definition is_ws (c : ascii) : bool :=
  ascii_eqb c " "%char || ascii_eqb c "009"%char ||
  ascii_eqb c "010"%char || ascii_eqb c "013"%char.

Fixpoint skip_ws (s : string) : string :=
  match s with
  | String c s' => if is_ws c then skip_ws s' else s
  | EmptyString => s
  end.

Definition is_digit (c : ascii) : bool :=
  let n := nat_of_ascii c in ((48 <=? n) && (n <=? 57))%nat.

Definition hex_val (c : ascii) : option N :=
  let n := N_of_ascii c in
  (if (48 <=? n) && (n <=? 57) then Some (n - 48)
   else if (65 <=? n) && (n <=? 70) then Some (n - 55)
   else if (97 <=? n) && (n <=? 102) then Some (n - 87)
   else None)%N.

Definition hex4 (a b c d : ascii) : option N :=
  match hex_val a, hex_val b, hex_val c, hex_val d with
  | Some x, Some y, Some z, Some w => Some (((x * 16 + y) * 16 + z) * 16 + w)%N
  | _, _, _, _ => None
  end.

(** The escapes of the decoder's [BACKSLASH] table. *)
Definition simple_escape (c : ascii) : option ascii :=
  if ascii_eqb c dquote then Some dquote
  else if ascii_eqb c "\"%char then Some "\"%char
  else if ascii_eqb c "/"%char then Some "/"%char
  else if ascii_eqb c "b"%char then Some "008"%char
  else if ascii_eqb c "f"%char then Some "012"%char
  else if ascii_eqb c "n"%char then Some "010"%char
  else if ascii_eqb c "r"%char then Some "013"%char
  else if ascii_eqb c "t"%char then Some "009"%char
  else None.

(** [chr(n)] in the UTF-8 form of the text. *)
Definition utf8 (n : N) : string :=
  let b (k : N) := String (ascii_of_N k) in
  (if n <? 128 then b n EmptyString
   else if n <? 2048 then b (192 + n / 64) (b (128 + n mod 64) EmptyString)
   else if n <? 65536 then
     b (224 + n / 4096) (b (128 + (n / 64) mod 64) (b (128 + n mod 64) EmptyString))
   else
     b (240 + n / 262144) (b (128 + (n / 4096) mod 64)
       (b (128 + (n / 64) mod 64) (b (128 + n mod 64) EmptyString))))%N.

(** A piece of a JSON string: a unit taken as it stands (or from a simple
    escape), or the code unit of a [\uXXXX] escape. *)
Inductive str_item :=
  | Unit (c : ascii)
  | Escaped (n : N).

(** [scanstring], strict mode: the text after the opening quote, up to and
    including the closing quote. *)
Fixpoint scan_items (s : string) : result (list str_item * string) :=
  match s with
  | EmptyString => Raise (decode_error "Unterminated string starting at")
  | String c r =>
      if ascii_eqb c dquote then Ok ([], r)
      else if ascii_eqb c "\"%char then
        match r with
        | String "u"%char (String h1 (String h2 (String h3 (String h4 r')))) =>
            match hex4 h1 h2 h3 h4 with
            | Some n => '(items, rest) ← scan_items r'; Ok (Escaped n :: items, rest)
            | None => Raise (decode_error "Invalid \uXXXX escape")
            end
        | String e r' =>
            match simple_escape e with
            | Some x => '(items, rest) ← scan_items r'; Ok (Unit x :: items, rest)
            | None => Raise (decode_error "Invalid \escape")
            end
        | EmptyString => Raise (decode_error "Unterminated string starting at")
        end
      else if (N_of_ascii c <? 32)%N then
        Raise (decode_error "Invalid control character at")
      else '(items, rest) ← scan_items r; Ok (Unit c :: items, rest)
  end.

(** A high surrogate escape directly followed by a low surrogate escape is
    one character; every other item is a character of its own. *)
Fixpoint items_text (items : list str_item) : string :=
  match items with
  | [] => EmptyString
  | Unit c :: rest => String c (items_text rest)
  | Escaped hi :: rest =>
      match rest with
      | Escaped lo :: rest' =>
          if ((55296 <=? hi) && (hi <=? 56319) && (56320 <=? lo) && (lo <=? 57343))%N
          then utf8 (65536 + (hi - 55296) * 1024 + (lo - 56320))%N +:+ items_text rest'
          else utf8 hi +:+ items_text rest
      | _ => utf8 hi +:+ items_text rest
      end
  end.

Definition scanstring (s : string) : result (string * string) :=
  '(items, rest) ← scan_items s; Ok (items_text items, rest).

Fixpoint span_digits (s : string) : string * string :=
  match s with
  | String c r =>
      if is_digit c then let '(ds, rest) := span_digits r in (String c ds, rest)
      else (EmptyString, s)
  | EmptyString => (EmptyString, EmptyString)
  end.

Fixpoint digits_value (acc : Z) (ds : string) : Z :=
  match ds with
  | String c r => digits_value (10 * acc + (Z.of_nat (nat_of_ascii c) - 48)) r
  | EmptyString => acc
  end.

(** [NUMBER_RE.match].  The pattern has three groups: an integer part (an
    optional minus sign, then either a single 0 or a digit 1-9 followed by
    any digits), an optional fraction (a dot and at least one digit) and an
    optional exponent (e or E, an optional sign, at least one digit).  The
    value is an [int] when only the first group matched, a [float]
    otherwise. *)
Definition number_sign (s : string) : Z * string :=
  match s with
  | String "-"%char r => (-1, r)
  | _ => (1, s)
  end.

Definition number_int (s : string) : option (string * string) :=
  match s with
  | String c r =>
      if ascii_eqb c "0"%char then Some (String c EmptyString, r)
      else if is_digit c then
        let '(ds, r') := span_digits r in Some (String c ds, r')
      else None
  | EmptyString => None
  end.

Definition number_frac (s : string) : option string * string :=
  match s with
  | String "."%char r =>
      let '(fs, r') := span_digits r in
      if str_eqb fs EmptyString then (None, s) else (Some fs, r')
  | _ => (None, s)
  end.

Definition number_exp (s : string) : option Z * string :=
  match s with
  | String c r =>
      if ascii_eqb c "e"%char || ascii_eqb c "E"%char then
        let '(esgn, r1) :=
          match r with
          | String "-"%char r1 => (-1, r1)
          | String "+"%char r1 => (1, r1)
          | _ => (1, r)
          end in
        let '(es, r2) := span_digits r1 in
        if str_eqb es EmptyString then (None, s)
        else (Some (esgn * digits_value 0 es), r2)
      else (None, s)
  | EmptyString => (None, s)
  end.

Definition match_number (s : string) : option (pyval * string) :=
  let '(sgn, s1) := number_sign s in
  match number_int s1 with
  | None => None
  | Some (ip, s2) =>
      let '(frac, s3) := number_frac s2 in
      let '(ex, s4) := number_exp s3 in
      match frac, ex with
      | None, None => Some (PInt (sgn * digits_value 0 ip), s4)
      | _, _ =>
          let fs := default EmptyString frac in
          Some (PFloat (sgn * digits_value 0 (ip +:+ fs))
                       (default 0 ex - Z.of_nat (str_length fs)), s4)
      end
  end.

(** The loop of [JSONArray]; [s] starts at an element. *)
Fixpoint array_items (scan : string -> result (pyval * string))
    (fuel : nat) (s : string) (acc : list pyval) : result (pyval * string) :=
  match fuel with
  | O => Raise (decode_error "Expecting value")
  | S fuel' =>
      '(v, s1) ← scan s;
      match skip_ws s1 with
      | String c s2 =>
          if ascii_eqb c "]"%char then Ok (PList (acc ++ [v]), s2)
          else if ascii_eqb c ","%char then
            array_items scan fuel' (skip_ws s2) (acc ++ [v])
          else Raise (decode_error "Expecting ',' delimiter")
      | EmptyString => Raise (decode_error "Expecting ',' delimiter")
      end
  end.

(** The loop of [JSONObject]; [s] starts after the opening quote of a key. *)
Fixpoint object_items (scan : string -> result (pyval * string))
    (fuel : nat) (s : string) (acc : list (string * pyval))
  : result (pyval * string) :=
  match fuel with
  | O => Raise (decode_error "Expecting value")
  | S fuel' =>
      '(key, s1) ← scanstring s;
      match skip_ws s1 with
      | String ":"%char s2 =>
          '(v, s3) ← scan (skip_ws s2);
          let acc' := dict_set key v acc in
          match skip_ws s3 with
          | String c s4 =>
              if ascii_eqb c "}"%char then Ok (PDict acc', s4)
              else if ascii_eqb c ","%char then
                match skip_ws s4 with
                | String q s5 =>
                    if ascii_eqb q dquote then object_items scan fuel' s5 acc'
                    else Raise (decode_error
                      "Expecting property name enclosed in double quotes")
                | EmptyString => Raise (decode_error
                      "Expecting property name enclosed in double quotes")
                end
              else Raise (decode_error "Expecting ',' delimiter")
          | EmptyString => Raise (decode_error "Expecting ',' delimiter")
          end
      | _ => Raise (decode_error "Expecting ':' delimiter")
      end
  end.

(** [scan_once]: one JSON value at the head of [s], and the text after it.
    [depth] is the number of nested containers the interpreter still allows;
    the decoder raises [RecursionError] beyond it.  The element loops take
    more fuel than the text has characters; every round consumes one, so
    the fuel never runs out ([scan_once_consumes], [array_items_fuel],
    [object_items_fuel]). *)
Fixpoint scan_once (depth : nat) (s : string) : result (pyval * string) :=
  match s with
  | EmptyString => Raise (decode_error "Expecting value")
  | String c rest =>
      if ascii_eqb c dquote then
        '(str, s') ← scanstring rest; Ok (PStr str, s')
      else if ascii_eqb c "{"%char then
        match depth with
        | O => Raise (Exn RecursionError
                 "maximum recursion depth exceeded while decoding a JSON object")
        | S depth' =>
            match skip_ws rest with
            | String q s1 =>
                if ascii_eqb q "}"%char then Ok (PDict [], s1)
                else if ascii_eqb q dquote then
                  object_items (scan_once depth') (S (str_length s)) s1 []
                else Raise (decode_error
                  "Expecting property name enclosed in double quotes")
            | EmptyString => Raise (decode_error
                  "Expecting property name enclosed in double quotes")
            end
        end
      else if ascii_eqb c "["%char then
        match depth with
        | O => Raise (Exn RecursionError
                 "maximum recursion depth exceeded while decoding a JSON array")
        | S depth' =>
            match skip_ws rest with
            | String q s1 =>
                if ascii_eqb q "]"%char then Ok (PList [], s1)
                else array_items (scan_once depth') (S (str_length s))
                       (String q s1) []
            | EmptyString => Raise (decode_error "Expecting value")
            end
        end
      else if startswith s "null" then Ok (PNone, str_drop 4 s)
      else if startswith s "true" then Ok (PBool true, str_drop 4 s)
      else if startswith s "false" then Ok (PBool false, str_drop 5 s)
      else
        match match_number s with
        | Some r => Ok r
        | None =>
            if startswith s "NaN" then Ok (PNaN, str_drop 3 s)
            else if startswith s "Infinity" then Ok (PInf false, str_drop 8 s)
            else if startswith s "-Infinity" then Ok (PInf true, str_drop 9 s)
            else Raise (decode_error "Expecting value")
        end
  end.

(** [json.loads(s)] *)
Definition json_loads (depth : nat) (s : string) : result pyval :=
  '(v, rest) ← scan_once depth (skip_ws s);
  match skip_ws rest with
  | EmptyString => Ok v
  | String _ _ => Raise (decode_error "Extra data")
  end.

(** A scanner consumes when it returns less text than it was given. *)
Definition consumes (scan : string -> result (pyval * string)) : Prop :=
  forall s v rest, scan s = Ok (v, rest) -> (str_length rest < str_length s)%nat.

Definition payload_inner : string :=
  dq "'explanation':'x','file_actions':[],'shell_actions':['echo hi']".

(** The payload of the specification's example. *)
Definition payload_example : string :=
  String "{"%char payload_inner +:+ "}".

(** The characters of a string, as [for c in s] yields them: a unit of the
    form 10xxxxxx continues the character before it. *)
Fixpoint chars_of (s : string) : list string :=
  match s with
  | EmptyString => []
  | String c s' =>
      let n := nat_of_ascii c in
      match chars_of s' with
      | p :: ps =>
          match p with
          | String c' _ =>
              let n' := nat_of_ascii c' in
              if ((128 <=? n') && (n' <? 192))%nat then String c p :: ps
              else String c EmptyString :: p :: ps
          | EmptyString => String c EmptyString :: ps
          end
      | [] => [String c EmptyString]
      end
  end.

(** [iter(v)], as a [for] loop over [v] uses it. *)
Definition py_iter (v : pyval) : result (list pyval) :=
  match v with
  | PList l => Ok l
  | PStr s => Ok (PStr <$> chars_of s)
  | PDict d => Ok ((fun kv => PStr (fst kv)) <$> d)
  | _ => Raise (Exn TypeError "object is not iterable")
  end.

(** The characters of [s[:n]] *)
Definition take_chars (n : nat) (s : string) : string :=
  foldr String.append EmptyString (take n (chars_of s)).

(** [f"{v}"]; [py_str] is [str(v)] for the values that are not strings. *)
Definition fmt (py_str : pyval -> string) (v : pyval) : string :=
  match v with
  | PStr s => s
  | _ => py_str v
  end.

(** ** Encoding a text

    A text may hold lone surrogates (a [\uD800] escape of a JSON string
    that no low surrogate follows gives one); they are the characters
    [ED A0..BF 80..BF] of the UTF-8 form.  The codec [utf-8] refuses them;
    with the error handler [surrogateescape], which the operating system
    interface uses for file names, the surrogates from U+DC80 to U+DCFF pass
    and the others are refused. *)
Definition surrogate_of (c : string) : option N :=
  match c with
  | String a (String b (String d EmptyString)) =>
      let x := N_of_ascii a in
      let y := N_of_ascii b in
      let z := N_of_ascii d in
      if ((x =? 237) && (160 <=? y) && (y <? 192) && (128 <=? z) && (z <? 192))%N
      then Some (53248 + (y - 128) * 64 + (z - 128))%N
      else None
  | _ => None
  end.

Fixpoint surrogate_run (cs : list string) : nat :=
  match cs with
  | c :: rest =>
      match surrogate_of c with
      | Some _ => S (surrogate_run rest)
      | None => O
      end
  | [] => O
  end.

(** The first character the codec refuses: its position, its code and the
    number of surrogates from it to the end of the run it stands in. *)
Fixpoint find_refused (escape : bool) (pos : nat) (cs : list string)
  : option (nat * N * nat) :=
  match cs with
  | [] => None
  | c :: rest =>
      match surrogate_of c with
      | Some n =>
          if (escape && (56448 <=? n) && (n <=? 56575))%N
          then find_refused escape (S pos) rest
          else Some (pos, n, S (surrogate_run rest))
      | None => find_refused escape (S pos) rest
      end
  end.

Definition hex_digit (n : N) : ascii :=
  (if n <? 10 then ascii_of_N (48 + n) else ascii_of_N (87 + n))%N.

(** [str(e)] for the [UnicodeEncodeError] of the codec [utf-8], when there
    is one. *)
Definition encode_error (escape : bool) (text : string) : option string :=
  match find_refused escape 0%nat (chars_of text) with
  | None => None
  | Some (pos, n, len) =>
      Some ("'utf-8' codec can't encode "
            +:+ (if (len =? 1)%nat then
                   "character '\ud"
                   +:+ String (hex_digit ((n / 256) mod 16))
                         (String (hex_digit ((n / 16) mod 16))
                            (String (hex_digit (n mod 16)) EmptyString))
                   +:+ "' in position " +:+ pretty pos
                 else
                   "characters in position " +:+ pretty pos +:+ "-"
                   +:+ pretty (pos + len - 1)%nat)
            +:+ ": surrogates not allowed")
  end.

(** [text.encode('utf-8')] fails *)
Definition utf8_encode_error (text : string) : option string :=
  encode_error false text.

(** [os.fsencode(path)] fails *)
Definition fsencode_error (path : string) : option string :=
  encode_error true path.

(** [print(text)] on a standard output whose encoder raises what [console]
    says, and nothing for a text of ASCII characters.  The output is open
    and can be written to. *)
Definition py_print (console : string -> option string) (text : string)
  : result unit :=
  if is_ascii text then Ok ()
  else match console text with
       | None => Ok ()
       | Some msg => Raise (Exn UnicodeEncodeError msg)
       end.

(* ===================================================================== *)
(** * 4. [AutoCodeforge.parse_response] *)
(* ===================================================================== *)

(** [try: body except <classes>: handler] *)
Definition try_except {A} (body : result A) (catches : exn -> bool)
    (handler : exn -> result A) : result A :=
  match body with
  | Ok a => Ok a
  | Raise e => if catches e then handler e else Raise e
  end.

Definition any_exception (_ : exn) : bool := true.
Definition is_JSONDecodeError (e : exn) : bool :=
  bool_decide (exn_kind e = JSONDecodeError).

(** One entry of a reply's content list: a block of type ['text'] with its
    [text] value, or a block of any other type. *)
Inductive content_block :=
  | TextBlock (text : pyval)
  | OtherBlock.

(** The shapes of a reply that [parse_response] tells apart. *)
Inductive response :=
  | Message (content : list content_block)
      (** an object with a [content] attribute, or a dict with a
          ["content"] key *)
  | OriginalOnly (message_content : pyval)
      (** a dict without ["content"] whose ["_original"] has [choices] *)
  | BareDict
      (** a dict with neither *)
  | Unrecognized (str : string).
      (** anything else, with its [str(response)]; a plain text reply is
          of this shape *)

Fixpoint concat_text_blocks (blocks : list content_block) (acc : string)
  : result string :=
  match blocks with
  | [] => Ok acc
  | OtherBlock :: rest => concat_text_blocks rest acc
  | TextBlock (PStr t) :: rest => concat_text_blocks rest (acc +:+ t)
  | TextBlock _ :: _ => Raise (Exn TypeError "can only concatenate str to str")
  end.

Definition extract_text (r : response) : result string :=
  match r with
  | Message content => concat_text_blocks content EmptyString
  | OriginalOnly (PStr t) => Ok t
  | OriginalOnly _ => Raise (Exn TypeError "object is not subscriptable")
  | BareDict => Ok EmptyString
  | Unrecognized str => Ok str
  end.

Definition empty_actions : pyval :=
  PDict [("file_actions", PList []); ("shell_actions", PList [])].

(** [actions.get(key, [])] *)
Definition actions_get (actions : pyval) (key : string) : result pyval :=
  match actions with
  | PDict d => Ok (dict_get key d (PList []))
  | _ => Raise (Exn AttributeError "object has no attribute 'get'")
  end.

(** The inner [try] body.  [Ok (Some v)] stands for [return v]; [Ok None]
    for leaving the [if] without returning. *)
Definition find_json (depth : nat) (response_text : string)
  : result (option pyval) :=
  let start_idx := py_find response_text "{"%char in
  let end_idx := py_rfind response_text "}"%char + 1 in
  if (0 <=? start_idx) && (start_idx <? end_idx) then
    let json_text := py_slice response_text start_idx end_idx in
    actions ← json_loads depth json_text;
    Ok (Some actions)
  else Ok None.

Definition parse_text (depth : nat) (response_text : string)
  : result (option pyval) :=
  try_except (find_json depth response_text)
    is_JSONDecodeError (fun _ => Ok None).

Definition parse_response (depth : nat) (r : response) : result pyval :=
  returned ← try_except
                (response_text ← extract_text r; parse_text depth response_text)
                any_exception (fun _ => Ok None);
  match returned with
  | Some actions => Ok actions
  | None => Ok empty_actions
  end.

(** In the words of the specification: the substring from the first [{] to
    the last [}] of the text, when there is one. *)
Definition json_candidate (text : string) : option string :=
  match find_char "{"%char text, rfind_char "}"%char text with
  | Some i, Some j =>
      if (i <=? j)%nat then Some (str_take (j - i + 1) (str_drop i text))
      else None
  | _, _ => None
  end.

(** No such substring, or one that [json.loads] rejects. *)
Definition decode_fails (depth : nat) (text : string) : bool :=
  match json_candidate text with
  | None => true
  | Some j => negb (is_ok (json_loads depth j))
  end.

(** The claim of the specification about the example payload: the parsed
    actions hold the one shell command and no file action. *)
Definition parses_to_example (depth : nat) (r : response) : Prop :=
  exists actions,
    parse_response depth r = Ok actions
    /\ actions_get actions "shell_actions" = Ok (PList [PStr "echo hi"])
    /\ actions_get actions "file_actions" = Ok (PList []).

(* ===================================================================== *)
(** * 5. Paths and the file system *)
(* ===================================================================== *)

Definition sep : ascii := "/"%char.

(** [os.path.join(a, b)] *)
Definition path_join (a b : string) : string :=
  if startswith b "/" then b
  else if str_eqb a EmptyString || endswith_char a sep then a +:+ b
  else a +:+ "/" +:+ b.

(** The component loop of [os.path.normpath]; [stack] is [new_comps],
    last component first. *)
Fixpoint normpath_loop (rooted : bool) (comps stack : list string)
  : list string :=
  match comps with
  | [] => rev stack
  | comp :: rest =>
      if str_eqb comp EmptyString || str_eqb comp "." then
        normpath_loop rooted rest stack
      else if negb (str_eqb comp "..")
              || (negb rooted && match stack with [] => true | _ => false end)
              || match stack with top :: _ => str_eqb top ".." | [] => false end
      then normpath_loop rooted rest (comp :: stack)
      else match stack with
           | _ :: stack' => normpath_loop rooted rest stack'
           | [] => normpath_loop rooted rest stack
           end
  end.

Definition initial_slashes (path : string) : nat :=
  if startswith path "/" then
    if startswith path "//" && negb (startswith path "///") then 2%nat else 1%nat
  else 0%nat.

Definition norm_comps (path : string) : list string :=
  normpath_loop (negb (Nat.eqb (initial_slashes path) 0)) (split_on sep path) [].

Fixpoint slashes (n : nat) : string :=
  match n with
  | O => EmptyString
  | S n' => String sep (slashes n')
  end.

(** [os.path.normpath(path)] *)
Definition normpath (path : string) : string :=
  if str_eqb path EmptyString then "."
  else
    let p := slashes (initial_slashes path) +:+ join "/" (norm_comps path) in
    if str_eqb p EmptyString then "." else p.

Fixpoint all_sep (s : string) : bool :=
  match s with
  | EmptyString => true
  | String c s' => ascii_eqb c sep && all_sep s'
  end.

(** [s.rstrip('/')] *)
Fixpoint rstrip_sep (s : string) : string :=
  match s with
  | EmptyString => EmptyString
  | String c s' =>
      match rstrip_sep s' with
      | EmptyString => if ascii_eqb c sep then EmptyString else String c EmptyString
      | t => String c t
      end
  end.

(** [os.path.dirname(p)] *)
Definition dirname (p : string) : string :=
  let i := py_rfind p sep + 1 in
  let head := py_slice p 0 i in
  if negb (str_eqb head EmptyString) && negb (all_sep head) then rstrip_sep head
  else head.

(** [os.path.split(p)] *)
Definition path_split (p : string) : string * string :=
  let i := py_rfind p sep + 1 in
  let head := py_slice p 0 i in
  let tail := str_drop (Z.to_nat i) p in
  (if negb (str_eqb head EmptyString) && negb (all_sep head) then rstrip_sep head
   else head, tail).

(** What a path names on disk. *)
Inductive node :=
  | File (content : string)
  | Dir.

(** The file system maps a location, the list of names leading to it from
    the root, to what is there.  The root itself is a directory and has no
    entry.  There are no symbolic links, and the current directory is the
    root, so a relative path names what the same path names after a slash.
    Permissions, the limits on the length of a name and of a path, and a
    full disk are left out: an operation fails for a name that cannot be
    encoded, for a missing entry, or for an entry of the wrong kind. *)
Abbreviation fs := (gmap (list string) node).

(** The location the normal form of a path names. *)
Definition locate (path : string) : list string :=
  normpath_loop true (split_on sep path) [].

Definition node_at (disk : fs) (loc : list string) : option node :=
  match loc with
  | [] => Some Dir
  | _ => disk !! loc
  end.

(** Where the operating system gets to when it follows a path. *)
Inductive lookup :=
  | At (loc : list string)
  | NoEntry
  | NotDirectory
  | BadName (msg : string).

(** Where a component leads from the directory [here]. *)
Definition enter (here : list string) (comp : string) : list string :=
  if str_eqb comp EmptyString || str_eqb comp "." then here
  else if str_eqb comp ".." then removelast here
  else here ++ [comp].

(** A component is looked up in a directory. *)
Definition checked (disk : fs) (here : list string) : lookup :=
  match node_at disk here with
  | Some Dir => At here
  | Some (File _) => NotDirectory
  | None => NoEntry
  end.

(** The components of a path are followed one by one, from the directory
    [here]: every component, also an empty one, [.] or [..], is looked up
    in a directory, so what the path has got to before it has to be one. *)
Fixpoint walk (disk : fs) (here : list string) (comps : list string) : lookup :=
  match comps with
  | [] => At here
  | comp :: rest =>
      match checked disk here with
      | At _ => walk disk (enter here comp) rest
      | l => l
      end
  end.

(** Every directory of [disk] is a directory of [disk']. *)
Definition dirs_kept (disk disk' : fs) : Prop :=
  forall loc, node_at disk loc = Some Dir -> node_at disk' loc = Some Dir.

Definition resolve (path : string) (disk : fs) : lookup :=
  if str_eqb path EmptyString then NoEntry
  else match fsencode_error path with
       | Some msg => BadName msg
       | None => walk disk [] (split_on sep path)
       end.

(** [os.path.exists(path)] *)
Definition os_path_exists (path : string) (disk : fs) : bool :=
  match resolve path disk with
  | At loc =>
      match node_at disk loc with
      | Some _ => true
      | None => false
      end
  | _ => false
  end.

(** [os.path.isdir(path)] *)
Definition os_path_isdir (path : string) (disk : fs) : bool :=
  match resolve path disk with
  | At loc =>
      match node_at disk loc with
      | Some Dir => true
      | _ => false
      end
  | _ => false
  end.

Definition os_error (msg : string) (path : string) : exn :=
  Exn OSError (msg +:+ ": '" +:+ path +:+ "'").

(** The exception of a system call on [path] whose lookup failed. *)
Definition lookup_error (l : lookup) (path : string) : exn :=
  match l with
  | NotDirectory => os_error "[Errno 20] Not a directory" path
  | BadName msg => Exn UnicodeEncodeError msg
  | _ => os_error "[Errno 2] No such file or directory" path
  end.

(** [except OSError]: the class and its subclasses *)
Definition is_OSError (e : exn) : bool :=
  match exn_kind e with
  | OSError | FileExistsError => true
  | _ => false
  end.

Definition is_FileExistsError (e : exn) : bool :=
  match exn_kind e with
  | FileExistsError => true
  | _ => false
  end.

(** [os.mkdir(name)]; slashes at the end of the name do not count. *)
Definition os_mkdir (name : string) (disk : fs) : result unit * fs :=
  if str_eqb name EmptyString then (Raise (lookup_error NoEntry name), disk)
  else
    match fsencode_error name with
    | Some msg => (Raise (lookup_error (BadName msg) name), disk)
    | None =>
        match walk disk [] (split_on sep (rstrip_sep name)) with
        | At loc =>
            match node_at disk loc with
            | Some _ =>
                (Raise (Exn FileExistsError
                          ("[Errno 17] File exists: '" +:+ name +:+ "'")), disk)
            | None => (Ok (), <[loc := Dir]> disk)
            end
        | l => (Raise (lookup_error l name), disk)
        end
    end.

(** The first lines of [os.makedirs]: the name is split, and the head is
    split again when the tail is empty. *)
Definition split_twice (name : string) : string * string :=
  let '(head, tail) := path_split name in
  if str_eqb tail EmptyString then path_split head else (head, tail).

(** The last lines of [os.makedirs]: [mkdir], whose [OSError] is passed over
    when the directory is there. *)
Definition mkdir_exist_ok (name : string) (disk : fs) : result unit * fs :=
  match os_mkdir name disk with
  | (Raise e, disk') =>
      if is_OSError e && os_path_isdir name disk' then (Ok (), disk')
      else (Raise e, disk')
  | (Ok _, disk') => (Ok (), disk')
  end.

(** [os.makedirs(name, exist_ok=True)].  The recursion is on the head of
    the name, which is shorter than the name. *)
Fixpoint makedirs (fuel : nat) (name : string) (disk : fs) : result unit * fs :=
  match fuel with
  | O => (Raise (Exn RecursionError "maximum recursion depth exceeded"), disk)
  | S fuel' =>
      let '(head, tail) := split_twice name in
      if negb (str_eqb head EmptyString) && negb (str_eqb tail EmptyString)
         && negb (os_path_exists head disk)
      then
        match makedirs fuel' head disk with
        | (Raise e, disk1) =>
            if is_FileExistsError e then
              (* xxx/newdir/. exists if xxx/newdir exists *)
              if str_eqb tail "." then (Ok (), disk1)
              else mkdir_exist_ok name disk1
            else (Raise e, disk1)
        | (Ok _, disk1) =>
            if str_eqb tail "." then (Ok (), disk1)
            else mkdir_exist_ok name disk1
        end
      else mkdir_exist_ok name disk
  end.

Definition os_makedirs (name : string) (disk : fs) : result unit * fs :=
  makedirs (S (str_length name)) name disk.

(** [open(path, 'w', encoding='utf-8')]: the file is created, or emptied
    when it exists; the result is the location the handle writes to. *)
Definition os_open_w (path : string) (disk : fs) : result (list string) * fs :=
  if str_eqb path EmptyString then (Raise (lookup_error NoEntry path), disk)
  else
    match fsencode_error path with
    | Some msg => (Raise (lookup_error (BadName msg) path), disk)
    | None =>
        if endswith_char path sep then
          match walk disk [] (split_on sep (rstrip_sep path)) with
          | At loc =>
              match node_at disk loc with
              | Some (File _) => (Raise (lookup_error NotDirectory path), disk)
              | _ => (Raise (os_error "[Errno 21] Is a directory" path), disk)
              end
          | l => (Raise (lookup_error l path), disk)
          end
        else
          match walk disk [] (split_on sep path) with
          | At loc =>
              match node_at disk loc with
              | Some Dir => (Raise (os_error "[Errno 21] Is a directory" path), disk)
              | _ => (Ok loc, <[loc := File EmptyString]> disk)
              end
          | l => (Raise (lookup_error l path), disk)
          end
    end.

(** [f.write(content)] on a handle opened by [os_open_w], and the end of
    the [with] block *)
Definition file_write (loc : list string) (content : pyval) (disk : fs)
  : result unit * fs :=
  match content with
  | PStr text =>
      match utf8_encode_error text with
      | Some msg => (Raise (Exn UnicodeEncodeError msg), disk)
      | None => (Ok (), <[loc := File text]> disk)
      end
  | _ => (Raise (Exn TypeError "write() argument must be str"), disk)
  end.

(** [os.remove(path)] *)
Definition os_remove (path : string) (disk : fs) : result unit * fs :=
  match resolve path disk with
  | At loc =>
      match node_at disk loc with
      | Some (File _) => (Ok (), delete loc disk)
      | Some Dir => (Raise (os_error "[Errno 21] Is a directory" path), disk)
      | None => (Raise (lookup_error NoEntry path), disk)
      end
  | l => (Raise (lookup_error l path), disk)
  end.

(** What a file opened for reading as text gives for what it holds: a
    carriage return, with the line feed after it when there is one, is read
    as a line feed. *)
Fixpoint universal_newlines (s : string) : string :=
  match s with
  | String "013"%char (String "010"%char r) => String "010"%char (universal_newlines r)
  | String "013"%char r => String "010"%char (universal_newlines r)
  | String c r => String c (universal_newlines r)
  | EmptyString => EmptyString
  end.

(* ===================================================================== *)
(** * 6. [FileManager] *)
(* ===================================================================== *)

(** [FileManager.get_full_path]; [base_dir] is [self.project_path]. *)
Definition get_full_path (base_dir : string) (relative_path : pyval)
  : result string :=
  match relative_path with
  | PStr relative_path =>
      let full_path := path_join base_dir relative_path in
      (* Security check to prevent directory traversal *)
      let normalized_path := normpath full_path in
      if negb (startswith normalized_path base_dir) then
        Raise (Exn ValueError ("Path traversal detected: " +:+ relative_path))
      else Ok full_path
  | _ => Raise (Exn TypeError "join() argument must be str, bytes, or os.PathLike object")
  end.

(** [FileManager.write_file] *)
Definition write_file (base_dir : string) (relative_path content : pyval)
    (disk : fs) : result unit * fs :=
  match get_full_path base_dir relative_path with
  | Raise e => (Raise e, disk)
  | Ok full_path =>
      (* Create parent directories if they don't exist *)
      match os_makedirs (dirname full_path) disk with
      | (Raise e, disk1) => (Raise e, disk1)
      | (Ok _, disk1) =>
          match os_open_w full_path disk1 with
          | (Raise e, disk2) => (Raise e, disk2)
          | (Ok handle, disk2) => file_write handle content disk2
          end
      end
  end.

(** [FileManager.delete_file] *)
Definition delete_file (base_dir : string) (relative_path : pyval)
    (disk : fs) : result unit * fs :=
  match get_full_path base_dir relative_path with
  | Raise e => (Raise e, disk)
  | Ok full_path =>
      if os_path_exists full_path disk then os_remove full_path disk
      else (Ok (), disk)
  end.

(** [FileManager.read_file].  A file holds a text (nothing else writes
    files here), so decoding what is read does not fail. *)
Definition read_file (base_dir : string) (relative_path : pyval)
    (disk : fs) : result string :=
  full_path ← get_full_path base_dir relative_path;
  match resolve full_path disk with
  | At loc =>
      match node_at disk loc with
      | Some (File text) => Ok (universal_newlines text)
      | Some Dir => Raise (os_error "[Errno 21] Is a directory" full_path)
      | None => Raise (lookup_error NoEntry full_path)
      end
  | l => Raise (lookup_error l full_path)
  end.

(** [FileManager.create_directory] *)
Definition create_directory (base_dir : string) (relative_path : pyval)
    (disk : fs) : result unit * fs :=
  match get_full_path base_dir relative_path with
  | Raise e => (Raise e, disk)
  | Ok full_path => os_makedirs full_path disk
  end.

(* ===================================================================== *)
(** * 7. [AutoCodeforge.execute_file_actions] *)
(* ===================================================================== *)

(** What the function reports (to the log and on the console) for one
    action. *)
Inductive diagnostic :=
  | SkippedEmptyPath (action : pyval)
  | CreatedFile (path : pyval)
  | ModifiedFile (path : pyval)
  | DeletedFile (path : pyval)
  | UnknownFileAction (action_type path : pyval)
  | FileActionFailed (action_type path : pyval) (e : exn).

(** The line printed for a diagnostic; a skipped action is only logged, and
    logging does not raise. *)
Definition report_line (py_str : pyval -> string) (d : diagnostic)
  : option string :=
  match d with
  | SkippedEmptyPath _ => None
  | CreatedFile path => Some ("Created file: " +:+ fmt py_str path)
  | ModifiedFile path => Some ("Modified file: " +:+ fmt py_str path)
  | DeletedFile path => Some ("Deleted file: " +:+ fmt py_str path)
  | UnknownFileAction action_type path =>
      Some ("Unknown file action: " +:+ fmt py_str action_type +:+ " for "
            +:+ fmt py_str path)
  | FileActionFailed _ path e =>
      Some ("Error with file " +:+ fmt py_str path +:+ ": " +:+ exn_message e)
  end.

Section FileActions.

(** What the encoder of the standard output raises for a text, and
    [str(v)] for the values that are not strings. *)
Context (console : string -> option string).
Context (py_str : pyval -> string).

(** [print] of the line of a diagnostic *)
Definition report (d : diagnostic) : result unit :=
  match report_line py_str d with
  | Some line => py_print console line
  | None => Ok ()
  end.

(** The [try] body of the loop, for one action. *)
Definition apply_file_action (base_dir : string)
    (action_type path content : pyval) (disk : fs) : result diagnostic * fs :=
  if py_eq_str action_type "create" then
    match write_file base_dir path content disk with
    | (Ok _, disk') =>
        (_ ← report (CreatedFile path); Ok (CreatedFile path), disk')
    | (Raise e, disk') => (Raise e, disk')
    end
  else if py_eq_str action_type "modify" then
    match write_file base_dir path content disk with
    | (Ok _, disk') =>
        (_ ← report (ModifiedFile path); Ok (ModifiedFile path), disk')
    | (Raise e, disk') => (Raise e, disk')
    end
  else if py_eq_str action_type "delete" then
    match delete_file base_dir path disk with
    | (Ok _, disk') =>
        (_ ← report (DeletedFile path); Ok (DeletedFile path), disk')
    | (Raise e, disk') => (Raise e, disk')
    end
  else
    (_ ← report (UnknownFileAction action_type path);
     Ok (UnknownFileAction action_type path), disk).

(** One round of the loop, for an action that is a dict: an exception of
    the [try] body is reported by the handler, and an exception of the
    handler leaves the function. *)
Definition file_action_step (base_dir : string)
    (action : list (string * pyval)) (disk : fs) : result diagnostic * fs :=
  let action_type := dict_get "action" action (PStr EmptyString) in
  let path := dict_get "path" action (PStr EmptyString) in
  let content := dict_get "content" action (PStr EmptyString) in
  if negb (truthy path) then (Ok (SkippedEmptyPath (PDict action)), disk)
  else
    match apply_file_action base_dir action_type path content disk with
    | (Ok d, disk') => (Ok d, disk')
    | (Raise e, disk') =>
        (_ ← report (FileActionFailed action_type path e);
         Ok (FileActionFailed action_type path e), disk')
    end.

Fixpoint file_actions_loop (base_dir : string) (items : list pyval)
    (disk : fs) (log : list diagnostic) : result (list diagnostic) * fs :=
  match items with
  | [] => (Ok log, disk)
  | PDict action :: rest =>
      match file_action_step base_dir action disk with
      | (Ok d, disk') => file_actions_loop base_dir rest disk' (log ++ [d])
      | (Raise e, disk') => (Raise e, disk')
      end
  | _ :: _ =>
      (Raise (Exn AttributeError "object has no attribute 'get'"), disk)
  end.

(** [AutoCodeforge.execute_file_actions]; the result is what was reported,
    action by action. *)
Definition execute_file_actions (base_dir : string) (file_actions : pyval)
    (disk : fs) : result (list diagnostic) * fs :=
  match py_iter file_actions with
  | Raise e => (Raise e, disk)
  | Ok items => file_actions_loop base_dir items disk []
  end.

(** In the words of the specification: what becomes of one action.  An
    action with an empty path is skipped; an action of an unknown kind is
    skipped; a create or modify action writes the file, a delete action
    deletes it; an action that fails is reported and leaves the disk as the
    failing operation left it.  What is printed for the action could be
    printed. *)
Definition known_kind (action_type : pyval) : bool :=
  py_eq_str action_type "create" || py_eq_str action_type "modify"
  || py_eq_str action_type "delete".

(** The operation of an action of a known kind, and what is reported when
    it returns. *)
Inductive action_operation (base_dir : string) (action_type path content : pyval)
    (disk : fs) : result unit -> fs -> diagnostic -> Prop :=
  | operation_create r disk' :
      py_eq_str action_type "create" = true ->
      write_file base_dir path content disk = (r, disk') ->
      action_operation base_dir action_type path content disk r disk'
        (CreatedFile path)
  | operation_modify r disk' :
      py_eq_str action_type "create" = false ->
      py_eq_str action_type "modify" = true ->
      write_file base_dir path content disk = (r, disk') ->
      action_operation base_dir action_type path content disk r disk'
        (ModifiedFile path)
  | operation_delete r disk' :
      py_eq_str action_type "create" = false ->
      py_eq_str action_type "modify" = false ->
      py_eq_str action_type "delete" = true ->
      delete_file base_dir path disk = (r, disk') ->
      action_operation base_dir action_type path content disk r disk'
        (DeletedFile path)
  | operation_none :
      known_kind action_type = false ->
      action_operation base_dir action_type path content disk (Ok ()) disk
        (UnknownFileAction action_type path).

(** How the [try] body fails: the operation raises, or the operation
    returns and the line that reports it cannot be printed. *)
Inductive action_fails (base_dir : string) (action_type path content : pyval)
    (disk : fs) : exn -> fs -> Prop :=
  | fails_in_operation e disk' d :
      action_operation base_dir action_type path content disk (Raise e) disk' d ->
      action_fails base_dir action_type path content disk e disk'
  | fails_in_report e disk' d :
      action_operation base_dir action_type path content disk (Ok ()) disk' d ->
      report d = Raise e ->
      action_fails base_dir action_type path content disk e disk'.

Inductive action_outcome (base_dir : string) (action : list (string * pyval))
    (disk : fs) : diagnostic -> fs -> Prop :=
  | outcome_empty_path :
      truthy (dict_get "path" action (PStr EmptyString)) = false ->
      action_outcome base_dir action disk (SkippedEmptyPath (PDict action)) disk
  | outcome_done d disk' :
      truthy (dict_get "path" action (PStr EmptyString)) = true ->
      action_operation base_dir
        (dict_get "action" action (PStr EmptyString))
        (dict_get "path" action (PStr EmptyString))
        (dict_get "content" action (PStr EmptyString)) disk (Ok ()) disk' d ->
      report d = Ok () ->
      action_outcome base_dir action disk d disk'
  | outcome_failed e disk' :
      truthy (dict_get "path" action (PStr EmptyString)) = true ->
      action_fails base_dir
        (dict_get "action" action (PStr EmptyString))
        (dict_get "path" action (PStr EmptyString))
        (dict_get "content" action (PStr EmptyString)) disk e disk' ->
      report (FileActionFailed (dict_get "action" action (PStr EmptyString))
                (dict_get "path" action (PStr EmptyString)) e) = Ok () ->
      action_outcome base_dir action disk
        (FileActionFailed (dict_get "action" action (PStr EmptyString))
                          (dict_get "path" action (PStr EmptyString)) e) disk'.

(** Every action of the list has its outcome, in order, each starting from
    the disk the one before it left. *)
Inductive actions_applied (base_dir : string)
  : list (list (string * pyval)) -> fs -> list diagnostic -> fs -> Prop :=
  | applied_nil disk : actions_applied base_dir [] disk [] disk
  | applied_cons action rest disk d disk1 log disk2 :
      action_outcome base_dir action disk d disk1 ->
      actions_applied base_dir rest disk1 log disk2 ->
      actions_applied base_dir (action :: rest) disk (d :: log) disk2.

(** The one way the loop is left early for a list of dictionaries: an
    action fails and the line that reports the failure cannot be
    printed. *)
Definition report_of_failure_raises (base_dir : string)
    (action : list (string * pyval)) (disk : fs) (e : exn) (disk' : fs) : Prop :=
  truthy (dict_get "path" action (PStr EmptyString)) = true
  /\ exists cause,
       action_fails base_dir
         (dict_get "action" action (PStr EmptyString))
         (dict_get "path" action (PStr EmptyString))
         (dict_get "content" action (PStr EmptyString)) disk cause disk'
       /\ report (FileActionFailed (dict_get "action" action (PStr EmptyString))
                    (dict_get "path" action (PStr EmptyString)) cause) = Raise e.

End FileActions.


(** The file actions of the two kinds the idempotence properties are
    about. *)
Definition delete_action (path : pyval) : pyval :=
  PDict [("action", PStr "delete"); ("path", path)].

Definition create_action (path content : pyval) : pyval :=
  PDict [("action", PStr "create"); ("path", path); ("content", content)].

(** A location is inside a directory when the directory's location leads
    to it. *)
Definition inside (base_dir : string) (loc : list string) : Prop :=
  locate base_dir `prefix_of` loc.

(* ===================================================================== *)
(** * 8. [ResultAnalyzer] *)
(* ===================================================================== *)

(** The dictionary [analyze] returns.  The entries [has_error],
    [success_patterns] and [summary] are absent from the dictionary of an
    empty result. *)
Record analysis := Analysis {
  success : bool;
  has_error : option bool;
  success_patterns : option (list string);
  terminate : bool;
  reason : string;
  summary : option string
}.

(** The markers of [_check_for_errors], each written as the text its
    pattern matches (none of the patterns has an operator besides the two
    escaped parentheses). *)
Definition error_patterns : list string :=
  [ "ERROR:"; "Error:"; "Exception:"; "failed with exit code";
    "Command failed"; "Traceback (most recent call last)";
    "ModuleNotFoundError:"; "ImportError:"; "SyntaxError:"; "NameError:";
    "TypeError:"; "ValueError:" ].

(** [ResultAnalyzer._check_for_errors] *)
Fixpoint search_any (patterns : list string) (result : string) : bool :=
  match patterns with
  | [] => false
  | pattern :: rest =>
      if contains pattern result then true else search_any rest result
  end.

Definition _check_for_errors (result : string) : bool :=
  search_any error_patterns result.

(** [re.search("A|B|...", result, re.IGNORECASE)] for alternatives without
    operators *)
Definition isearch_alt (alternatives : list string) (result : string) : bool :=
  existsb (fun lit => icontains lit result) alternatives.

(** [ResultAnalyzer._identify_success_patterns] *)
Definition _identify_success_patterns (result : string) : list string :=
  (if contains "successfully" (str_lower result) then ["success_keyword"] else [])
  ++ (if isearch_alt ["All tests passed"; "Tests passed"; "Test successful"] result
      then ["test_success"] else [])
  ++ (if isearch_alt ["Build successful"; "Built successfully"] result
      then ["build_success"] else [])
  ++ (if isearch_alt ["Server started"; "Running on"; "Listening on"] result
      then ["server_started"] else []).

(** In the words of the specification: at least one success pattern
    matches. *)
Definition success_pattern_found (result : string) : bool :=
  contains "successfully" (str_lower result)
  || isearch_alt ["All tests passed"; "Tests passed"; "Test successful"] result
  || isearch_alt ["Build successful"; "Built successfully"] result
  || isearch_alt ["Server started"; "Running on"; "Listening on"] result.

(** [ResultAnalyzer._should_terminate] *)
Definition _should_terminate (result : string) (success : bool) : bool :=
  if contains "CRITICAL ERROR" result then true
  else if isearch_alt ["Optimization complete"; "Goal achieved";
                       "Success criteria met"] result then true
  else false.

(** The longest run of characters outside [excluded] at the head of [s],
    and what follows it. *)
Fixpoint span_outside (excluded : list ascii) (s : string) : string * string :=
  match s with
  | String c r =>
      if existsb (ascii_eqb c) excluded then (EmptyString, s)
      else let '(run, rest) := span_outside excluded r in (String c run, rest)
  | EmptyString => (EmptyString, EmptyString)
  end.

(** The longest non-empty prefix of [run] after which [closing] follows. *)
Fixpoint longest_before (closing run rest : string) : option string :=
  match run with
  | EmptyString => None
  | String c run' =>
      match longest_before closing run' rest with
      | Some g => Some (String c g)
      | None =>
          if startswith (run' +:+ rest) closing then Some (String c EmptyString)
          else None
      end
  end.

(** [re.search(opening + "([^" + excluded + "]+)" + closing, text)] for
    texts [opening] and [closing] without operators: group 1 of the
    leftmost match. *)
Fixpoint search_group (opening : string) (excluded : list ascii)
    (closing : string) (text : string) : option string :=
  let here :=
    if startswith text opening then
      let '(run, rest) :=
        span_outside excluded (str_drop (str_length opening) text) in
      longest_before closing run rest
    else None in
  match here with
  | Some g => Some g
  | None =>
      match text with
      | EmptyString => None
      | String _ text' => search_group opening excluded closing text'
      end
  end.

(** The table of [_determine_reason].  The class [[^\\n]] of the raw
    patterns excludes the backslash and the letter n. *)
Definition reason_table : list (string * list ascii * string * string) :=
  [ ("ModuleNotFoundError: No module named '", ["'"%char], "'", "Missing module: ");
    ("ImportError: ", ["\"%char; "n"%char], EmptyString, "Import error: ");
    ("SyntaxError: ", ["\"%char; "n"%char], EmptyString, "Syntax error: ");
    ("TypeError: ", ["\"%char; "n"%char], EmptyString, "Type error: ");
    ("ValueError: ", ["\"%char; "n"%char], EmptyString, "Value error: ") ].

Fixpoint first_reason (table : list (string * list ascii * string * string))
    (result : string) : option string :=
  match table with
  | [] => None
  | (opening, excluded, closing, label) :: rest =>
      match search_group opening excluded closing result with
      | Some g => Some (label +:+ g)
      | None => first_reason rest result
      end
  end.

(** [ResultAnalyzer._determine_reason] *)
Definition _determine_reason (result : string) (success terminate : bool)
  : string :=
  if terminate then
    if contains "CRITICAL ERROR" result then "Critical error occurred"
    else if success then "Success criteria met"
    else "Termination condition detected"
  else if negb success then
    match first_reason reason_table result with
    | Some r => r
    | None => "Execution failed with errors"
    end
  else "Execution completed successfully".

(** White space as [str.strip] sees it, among the units below 128. *)
Definition is_space (c : ascii) : bool :=
  let n := nat_of_ascii c in
  ((9 <=? n) && (n <=? 13) || (28 <=? n) && (n <=? 32))%nat.

Fixpoint lstrip (s : string) : string :=
  match s with
  | String c s' => if is_space c then lstrip s' else s
  | EmptyString => s
  end.

Fixpoint rstrip (s : string) : string :=
  match s with
  | EmptyString => EmptyString
  | String c s' =>
      match rstrip s' with
      | EmptyString => if is_space c then EmptyString else String c EmptyString
      | t => String c t
      end
  end.

(** [s.strip()] *)
Definition strip (s : string) : string := rstrip (lstrip s).

(** [ResultAnalyzer._summarize_result] *)
Definition _summarize_result (result : string) : string :=
  let lines := split_on "010"%char (strip result) in
  let relevant_lines :=
    take 5 lines
    ++ filter (fun line =>
                 existsb (fun error_word => contains error_word line)
                   ["error"; "exception"; "failed"; "traceback"] = true)
         (drop 5 lines) in
  let relevant_lines :=
    if (10 <? Z.of_nat (length relevant_lines))
    then take 10 relevant_lines ++ ["..."]
    else relevant_lines in
  join nl relevant_lines.

(** [ResultAnalyzer.analyze] *)
Definition analyze (result : string) : analysis :=
  if str_eqb result EmptyString then
    {| success := false; has_error := None; success_patterns := None;
       terminate := false; reason := "Empty result"; summary := None |}
  else
    let has_error := _check_for_errors result in
    let success_patterns := _identify_success_patterns result in
    let success := negb has_error && (0 <? Z.of_nat (length success_patterns)) in
    let terminate := _should_terminate result success in
    {| success := success;
       has_error := Some has_error;
       success_patterns := Some success_patterns;
       terminate := terminate;
       reason := _determine_reason result success terminate;
       summary := Some (_summarize_result result) |}.

(* ===================================================================== *)
(** * 9. The outside world: processes and the generator *)
(* ===================================================================== *)

(** How a spawned process ends, as [PowerShellExecutor.execute] sees it:
    it exits; or the timeout expires, and [process.kill()] returns or
    raises; or starting it or talking to it raises. *)
Inductive proc_outcome :=
  | Exited (returncode : Z) (stdout stderr : string)
  | TimedOut (killed : result unit)
  | SpawnFailed (e : string).

(** The state the engine runs in: the disk, and whatever else the
    processes and the generator depend on. *)
Record world (Ext : Type) := World { w_disk : fs; w_ext : Ext }.
Arguments World {Ext} w_disk w_ext.
Arguments w_disk {Ext} w.
Arguments w_ext {Ext} w.

Definition set_disk {Ext} (w : world Ext) (disk : fs) : world Ext :=
  World disk (w_ext w).

(** The two paths of an [AutoCodeforge] object: [self.project_path], which
    is also the working directory of its shell executor, and the
    [project_path] of its [FileManager]. *)
Record autocodeforge := AutoCodeforge {
  project_path : string;
  file_manager_path : string
}.

Definition check_cmd : string := "Write-Output (Get-Location).Path".

Definition command_block (cmd result : string) : string :=
  "Command: " +:+ cmd +:+ nl +:+ "Result:" +:+ nl +:+ result +:+ nl.

Definition error_msg (cmd : string) (e : exn) : string :=
  "Error executing command '" +:+ cmd +:+ "': " +:+ exn_message e.

Definition error_block (cmd : string) (e : exn) : string :=
  "Command: " +:+ cmd +:+ nl +:+ "Error: " +:+ error_msg cmd e +:+ nl.

(** The line printed for the result of a command *)
Definition result_line (result : string) : string :=
  "Result: " +:+ take_chars 300 result
  +:+ (if (300 <? length (chars_of result))%nat then "..." else EmptyString).

(** How [run_cycle] leaves its loop: by [break] after an analysis that asks
    to terminate, by running out of iterations, or by an exception that
    nothing in [run_cycle] catches. *)
Inductive stop :=
  | Terminated
  | ExhaustedIterations
  | Aborted (e : exn).

(** What one iteration produced, once its transcript was analysed.  The
    code keeps only the last transcript ([current_result]); the list of
    these records is the trace of the run. *)
Record iteration_record := IterationRecord {
  ir_index : Z;
  ir_actions : pyval;
  ir_transcript : string;
  ir_outcome : analysis
}.

(** An analysis that asks to terminate ends the history. *)
Definition ends_history (history : list iteration_record) : Prop :=
  forall k rec,
    history !! k = Some rec -> terminate (ir_outcome rec) = true ->
    length history = S k.


(** The blocks one command leaves in the transcript: its result, or the
    error its [try] body ended with, or both when the result could not be
    printed. *)
Inductive command_blocks (cmd : string) : list string -> Prop :=
  | blocks_result out : command_blocks cmd [command_block cmd out]
  | blocks_error e : command_blocks cmd [error_block cmd e]
  | blocks_both out e :
      command_blocks cmd [command_block cmd out; error_block cmd e].

Section Engine.
Context {Ext : Type}.

(** Running [powershell.exe] on a command, from a working directory, with
    a timeout: the process may do anything to the world. *)
Context (spawn : string -> string -> Z -> world Ext -> proc_outcome * world Ext).

(** [os.getcwd()] *)
Context (getcwd : world Ext -> result string).

(** What the encoder of the standard output raises for a text. *)
Context (console : string -> option string).

(** The generator, [generate_code]: a reply, or an exception, for a topic,
    an iteration index and the previous transcript; the prompt it is sent
    is built from these and from the files on disk. *)
Context (generate_code : string -> Z -> option string -> world Ext ->
                    result response * world Ext).

(** [str(v)] for the values that are not strings. *)
Context (py_str : pyval -> string).

(** The interpreter's limit on nested calls. *)
Context (recursion_limit : nat).

(** [PowerShellExecutor.execute] *)
Definition execute (working_directory command : string) (timeout : Z)
    (w : world Ext) : result string * world Ext :=
  let prepared : result (option string) * world Ext :=
    if negb (str_eqb working_directory EmptyString) then
      let made :=
        if negb (os_path_exists working_directory (w_disk w)) then
          os_makedirs working_directory (w_disk w)
        else (Ok (), w_disk w) in
      match made with
      | (Raise e, disk) => (Raise e, set_disk w disk)
      | (Ok _, disk) =>
          if negb (os_path_exists working_directory disk) then
            (Ok (Some ("ERROR: Working directory does not exist: "
                       +:+ working_directory)), set_disk w disk)
          else (Ok None, set_disk w disk)
      end
    else (Ok None, w) in
  match prepared with
  | (Raise e, w1) => (Raise e, w1)
  | (Ok (Some early), w1) => (Ok early, w1)
  | (Ok None, w1) =>
      (* Log the execution environment *)
      let actual_working_dir :=
        if negb (str_eqb working_directory EmptyString) then Ok working_directory
        else getcwd w1 in
      match actual_working_dir with
      | Raise e => (Raise e, w1)
      | Ok _ =>
          let '(outcome, w2) := spawn working_directory command timeout w1 in
          match outcome with
          | Exited returncode stdout stderr =>
              if negb (returncode =? 0) then
                let error_message :=
                  "PowerShell command failed with exit code " +:+ pretty returncode
                  +:+ ": " +:+ stderr in
                (Ok ("ERROR: " +:+ error_message +:+ nl +:+ stdout), w2)
              else (Ok stdout, w2)
          | TimedOut (Raise e) => (Raise e, w2)
          | TimedOut (Ok _) =>
              (Ok ("ERROR: " +:+ "Command timed out after " +:+ pretty timeout
                   +:+ " seconds"), w2)
          | SpawnFailed e =>
              (Ok ("ERROR: " +:+ "Error executing PowerShell command: " +:+ e), w2)
          end
      end
  end.

Definition cmd_text (cmd : pyval) : string := fmt py_str cmd.

(** The [try] body of the command loop, for one command: the exception it
    ends with, if any, and the blocks it appended. *)
Definition shell_step (working_directory : string) (cmd : string)
    (w : world Ext) : result unit * list string * world Ext :=
  match py_print console ("Executing: " +:+ cmd) with
  | Raise e => (Raise e, [], w)
  | Ok _ =>
      (* Execution *)
      match execute working_directory cmd 300 w with
      | (Raise e, w') => (Raise e, [], w')
      | (Ok result, w') =>
          (* Print command result to console *)
          (py_print console (result_line result), [command_block cmd result], w')
      end
  end.

(** The command loop of [execute_shell_actions]: an exception of the [try]
    body is reported by the handler, and an exception of the handler
    leaves the function. *)
Fixpoint shell_loop (working_directory : string) (cmds : list pyval)
    (w : world Ext) (all_results : list string)
  : result (list string) * world Ext :=
  match cmds with
  | [] => (Ok all_results, w)
  | cmd :: rest =>
      match shell_step working_directory (cmd_text cmd) w with
      | (Ok _, blocks, w') =>
          shell_loop working_directory rest w' (all_results ++ blocks)
      | (Raise e, blocks, w') =>
          match py_print console ("Error: " +:+ error_msg (cmd_text cmd) e) with
          | Raise e' => (Raise e', w')
          | Ok _ =>
              shell_loop working_directory rest w'
                (all_results ++ blocks ++ [error_block (cmd_text cmd) e])
          end
      end
  end.

(** The block of [execute_shell_actions] that follows the directory check:
    when the check failed and the project directory is missing, the
    directory is made again, and a failure to make it is only logged. *)
Definition after_directory_check (app : autocodeforge) (check_dir : string)
    (w : world Ext) : world Ext :=
  if startswith check_dir "ERROR:"
     && negb (os_path_exists (project_path app) (w_disk w))
  then set_disk w (os_makedirs (project_path app) (w_disk w)).2
  else w.

(** [AutoCodeforge.execute_shell_actions] *)
Definition execute_shell_actions (app : autocodeforge) (shell_actions : pyval)
    (w : world Ext) : result string * world Ext :=
  (* First verify we're in the right directory *)
  match execute (project_path app) check_cmd 300 w with
  | (Raise e, w1) => (Raise e, w1)
  | (Ok check_dir, w1) =>
      let w2 := after_directory_check app check_dir w1 in
      (* Execute each command *)
      match py_iter shell_actions with
      | Raise e => (Raise e, w2)
      | Ok cmds =>
          match shell_loop (project_path app) cmds w2 [] with
          | (Raise e, w3) => (Raise e, w3)
          | (Ok all_results, w3) => (Ok (join nl all_results), w3)
          end
      end
  end.


(** One round of the loop of [run_cycle], up to the analysis: the parsed
    actions, the transcript and its analysis. *)
Definition run_iteration (app : autocodeforge) (topic : string) (i : Z)
    (current_result : option string) (w : world Ext)
  : result (pyval * string * analysis) * world Ext :=
  (* 1. Generate code with API *)
  match generate_code topic i current_result w with
  | (Raise e, w1) => (Raise e, w1)
  | (Ok reply, w1) =>
      (* 2. Parse structured output *)
      match parse_response recursion_limit reply with
      | Raise e => (Raise e, w1)
      | Ok actions =>
          (* 3. Execute file modifications *)
          match actions_get actions "file_actions" with
          | Raise e => (Raise e, w1)
          | Ok file_actions =>
              match execute_file_actions console py_str (file_manager_path app)
                      file_actions (w_disk w1) with
              | (Raise e, disk) => (Raise e, set_disk w1 disk)
              | (Ok _, disk) =>
                  (* 4. Execute shell commands *)
                  match actions_get actions "shell_actions" with
                  | Raise e => (Raise e, set_disk w1 disk)
                  | Ok shell_actions =>
                      match execute_shell_actions app shell_actions
                              (set_disk w1 disk) with
                      | (Raise e, w2) => (Raise e, w2)
                      | (Ok result, w2) =>
                          (* 5. Analyze results *)
                          (Ok (actions, result, analyze result), w2)
                      end
                  end
              end
          end
      end
  end.

(** The three lines printed after the analysis of round [i]. *)
Definition report_iteration (i : Z) (a : analysis) : result unit :=
  _ ← py_print console (nl +:+ "Iteration " +:+ pretty (i + 1) +:+ " completed.");
  _ ← py_print console
        ("Status: " +:+ (if success a then "Success" else "Failed"));
  py_print console ("Result summary: " +:+ reason a).

(** The [for] loop of [run_cycle], with [remaining] rounds to go. *)
Fixpoint cycle_loop (app : autocodeforge) (topic : string) (remaining : nat)
    (i : Z) (current_result : option string) (w : world Ext)
    (history : list iteration_record)
  : list iteration_record * stop * world Ext :=
  match remaining with
  | O => (history, ExhaustedIterations, w)
  | S remaining' =>
      match run_iteration app topic i current_result w with
      | (Raise e, w') => (history, Aborted e, w')
      | (Ok (actions, result, a), w') =>
          let history' := history ++ [IterationRecord i actions result a] in
          match report_iteration i a with
          | Raise e => (history', Aborted e, w')
          | Ok _ =>
              (* Check if we should terminate early *)
              if terminate a then
                match py_print console
                        (nl +:+ "Early termination: " +:+ reason a) with
                | Raise e => (history', Aborted e, w')
                | Ok _ => (history', Terminated, w')
                end
              else
                cycle_loop app topic remaining' (i + 1) (Some result) w' history'
          end
      end
  end.

(** The two lines printed after the loop; [rounds] is [i+1]. *)
Definition report_cycle (app : autocodeforge) (rounds : Z) : result unit :=
  _ ← py_print console
        (nl +:+ "AutoCodeforge cycle completed after " +:+ pretty rounds
         +:+ " iterations.");
  py_print console ("Project is available at: " +:+ project_path app).

(** [AutoCodeforge.run_cycle].  The report after the loop reads the loop
    variable, which is unbound when the loop had no round. *)
Definition run_cycle (app : autocodeforge) (topic : string) (iterations : Z)
    (w : world Ext) : list iteration_record * stop * world Ext :=
  let '(history, how, w') :=
    cycle_loop app topic (Z.to_nat iterations) 0 None w [] in
  match how with
  | Aborted e => (history, Aborted e, w')
  | _ =>
      if iterations <=? 0 then
        (history, Aborted (Exn NameError "name 'i' is not defined"), w')
      else
        match report_cycle app (Z.of_nat (length history)) with
        | Raise e => (history, Aborted e, w')
        | Ok _ => (history, how, w')
        end
  end.

(** In the words of the specification: the rounds of a run, one after the
    other from round [i], each given the transcript of the round before it
    and starting in the world that round left. *)
Inductive rounds (app : autocodeforge) (topic : string)
  : Z -> option string -> world Ext -> list iteration_record -> world Ext -> Prop :=
  | rounds_nil i current_result w : rounds app topic i current_result w [] w
  | rounds_cons i current_result w actions result w1 rest w2 :
      run_iteration app topic i current_result w
        = (Ok (actions, result, analyze result), w1) ->
      rounds app topic (i + 1) (Some result) w1 rest w2 ->
      rounds app topic i current_result w
        (IterationRecord i actions result (analyze result) :: rest) w2.

End Engine.

(* ===================================================================== *)
(** * 9b. The shell executor and the configuration *)
(* ===================================================================== *)

(** [c.isalnum()] for a unit below 128 *)
Definition is_alnum (c : ascii) : bool :=
  let n := nat_of_ascii c in
  ((48 <=? n) && (n <=? 57) || (65 <=? n) && (n <=? 90)
   || (97 <=? n) && (n <=? 122))%nat.

Fixpoint str_filter (keep : ascii -> bool) (s : string) : string :=
  match s with
  | EmptyString => EmptyString
  | String c s' =>
      if keep c then String c (str_filter keep s') else str_filter keep s'
  end.

(** [s.replace(a, b)] for one-character [a] and [b] *)
Fixpoint replace_char (a b : ascii) (s : string) : string :=
  match s with
  | EmptyString => EmptyString
  | String c s' => String (if ascii_eqb c a then b else c) (replace_char a b s')
  end.

Definition name_char (c : ascii) : bool :=
  is_alnum c || ascii_eqb c "_"%char || ascii_eqb c "-"%char.

(** [FileManager._sanitize_project_name] and [config.sanitize_project_name]
    (the two have the same body), for names made of units below 128; which
    other characters [isalnum] keeps is a matter of the Unicode tables. *)
Definition sanitize_project_name (project_name : string) : string :=
  (* Replace spaces with underscores and remove invalid characters *)
  let safe_name := str_lower (strip project_name) in
  let safe_name := replace_char " "%char "_"%char safe_name in
  (* Keep only alphanumeric characters, underscore, and hyphen *)
  let safe_name := str_filter name_char safe_name in
  (* Ensure the name isn't empty *)
  let safe_name :=
    if str_eqb safe_name EmptyString then "project" else safe_name in
  (* Limit length *)
  if 50 <? Z.of_nat (str_length safe_name) then py_slice safe_name 0 50
  else safe_name.

(** [config.get_project_path]; [base_path] and [project_subdirs] are the
    two entries of [config["file_manager"]] it reads. *)
Definition get_project_path (base_path : string) (project_subdirs : bool)
    (project_name : string) (disk : fs) : result string * fs :=
  let project_path :=
    if project_subdirs then path_join base_path (sanitize_project_name project_name)
    else base_path in
  (* Ensure the directory exists *)
  match os_makedirs project_path disk with
  | (Raise e, disk') => (Raise e, disk')
  | (Ok _, disk') => (Ok project_path, disk')
  end.

(** [key in d], with the value *)
Fixpoint dict_lookup (k : string) (d : list (string * pyval)) : option pyval :=
  match d with
  | [] => None
  | (k', v) :: d' => if str_eqb k k' then Some v else dict_lookup k d'
  end.

(** [config.deep_update].  The function updates [target] in place and
    returns it; the model gives the content of the returned dictionary.
    [source] is the dictionary [PDict items]. *)
Fixpoint deep_update (target : list (string * pyval)) (source : pyval)
  {struct source} : list (string * pyval) :=
  match source with
  | PDict items =>
      (fix update (target : list (string * pyval))
           (items : list (string * pyval)) : list (string * pyval) :=
         match items with
         | [] => target
         | (key, value) :: rest =>
             match dict_lookup key target, value with
             | Some (PDict nested), PDict _ =>
                 update (dict_set key (PDict (deep_update nested value)) target) rest
             | _, _ => update (dict_set key value target) rest
             end
         end) target items
  | _ => target
  end.

(** [MockAPIClient.send_message]: the reply is a dictionary whose
    ["content"] is one text block. *)
Definition mock_text (prompt : string) (system_prompt : option string) : string :=
  let mock_text :=
    if contains "hello" (str_lower prompt) then "Hello! I'm a mock AI response."
    else "I received your prompt: " +:+ take_chars 50 prompt +:+ "..." in
  match system_prompt with
  | Some sp =>
      if negb (str_eqb sp EmptyString) then
        mock_text +:+ " (Following system instructions: "
        +:+ take_chars 20 sp +:+ "...)"
      else mock_text
  | None => mock_text
  end.

Definition mock_send_message (prompt : string) (system_prompt : option string)
  : response :=
  Message [TextBlock (PStr (mock_text prompt system_prompt))].

(** No character of [excluded] occurs in [g]. *)
Definition free_of (excluded : list ascii) (g : string) : Prop :=
  forall c, In c excluded -> find_char c g = None.

(** A name of a directory entry: not empty, without a separator, and
    neither [.] nor [..]. *)
Definition plain_name (s : string) : Prop :=
  s <> EmptyString /\ find_char sep s = None /\ s <> "." /\ s <> "..".

Fixpoint str_forall (p : ascii -> bool) (s : string) : bool :=
  match s with
  | EmptyString => true
  | String c s' => p c && str_forall p s'
  end.

(** The characters a sanitized project name is made of: a digit, a small
    letter, the underscore or the hyphen. *)
Definition safe_char (c : ascii) : bool :=
  let n := nat_of_ascii c in
  ((48 <=? n) && (n <=? 57) || (97 <=? n) && (n <=? 122)
   || (n =? 95) || (n =? 45))%nat.

(** The first characters of the texts that [build_prompt] and
    [build_system_prompt] return. *)
Definition prompt_head : string :=
  nl +:+ "        I need you to help me with the following task: ".

Definition system_prompt_head : string :=
  nl +:+ "        You are AutoCodeforge, an AI system that helps generate and optimize code.".

(** [AutoCodeforge.generate_code] with the mock client.  What
    [build_prompt] puts after the head (the topic, the files of the project
    and their content, the previous transcript, the instructions) is
    [prompt_tail]; reading the files may raise.  [system_tail] is the rest
    of the system prompt. *)
Definition mock_generate_code {Ext : Type}
    (prompt_tail : string -> Z -> option string -> world Ext -> result string)
    (system_tail : Z -> string)
    (topic : string) (i : Z) (current_result : option string) (w : world Ext)
  : result response * world Ext :=
  match prompt_tail topic i current_result w with
  | Raise e => (Raise e, w)
  | Ok rest =>
      let prompt := prompt_head +:+ rest in
      let system_prompt := system_prompt_head +:+ system_tail i in
      (Ok (mock_send_message prompt (Some system_prompt)), w)
  end.

(** One entry of the list [execute_multiple] returns. *)
Record command_result := CommandResult {
  cr_command : string;
  cr_output : string;
  cr_success : bool
}.

Section ShellExecutor.
Context {Ext : Type}.
Context (spawn : string -> string -> Z -> world Ext -> proc_outcome * world Ext).
Context (getcwd : world Ext -> result string).

(** [PowerShellExecutor.execute_multiple] *)
Fixpoint execute_multiple (working_directory : string) (commands : list string)
    (stop_on_error : bool) (w : world Ext) (results : list command_result)
  : result (list command_result) * world Ext :=
  match commands with
  | [] => (Ok results, w)
  | cmd :: rest =>
      match execute spawn getcwd working_directory cmd 300 w with
      | (Raise e, w') => (Raise e, w')
      | (Ok output, w') =>
          let results' :=
            results ++ [CommandResult cmd output
                          (negb (startswith output "ERROR:"))] in
          if stop_on_error && startswith output "ERROR:" then (Ok results', w')
          else execute_multiple working_directory rest stop_on_error w' results'
      end
  end.

End ShellExecutor.

(* ===================================================================== *)
(** * An example environment *)
(* ===================================================================== *)

(** A project in [/work/app], on a disk that holds the project directory
    and nothing else. *)
Definition example_app : autocodeforge := AutoCodeforge "/work/app" "/work/app".

Definition example_disk : fs := {[ ["work"] := Dir; ["work"; "app"] := Dir ]}.

Definition example_world : world unit := World example_disk tt.

(** A command that removes the directory above the project and leaves a
    file in its place. *)
Definition wipe_cmd : string :=
  "Remove-Item -Recurse -Force /work; New-Item -ItemType File /work".

(** Processes of the example: the directory check prints the working
    directory, [wipe_cmd] does what it says, and every other command prints
    one line. *)
Definition example_spawn (working_directory command : string) (timeout : Z)
    (w : world unit) : proc_outcome * world unit :=
  if str_eqb command check_cmd then
    (Exited 0 (working_directory +:+ nl) EmptyString, w)
  else if str_eqb command wipe_cmd then
    (Exited 0 EmptyString EmptyString,
     World {[ ["work"] := File EmptyString ]} tt)
  else (Exited 0 ("ran " +:+ command +:+ nl) EmptyString, w).

(** Processes of a second example: [make test] exits with code 2, every
    other command goes as in the first example. *)
Definition failing_spawn (working_directory command : string) (timeout : Z)
    (w : world unit) : proc_outcome * world unit :=
  if str_eqb command "make test" then
    (Exited 2 EmptyString "make: *** No rule to make target 'test'.  Stop.", w)
  else example_spawn working_directory command timeout w.

(** A generator that answers every prompt with the example payload after a
    line of prose. *)
Definition example_generate_code (topic : string) (i : Z)
    (current_result : option string) (w : world unit)
  : result response * world unit :=
  (Ok (Message [TextBlock (PStr ("Here is the plan." +:+ nl
                                 +:+ payload_example))]), w).

Definition example_py_str (v : pyval) : string := "<object>".

(** The current directory of the example is the root. *)
Definition example_getcwd (w : world unit) : result string := Ok "/".

(** A lone surrogate, as the escape [\uD800] of a JSON string gives it. *)
Definition lone_surrogate : string := utf8 55296.

(** A standard output that encodes to UTF-8. *)
Definition utf8_console : string -> option string := utf8_encode_error.

(** A generator whose first reply is the example payload and whose later
    calls fail, as a client does when the service stops answering. *)
Definition flaky_generate_code (topic : string) (i : Z)
    (current_result : option string) (w : world unit)
  : result response * world unit :=
  if i =? 0 then example_generate_code topic i current_result w
  else (Raise (Exn GeneratorError "Connection error."), w).

(* ===================================================================== *)
(** * 10. Facts about strings *)
(* ===================================================================== *)

Lemma ascii_eqb_eq (a b : ascii) : ascii_eqb a b = true <-> a = b.
Proof. unfold ascii_eqb. apply bool_decide_eq_true. Qed.

Lemma ascii_eqb_refl (a : ascii) : ascii_eqb a a = true.
Proof. by apply ascii_eqb_eq. Qed.

Lemma ascii_eqb_neq (a b : ascii) : ascii_eqb a b = false <-> a <> b.
Proof. unfold ascii_eqb. apply bool_decide_eq_false. Qed.

Lemma str_eqb_eq (a b : string) : str_eqb a b = true <-> a = b.
Proof. unfold str_eqb. apply bool_decide_eq_true. Qed.

Lemma str_eqb_neq (a b : string) : str_eqb a b = false <-> a <> b.
Proof. unfold str_eqb. apply bool_decide_eq_false. Qed.

Lemma str_app_cons (x : ascii) (a b : string) :
  String x a +:+ b = String x (a +:+ b).
Proof. reflexivity. Qed.

Lemma str_app_nil_l (b : string) : EmptyString +:+ b = b.
Proof. reflexivity. Qed.

Ltac str_simpl := rewrite ?str_app_cons, ?str_app_nil_l; simpl.

Lemma str_app_assoc (a b c : string) : (a +:+ b) +:+ c = a +:+ (b +:+ c).
Proof. induction a as [|x a IH]; str_simpl; congruence. Qed.

Lemma str_app_nil_r (a : string) : a +:+ EmptyString = a.
Proof. induction a as [|x a IH]; str_simpl; congruence. Qed.

Lemma str_length_app (a b : string) :
  str_length (a +:+ b) = (str_length a + str_length b)%nat.
Proof. induction a as [|x a IH]; str_simpl; congruence. Qed.

Lemma str_drop_app (pre s : string) : str_drop (str_length pre) (pre +:+ s) = s.
Proof. induction pre as [|x pre IH]; str_simpl; [by destruct s | done]. Qed.

Lemma str_take_app (mid post : string) :
  str_take (str_length mid) (mid +:+ post) = mid.
Proof.
  induction mid as [|x mid IH]; str_simpl; [by destruct post | congruence].
Qed.

Lemma startswith_app (p t : string) : startswith (p +:+ t) p = true.
Proof.
  induction p as [|x p IH]; str_simpl; [done |].
  by rewrite ascii_eqb_refl, IH.
Qed.

Lemma startswith_inv (s p : string) :
  startswith s p = true -> exists t, s = p +:+ t.
Proof.
  revert s. induction p as [|x p IH]; intros s H; simpl in *.
  - by exists s.
  - destruct s as [|y s]; [done |].
    apply andb_true_iff in H as [Hxy Hp]. apply ascii_eqb_eq in Hxy as ->.
    destruct (IH _ Hp) as [t ->]. by exists t.
Qed.

Lemma startswith_prefix (s a b : string) :
  startswith s (a +:+ b) = true -> startswith s a = true.
Proof.
  intros H. destruct (startswith_inv _ _ H) as [t ->].
  rewrite str_app_assoc. apply startswith_app.
Qed.

Lemma contains_here (needle hay : string) :
  startswith hay needle = true -> contains needle hay = true.
Proof. intros H. destruct hay; simpl in *; by rewrite H. Qed.

Lemma contains_intro (pre needle post : string) :
  contains needle (pre +:+ needle +:+ post) = true.
Proof.
  induction pre as [|x pre IH]; str_simpl.
  - apply contains_here, startswith_app.
  - rewrite IH. apply orb_true_r.
Qed.

Lemma contains_inv (needle hay : string) :
  contains needle hay = true ->
  exists pre post, hay = pre +:+ needle +:+ post.
Proof.
  induction hay as [|x hay IH]; simpl; intros H.
  - rewrite orb_false_r in H. destruct (startswith_inv _ _ H) as [t Ht].
    by exists EmptyString, t.
  - apply orb_true_iff in H as [H | H].
    + destruct (startswith_inv _ _ H) as [t Ht]. by exists EmptyString, t.
    + destruct (IH H) as (pre & post & ->). by exists (String x pre), post.
Qed.

Lemma contains_prefix (a b hay : string) :
  contains (a +:+ b) hay = true -> contains a hay = true.
Proof.
  intros H. destruct (contains_inv _ _ H) as (pre & post & ->).
  rewrite str_app_assoc. apply contains_intro.
Qed.

Lemma contains_nonempty (needle hay : string) :
  needle <> EmptyString -> contains needle hay = true -> hay <> EmptyString.
Proof. intros Hn H ->. simpl in H. by destruct needle. Qed.

Lemma find_char_app_first (c : ascii) (pre s : string) :
  find_char c pre = None ->
  find_char c (pre +:+ String c s) = Some (str_length pre).
Proof.
  induction pre as [|x pre IH]; str_simpl; intros H.
  - by rewrite ascii_eqb_refl.
  - destruct (ascii_eqb x c); [done |].
    destruct (find_char c pre); [done |]. by rewrite IH.
Qed.

Lemma rfind_char_app_none (c : ascii) (a b : string) :
  rfind_char c b = None -> rfind_char c (a +:+ b) = rfind_char c a.
Proof.
  intros Hb. induction a as [|x a IH]; str_simpl; [done | by rewrite IH].
Qed.

Lemma rfind_char_app_last (c : ascii) (pre post : string) :
  rfind_char c post = None ->
  rfind_char c (pre +:+ String c post) = Some (str_length pre).
Proof.
  intros H. induction pre as [|x pre IH]; str_simpl.
  - by rewrite H, ascii_eqb_refl.
  - by rewrite IH.
Qed.

Lemma py_slice_middle (pre mid post : string) :
  py_slice (pre +:+ mid +:+ post)
    (Z.of_nat (str_length pre))
    (Z.of_nat (str_length pre) + Z.of_nat (str_length mid)) = mid.
Proof.
  unfold py_slice.
  replace (Z.of_nat (str_length pre) + Z.of_nat (str_length mid)
           - Z.of_nat (str_length pre)) with (Z.of_nat (str_length mid)) by lia.
  rewrite !Nat2Z.id, str_drop_app. apply str_take_app.
Qed.

(* ===================================================================== *)
(** * 11. The JSON decoder consumes its input *)
(* ===================================================================== *)

(** The loops of the decoder are written with fuel.  Every scanner returns
    less text than it was given, so a loop started with more fuel than its
    text has characters gives the same result for any such amount of fuel:
    the fuel that [scan_once] hands out is never used up. *)

Lemma skip_ws_length (s : string) : (str_length (skip_ws s) <= str_length s)%nat.
Proof.
  induction s as [|c s IH]; simpl; [lia |].
  destruct (is_ws c); simpl; lia.
Qed.

Lemma str_drop_length (n : nat) (s : string) :
  str_length (str_drop n s) = (str_length s - n)%nat.
Proof.
  revert s. induction n as [|n IH]; intros s; simpl; [lia |].
  destruct s as [|c s]; simpl; [done | apply IH].
Qed.

Lemma scan_items_length (s : string) (items : list str_item) (rest : string) :
  scan_items s = Ok (items, rest) -> (str_length rest < str_length s)%nat.
Proof.
  remember (str_length s) as n eqn:Hn. revert s Hn items rest.
  induction n as [n IH] using lt_wf_ind. intros s Hn items rest H.
  destruct s as [|c r]; [done |]. simpl in Hn.
  cbn [scan_items] in H.
  destruct (ascii_eqb c dquote).
  { injection H as _ <-. simpl. lia. }
  destruct (ascii_eqb c "\"%char).
  - destruct r as [|e r']; [done |].
    assert (Hsimple : forall its rst,
      match simple_escape e with
      | Some x => '(items, rest) ← scan_items r'; Ok (Unit x :: items, rest)
      | None => Raise (decode_error "Invalid \escape")
      end = Ok (its, rst) -> (str_length rst < n)%nat).
    { intros its rst Hs. destruct (simple_escape e); [| done].
      destruct (scan_items r') as [[its' rst'] | ?] eqn:Hr; [| done].
      injection Hs as _ <-.
      pose proof (IH (str_length r') ltac:(simpl in Hn; lia) r' eq_refl _ _ Hr).
      simpl in Hn. lia. }
    destruct (ascii_dec e "u") as [-> | Hne].
    + destruct r' as [|h1 [|h2 [|h3 [|h4 r'']]]]; try (by eapply Hsimple).
      destruct (hex4 h1 h2 h3 h4); [| done].
      destruct (scan_items r'') as [[its' rst'] | ?] eqn:Hr; [| done].
      injection H as _ <-.
      pose proof (IH (str_length r'') ltac:(simpl in Hn; lia) r'' eq_refl _ _ Hr).
      simpl in Hn. lia.
    + assert (H' : match simple_escape e with
        | Some x => '(items, rest) ← scan_items r'; Ok (Unit x :: items, rest)
        | None => Raise (decode_error "Invalid \escape")
        end = Ok (items, rest)).
      { destruct e as [[] [] [] [] [] [] [] []]; try done. }
      by eapply Hsimple.
  - destruct (N_of_ascii c <? 32)%N; [done |].
    destruct (scan_items r) as [[its' rst'] | ?] eqn:Hr; [| done].
    injection H as _ <-.
    pose proof (IH (str_length r) ltac:(lia) r eq_refl _ _ Hr). lia.
Qed.

Lemma span_digits_length (s ds rest : string) :
  span_digits s = (ds, rest) -> (str_length rest <= str_length s)%nat.
Proof.
  revert ds rest. induction s as [|c s IH]; intros ds rest H; simpl in H.
  - injection H as _ <-. done.
  - destruct (is_digit c).
    + destruct (span_digits s) as [ds' rest'] eqn:E. injection H as _ <-.
      specialize (IH _ _ eq_refl). simpl. lia.
    + injection H as _ <-. done.
Qed.

Lemma number_sign_length (s : string) :
  (str_length (number_sign s).2 <= str_length s)%nat.
Proof.
  unfold number_sign. destruct s as [|c r]; [done |].
  destruct (ascii_dec c "-") as [-> | Hne]; [simpl; lia |].
  destruct c as [[] [] [] [] [] [] [] []]; simpl; lia.
Qed.

Lemma number_int_length (s ip rest : string) :
  number_int s = Some (ip, rest) -> (str_length rest < str_length s)%nat.
Proof.
  unfold number_int. destruct s as [|c r]; [done |].
  destruct (ascii_eqb c "0"); [intros [= _ <-]; simpl; lia |].
  destruct (is_digit c); [| done].
  destruct (span_digits r) as [ds r'] eqn:E. intros [= _ <-].
  apply span_digits_length in E. simpl. lia.
Qed.

Lemma number_frac_length (s : string) :
  (str_length (number_frac s).2 <= str_length s)%nat.
Proof.
  unfold number_frac. destruct s as [|c r]; [done |].
  destruct (ascii_dec c ".") as [-> | Hne].
  - destruct (span_digits r) as [fs r'] eqn:E. apply span_digits_length in E.
    destruct (str_eqb fs EmptyString); simpl; lia.
  - destruct c as [[] [] [] [] [] [] [] []]; simpl; try lia. by destruct Hne.
Qed.

Lemma number_exp_length (s : string) :
  (str_length (number_exp s).2 <= str_length s)%nat.
Proof.
  unfold number_exp. destruct s as [|c r]; [done |].
  destruct (ascii_eqb c "e" || ascii_eqb c "E"); [| done].
  assert (Hsign : forall p : Z * string,
    p = match r with
        | String "-"%char r1 => (-1, r1)
        | String "+"%char r1 => (1, r1)
        | _ => (1, r)
        end -> (str_length p.2 <= str_length r)%nat).
  { intros p ->. destruct r as [|c' r1]; [done |].
    destruct c' as [[] [] [] [] [] [] [] []]; simpl; lia. }
  specialize (Hsign _ eq_refl).
  destruct (match r with
            | String "-"%char r1 => (-1, r1)
            | String "+"%char r1 => (1, r1)
            | _ => (1, r)
            end) as [esgn r1]. cbn [snd] in Hsign.
  destruct (span_digits r1) as [es r2] eqn:E. apply span_digits_length in E.
  destruct (str_eqb es EmptyString); simpl; lia.
Qed.

Lemma match_number_length (s : string) (v : pyval) (rest : string) :
  match_number s = Some (v, rest) -> (str_length rest < str_length s)%nat.
Proof.
  unfold match_number.
  pose proof (number_sign_length s) as Hsign.
  destruct (number_sign s) as [sgn s1]. cbn [snd] in Hsign.
  destruct (number_int s1) as [[ip s2]|] eqn:Hint; [| done].
  apply number_int_length in Hint.
  pose proof (number_frac_length s2) as Hfrac.
  destruct (number_frac s2) as [frac s3]. cbn [snd] in Hfrac.
  pose proof (number_exp_length s3) as Hexp.
  destruct (number_exp s3) as [ex s4]. cbn [snd] in Hexp.
  destruct frac, ex; intros [= _ <-]; lia.
Qed.

Lemma array_items_fuel (scan : string -> result (pyval * string)) :
  consumes scan ->
  forall fuel1 fuel2 s acc,
    (str_length s < fuel1)%nat -> (str_length s < fuel2)%nat ->
    array_items scan fuel1 s acc = array_items scan fuel2 s acc.
Proof.
  intros Hscan fuel1. induction fuel1 as [|fuel1 IH]; intros fuel2 s acc H1 H2;
    [lia |].
  destruct fuel2 as [|fuel2]; [lia |]. cbn [array_items].
  destruct (scan s) as [[v s1] | e] eqn:Hs; [| done].
  apply Hscan in Hs. cbn [mbind result_bind].
  pose proof (skip_ws_length s1) as Hw.
  destruct (skip_ws s1) as [|c s2]; [done |]. simpl in Hw.
  destruct (ascii_eqb c "]"); [done |].
  destruct (ascii_eqb c ","); [| done].
  pose proof (skip_ws_length s2). apply IH; lia.
Qed.

Lemma array_items_length (scan : string -> result (pyval * string)) :
  consumes scan ->
  forall fuel s acc v rest,
    array_items scan fuel s acc = Ok (v, rest) ->
    (str_length rest < str_length s)%nat.
Proof.
  intros Hscan fuel. induction fuel as [|fuel IH]; intros s acc v rest H; [done |].
  cbn [array_items] in H.
  destruct (scan s) as [[v1 s1] | e] eqn:Hs; [| done].
  apply Hscan in Hs. cbn [mbind result_bind] in H.
  pose proof (skip_ws_length s1) as Hw.
  destruct (skip_ws s1) as [|c s2]; [done |]. simpl in Hw.
  destruct (ascii_eqb c "]"); [injection H as _ <-; lia |].
  destruct (ascii_eqb c ","); [| done].
  apply IH in H. pose proof (skip_ws_length s2). lia.
Qed.

Lemma scanstring_length (s text rest : string) :
  scanstring s = Ok (text, rest) -> (str_length rest < str_length s)%nat.
Proof.
  unfold scanstring. destruct (scan_items s) as [[items r] | e] eqn:E; [| done].
  intros [= _ <-]. by eapply scan_items_length.
Qed.

Lemma object_items_fuel (scan : string -> result (pyval * string)) :
  consumes scan ->
  forall fuel1 fuel2 s acc,
    (str_length s < fuel1)%nat -> (str_length s < fuel2)%nat ->
    object_items scan fuel1 s acc = object_items scan fuel2 s acc.
Proof.
  intros Hscan fuel1. induction fuel1 as [|fuel1 IH]; intros fuel2 s acc H1 H2;
    [lia |].
  destruct fuel2 as [|fuel2]; [lia |]. cbn [object_items].
  destruct (scanstring s) as [[key s1] | e] eqn:Hk; [| done].
  apply scanstring_length in Hk. cbn [mbind result_bind].
  pose proof (skip_ws_length s1) as Hw1.
  destruct (skip_ws s1) as [|c s2]; [done |]. simpl in Hw1.
  destruct (ascii_dec c ":") as [-> | Hne].
  2:{ destruct c as [[] [] [] [] [] [] [] []]; done. }
  pose proof (skip_ws_length s2) as Hw2.
  destruct (scan (skip_ws s2)) as [[v s3] | e] eqn:Hs; [| done].
  apply Hscan in Hs. cbn [mbind result_bind].
  pose proof (skip_ws_length s3) as Hw3.
  destruct (skip_ws s3) as [|c' s4]; [done |]. simpl in Hw3.
  destruct (ascii_eqb c' "}"); [done |].
  destruct (ascii_eqb c' ","); [| done].
  pose proof (skip_ws_length s4) as Hw4.
  destruct (skip_ws s4) as [|q s5]; [done |]. simpl in Hw4.
  destruct (ascii_eqb q dquote); [| done].
  apply IH; lia.
Qed.

Lemma object_items_length (scan : string -> result (pyval * string)) :
  consumes scan ->
  forall fuel s acc v rest,
    object_items scan fuel s acc = Ok (v, rest) ->
    (str_length rest < str_length s)%nat.
Proof.
  intros Hscan fuel. induction fuel as [|fuel IH]; intros s acc v rest H; [done |].
  cbn [object_items] in H.
  destruct (scanstring s) as [[key s1] | e] eqn:Hk; [| done].
  apply scanstring_length in Hk. cbn [mbind result_bind] in H.
  pose proof (skip_ws_length s1) as Hw1.
  destruct (skip_ws s1) as [|c s2]; [done |]. simpl in Hw1.
  destruct (ascii_dec c ":") as [-> | Hne].
  2:{ destruct c as [[] [] [] [] [] [] [] []]; done. }
  pose proof (skip_ws_length s2) as Hw2.
  destruct (scan (skip_ws s2)) as [[v' s3] | e] eqn:Hs; [| done].
  apply Hscan in Hs. cbn [mbind result_bind] in H.
  pose proof (skip_ws_length s3) as Hw3.
  destruct (skip_ws s3) as [|c' s4]; [done |]. simpl in Hw3.
  destruct (ascii_eqb c' "}"); [injection H as _ <-; lia |].
  destruct (ascii_eqb c' ","); [| done].
  pose proof (skip_ws_length s4) as Hw4.
  destruct (skip_ws s4) as [|q s5]; [done |]. simpl in Hw4.
  destruct (ascii_eqb q dquote); [| done].
  apply IH in H. lia.
Qed.

Lemma scan_once_consumes (depth : nat) : consumes (scan_once depth).
Proof.
  induction depth as [|depth IH]; intros s v rest H.
  all: destruct s as [|c r]; [done |]; cbn [scan_once] in H.
  all: destruct (ascii_eqb c dquote);
    [ destruct (scanstring r) as [[t r'] | e] eqn:E; [| done];
      apply scanstring_length in E; injection H as _ <-; simpl; lia |].
  all: destruct (ascii_eqb c "{").
  all: try done.
  all: try (pose proof (skip_ws_length r) as Hw;
        destruct (skip_ws r) as [|q s1]; [done |]; simpl in Hw;
        destruct (ascii_eqb q "}"); [injection H as _ <-; simpl; lia |];
        destruct (ascii_eqb q dquote); [| done];
        apply (object_items_length _ IH) in H; simpl; lia).
  all: destruct (ascii_eqb c "[").
  all: try done.
  all: try (pose proof (skip_ws_length r) as Hw;
        destruct (skip_ws r) as [|q s1]; [done |]; simpl in Hw;
        destruct (ascii_eqb q "]"); [injection H as _ <-; simpl; lia |];
        apply (array_items_length _ IH) in H; simpl in *; lia).
  all: destruct (startswith (String c r) "null");
    [injection H as _ <-;
     pose proof (str_drop_length 4 (String c r)) as Hd; cbn in Hd |- *; lia |].
  all: destruct (startswith (String c r) "true");
    [injection H as _ <-;
     pose proof (str_drop_length 4 (String c r)) as Hd; cbn in Hd |- *; lia |].
  all: destruct (startswith (String c r) "false");
    [injection H as _ <-;
     pose proof (str_drop_length 5 (String c r)) as Hd; cbn in Hd |- *; lia |].
  all: destruct (match_number (String c r)) as [[v' r']|] eqn:E;
    [apply match_number_length in E; injection H as _ <-; simpl in *; lia |].
  all: destruct (startswith (String c r) "NaN");
    [injection H as _ <-;
     pose proof (str_drop_length 3 (String c r)) as Hd; cbn in Hd |- *; lia |].
  all: destruct (startswith (String c r) "Infinity");
    [injection H as _ <-;
     pose proof (str_drop_length 8 (String c r)) as Hd; cbn in Hd |- *; lia |].
  all: destruct (startswith (String c r) "-Infinity");
    [injection H as _ <-;
     pose proof (str_drop_length 9 (String c r)) as Hd; cbn in Hd |- *; lia |].
  all: done.
Qed.

Lemma scan_once_loops_fuel (depth : nat) (s s1 : string) (fuel : nat) :
  (str_length s1 < S (str_length s))%nat -> (str_length s1 < fuel)%nat ->
  array_items (scan_once depth) fuel s1 []
    = array_items (scan_once depth) (S (str_length s)) s1 []
  /\ object_items (scan_once depth) fuel s1 []
    = object_items (scan_once depth) (S (str_length s)) s1 [].
Proof.
  intros H1 H2. split.
  - by apply array_items_fuel; [apply scan_once_consumes | |].
  - by apply object_items_fuel; [apply scan_once_consumes | |].
Qed.

(* ===================================================================== *)
(** * 12. The classifier *)
(* ===================================================================== *)

Lemma search_any_false (patterns : list string) (t : string) :
  search_any patterns t = false <->
  forall marker, marker ∈ patterns -> contains marker t = false.
Proof.
  induction patterns as [|p ps IH]; simpl.
  - split; [intros _ m Hm; by apply elem_of_nil in Hm | done].
  - destruct (contains p t) eqn:Hp.
    + split; [done |]. intros H. rewrite <- Hp. apply H. left.
    + rewrite IH. split.
      * intros H m Hm. apply elem_of_cons in Hm as [-> | Hm]; auto.
      * intros H m Hm. apply H. by right.
Qed.

Lemma search_any_true (patterns : list string) (marker t : string) :
  marker ∈ patterns -> contains marker t = true -> search_any patterns t = true.
Proof.
  intros Hin Hc. destruct (search_any patterns t) eqn:E; [done |].
  rewrite search_any_false in E. by rewrite (E _ Hin) in Hc.
Qed.

Lemma nonempty_length_pos {A} (l : list A) :
  (0 <? Z.of_nat (length l)) = true <-> l <> [].
Proof.
  destruct l as [|x l]; split; try done.
Qed.

Lemma analyze_nonempty (t : string) :
  t <> EmptyString ->
  analyze t =
    let has_error := _check_for_errors t in
    let success_patterns := _identify_success_patterns t in
    let success := negb has_error && (0 <? Z.of_nat (length success_patterns)) in
    let terminate := _should_terminate t success in
    Analysis success (Some has_error) (Some success_patterns) terminate
      (_determine_reason t success terminate) (Some (_summarize_result t)).
Proof.
  intros H. unfold analyze. apply str_eqb_neq in H. by rewrite H.
Qed.

Lemma success_patterns_nonempty (t : string) :
  _identify_success_patterns t <> [] <-> success_pattern_found t = true.
Proof.
  unfold _identify_success_patterns, success_pattern_found.
  destruct (contains "successfully" (str_lower t));
    destruct (isearch_alt ["All tests passed"; "Tests passed"; "Test successful"] t);
    destruct (isearch_alt ["Build successful"; "Built successfully"] t);
    destruct (isearch_alt ["Server started"; "Running on"; "Listening on"] t);
    cbn; split; intros H; done.
Qed.

(** C3.  The verdict [success] of the classifier is true exactly when no
    marker of the error table occurs in the transcript and at least one
    success pattern is found.  In particular a transcript that contains
    "Traceback (most recent call last)" is classified with [has_error] true
    and [success] false, whatever else it contains (for instance
    "All tests passed"). *)
Theorem success_iff_no_error_and_some_pattern (transcript : string) :
  (success (analyze transcript) = true <->
     (forall marker, marker ∈ error_patterns ->
        contains marker transcript = false)
     /\ success_pattern_found transcript = true)
  /\ (contains "Traceback (most recent call last)" transcript = true ->
        has_error (analyze transcript) = Some true
        /\ success (analyze transcript) = false).
Proof.
  split.
  - rewrite <- success_patterns_nonempty.
    destruct (decide (transcript = EmptyString)) as [-> | Hne].
    + split; [done |]. intros [_ H]. by contradict H.
    + rewrite (analyze_nonempty _ Hne). cbn [success].
      rewrite andb_true_iff, negb_true_iff, nonempty_length_pos.
      unfold _check_for_errors. by rewrite search_any_false.
  - intros Htb.
    assert (Hne : transcript <> EmptyString)
      by (eapply contains_nonempty; [| exact Htb]; done).
    assert (Herr : _check_for_errors transcript = true).
    { unfold _check_for_errors. eapply search_any_true; [| exact Htb].
      unfold error_patterns. set_solver. }
    rewrite (analyze_nonempty _ Hne). cbn [has_error success].
    by rewrite Herr.
Qed.

Lemma success_iff_no_error_and_some_pattern_witness :
  let t := "Traceback (most recent call last)" +:+ nl +:+ "All tests passed" in
  contains "Traceback (most recent call last)" t = true
  /\ contains "All tests passed" t = true
  /\ has_error (analyze t) = Some true
  /\ success (analyze t) = false.
Proof.
  intros t. split; [reflexivity |]. split; [reflexivity |].
  apply (proj2 (success_iff_no_error_and_some_pattern t)). reflexivity.
Defined.

(** C4.  A transcript that contains "CRITICAL ERROR" is classified with
    [terminate] true and the reason "Critical error occurred", whichever
    success or termination phrases it contains besides. *)
Theorem critical_error_terminates (transcript : string) :
  contains "CRITICAL ERROR" transcript = true ->
  terminate (analyze transcript) = true
  /\ reason (analyze transcript) = "Critical error occurred".
Proof.
  intros Hc.
  assert (Hne : transcript <> EmptyString)
    by (eapply contains_nonempty; [| exact Hc]; done).
  rewrite (analyze_nonempty _ Hne). cbn [terminate reason].
  unfold _should_terminate, _determine_reason. by rewrite Hc.
Qed.

Lemma critical_error_terminates_witness :
  let t := "CRITICAL ERROR: disk full" +:+ nl +:+ "All tests passed" +:+ nl
           +:+ "Goal achieved" in
  contains "CRITICAL ERROR" t = true
  /\ terminate (analyze t) = true
  /\ reason (analyze t) = "Critical error occurred".
Proof.
  intros t. split; [reflexivity |].
  apply (critical_error_terminates t). reflexivity.
Defined.

(* ===================================================================== *)
(** * 13. Parsing the reply *)
(* ===================================================================== *)

Lemma py_find_none (s : string) (c : ascii) :
  py_find s c = -1 -> find_char c s = None.
Proof. unfold py_find. destruct (find_char c s); [lia | done]. Qed.

Lemma find_char_rfind_char_none (c : ascii) (s : string) :
  find_char c s = None -> rfind_char c s = None.
Proof.
  induction s as [|x s IH]; simpl; [done |].
  destruct (ascii_eqb x c); [done |].
  destruct (find_char c s); [done |]. intros _. by rewrite IH.
Qed.

Lemma json_loads_payload_example (depth : nat) :
  (2 <= depth)%nat ->
  json_loads depth payload_example =
    Ok (PDict [("explanation", PStr "x"); ("file_actions", PList []);
               ("shell_actions", PList [PStr "echo hi"])]).
Proof.
  intros H. destruct depth as [|[|[|d]]]; [lia | lia | |]; vm_compute; reflexivity.
Qed.

(** Where the first [{] and the last [}] of a text are when the text is a
    payload between two pieces of prose that have no such brace. *)
Lemma find_json_embedded (depth : nat) (before inner after : string) :
  find_char "{"%char before = None ->
  find_char "}"%char after = None ->
  find_json depth (before +:+ (String "{"%char inner +:+ "}") +:+ after) =
    (actions ← json_loads depth (String "{"%char inner +:+ "}"); Ok (Some actions)).
Proof.
  intros Hb Ha. unfold find_json.
  set (payload := String "{"%char inner +:+ "}").
  assert (Hfind : py_find (before +:+ payload +:+ after) "{"%char
                  = Z.of_nat (str_length before)).
  { unfold py_find, payload. rewrite !str_app_cons.
    by rewrite find_char_app_first. }
  assert (Hrfind : py_rfind (before +:+ payload +:+ after) "}"%char + 1
                   = Z.of_nat (str_length before) + Z.of_nat (str_length payload)).
  { unfold py_rfind, payload.
    replace (before +:+ (String "{"%char inner +:+ "}") +:+ after)
      with ((before +:+ String "{"%char inner) +:+ String "}"%char after).
    2:{ by rewrite !str_app_assoc. }
    rewrite rfind_char_app_last by by apply find_char_rfind_char_none.
    rewrite !str_length_app. simpl. lia. }
  rewrite Hfind, Hrfind.
  replace ((0 <=? Z.of_nat (str_length before))
           && (Z.of_nat (str_length before)
               <? Z.of_nat (str_length before) + Z.of_nat (str_length payload)))
    with true.
  2:{ symmetry. apply andb_true_iff. split; [apply Z.leb_le; lia |].
      apply Z.ltb_lt. unfold payload. rewrite str_app_cons. simpl. lia. }
  by rewrite py_slice_middle.
Qed.

Lemma find_json_candidate (depth : nat) (text : string) :
  find_json depth text =
    match json_candidate text with
    | Some j => actions ← json_loads depth j; Ok (Some actions)
    | None => Ok None
    end.
Proof.
  unfold find_json, json_candidate, py_find, py_rfind, py_slice.
  destruct (find_char "{"%char text) as [i|]; [| done].
  destruct (rfind_char "}"%char text) as [j|].
  - destruct (Nat.leb_spec i j) as [Hij | Hij].
    + replace ((0 <=? Z.of_nat i) && (Z.of_nat i <? Z.of_nat j + 1)) with true
        by (symmetry; apply andb_true_iff; split;
            [apply Z.leb_le | apply Z.ltb_lt]; lia).
      replace (Z.to_nat (Z.of_nat j + 1 - Z.of_nat i)) with (j - i + 1)%nat by lia.
      by rewrite Nat2Z.id.
    + replace ((0 <=? Z.of_nat i) && (Z.of_nat i <? Z.of_nat j + 1)) with false;
        [done |].
      symmetry. apply andb_false_iff. right. apply Z.ltb_ge. lia.
  - replace ((0 <=? Z.of_nat i) && (Z.of_nat i <? -1 + 1)) with false; [done |].
    symmetry. apply andb_false_iff. right. apply Z.ltb_ge. lia.
Qed.

(** C2 (amended).  When the prose before the example payload has no [{]
    and the prose after it has no [}] (and the interpreter allows two nested
    containers), [parse_response] returns the decoded payload: its shell
    actions are the one-element list ["echo hi"] and its file actions are
    the empty list. *)
Theorem parse_embedded_payload (depth : nat) (r : response)
    (before after : string) :
  (2 <= depth)%nat ->
  py_find before "{"%char = -1 ->
  py_find after "}"%char = -1 ->
  extract_text r = Ok (before +:+ payload_example +:+ after) ->
  parses_to_example depth r.
Proof.
  intros Hdepth Hb Ha Htext.
  apply py_find_none in Hb. apply py_find_none in Ha.
  eexists. unfold parse_response, parse_text. rewrite Htext. cbn [mbind result_bind].
  unfold payload_example. rewrite (find_json_embedded depth _ _ _ Hb Ha).
  fold payload_example. rewrite (json_loads_payload_example _ Hdepth).
  cbn. done.
Qed.

Lemma parse_embedded_payload_witness :
  parses_to_example 1000
    (Message [TextBlock (PStr ("Here is my plan." +:+ nl +:+ payload_example
                               +:+ nl +:+ "Let me know how it goes."))]).
Proof.
  apply (parse_embedded_payload 1000 _ ("Here is my plan." +:+ nl)
           (nl +:+ "Let me know how it goes.")).
  - lia.
  - reflexivity.
  - reflexivity.
  - reflexivity.
Defined.

(** C2 as stated fails: prose that itself contains a brace moves the first
    [{] (or the last [}]) away from the payload, the text between them is
    not JSON, and the parsed actions are empty. *)
Lemma parse_embedded_payload_counterexample :
  ~ parses_to_example 1000
      (Message [TextBlock (PStr ("Fill in {name} below. " +:+ payload_example))]).
Proof.
  intros (actions & Hparse & Hshell & _).
  vm_compute in Hparse. injection Hparse as <-.
  vm_compute in Hshell. discriminate.
Qed.

Example parse_prose_with_brace :
  parse_response 1000
    (Message [TextBlock (PStr ("Fill in {name} below. " +:+ payload_example))])
  = Ok empty_actions.
Proof. by vm_compute. Qed.

(** C7.  [parse_response] returns for every reply; when the text of the
    reply cannot be extracted, or has no substring from a first [{] to a
    last [}], or [json.loads] rejects that substring, it returns the actions
    with an empty [file_actions] list and an empty [shell_actions] list, for
    which the file step does nothing. *)
Theorem parse_response_never_raises (depth : nat) (r : response) :
  (exists actions, parse_response depth r = Ok actions)
  /\ (forall text, extract_text r = Ok text ->
        decode_fails depth text = true ->
        parse_response depth r = Ok empty_actions)
  /\ (forall e, extract_text r = Raise e ->
        parse_response depth r = Ok empty_actions)
  /\ actions_get empty_actions "file_actions" = Ok (PList [])
  /\ actions_get empty_actions "shell_actions" = Ok (PList [])
  /\ (forall console py_str base disk,
        execute_file_actions console py_str base (PList []) disk = (Ok [], disk)).
Proof.
  assert (Hraise : forall e, extract_text r = Raise e ->
                     parse_response depth r = Ok empty_actions).
  { intros e He. unfold parse_response. by rewrite He. }
  assert (Hfail : forall text, extract_text r = Ok text ->
            decode_fails depth text = true ->
            parse_response depth r = Ok empty_actions).
  { intros text Ht Hf. unfold parse_response, parse_text. rewrite Ht.
    cbn [mbind result_bind]. rewrite find_json_candidate.
    unfold decode_fails in Hf. destruct (json_candidate text) as [j|]; [| done].
    destruct (json_loads depth j) as [v | e]; [done |].
    cbn. by destruct (is_JSONDecodeError e). }
  repeat split; try done.
  destruct (extract_text r) as [text | e] eqn:Ht; [| eauto].
  destruct (decode_fails depth text) eqn:Hf; [eauto |].
  unfold parse_response, parse_text. rewrite Ht.
  cbn [mbind result_bind]. rewrite find_json_candidate.
  unfold decode_fails in Hf. destruct (json_candidate text) as [j|]; [| done].
  destruct (json_loads depth j) as [v | e]; [| done].
  cbn. eauto.
Qed.

Lemma parse_response_never_raises_witness :
  let r := Message [TextBlock (PStr "I would create {main.py: print(1)} ");
                    OtherBlock; TextBlock (PStr "and run it.")] in
  extract_text r = Ok "I would create {main.py: print(1)} and run it."
  /\ decode_fails 1000 "I would create {main.py: print(1)} and run it." = true
  /\ parse_response 1000 r = Ok empty_actions.
Proof.
  intros r. split; [reflexivity |]. split; [reflexivity |].
  apply (proj1 (proj2 (parse_response_never_raises 1000 r))
           "I would create {main.py: print(1)} and run it."); reflexivity.
Defined.

(* ===================================================================== *)
(** * 14. File actions *)
(* ===================================================================== *)

Section FileActionFacts.
Context (console : string -> option string).
Context (py_str : pyval -> string).

Lemma apply_file_action_ok (base_dir : string) (action_type path content : pyval)
    (disk disk' : fs) (d : diagnostic) :
  apply_file_action console py_str base_dir action_type path content disk
    = (Ok d, disk') ->
  action_operation base_dir action_type path content disk (Ok ()) disk' d
  /\ report console py_str d = Ok ().
Proof.
  unfold apply_file_action.
  destruct (py_eq_str action_type "create") eqn:Hc.
  { destruct (write_file base_dir path content disk) as [[[] | e] disk1] eqn:Hw;
      [| done].
    destruct (report console py_str (CreatedFile path)) as [[] | e] eqn:Hr;
      cbn [mbind result_bind]; [| done].
    intros [= <- <-]. split; [by apply operation_create | done]. }
  destruct (py_eq_str action_type "modify") eqn:Hm.
  { destruct (write_file base_dir path content disk) as [[[] | e] disk1] eqn:Hw;
      [| done].
    destruct (report console py_str (ModifiedFile path)) as [[] | e] eqn:Hr;
      cbn [mbind result_bind]; [| done].
    intros [= <- <-]. split; [by apply operation_modify | done]. }
  destruct (py_eq_str action_type "delete") eqn:Hd.
  { destruct (delete_file base_dir path disk) as [[[] | e] disk1] eqn:Hw;
      [| done].
    destruct (report console py_str (DeletedFile path)) as [[] | e] eqn:Hr;
      cbn [mbind result_bind]; [| done].
    intros [= <- <-]. split; [by apply operation_delete | done]. }
  destruct (report console py_str (UnknownFileAction action_type path))
    as [[] | e] eqn:Hr; cbn [mbind result_bind]; [| done].
  intros [= <- <-]. split; [| done]. apply operation_none.
  unfold known_kind. by rewrite Hc, Hm, Hd.
Qed.

Lemma apply_file_action_raise (base_dir : string)
    (action_type path content : pyval) (disk disk' : fs) (e : exn) :
  apply_file_action console py_str base_dir action_type path content disk
    = (Raise e, disk') ->
  action_fails console py_str base_dir action_type path content disk e disk'.
Proof.
  unfold apply_file_action.
  destruct (py_eq_str action_type "create") eqn:Hc.
  { destruct (write_file base_dir path content disk) as [[[] | e1] disk1] eqn:Hw.
    - destruct (report console py_str (CreatedFile path)) as [[] | e1] eqn:Hr;
        cbn [mbind result_bind]; [done |].
      intros [= <- <-]. eapply fails_in_report; [by apply operation_create | done].
    - intros [= <- <-]. eapply fails_in_operation. by apply operation_create. }
  destruct (py_eq_str action_type "modify") eqn:Hm.
  { destruct (write_file base_dir path content disk) as [[[] | e1] disk1] eqn:Hw.
    - destruct (report console py_str (ModifiedFile path)) as [[] | e1] eqn:Hr;
        cbn [mbind result_bind]; [done |].
      intros [= <- <-]. eapply fails_in_report; [by apply operation_modify | done].
    - intros [= <- <-]. eapply fails_in_operation. by apply operation_modify. }
  destruct (py_eq_str action_type "delete") eqn:Hd.
  { destruct (delete_file base_dir path disk) as [[[] | e1] disk1] eqn:Hw.
    - destruct (report console py_str (DeletedFile path)) as [[] | e1] eqn:Hr;
        cbn [mbind result_bind]; [done |].
      intros [= <- <-]. eapply fails_in_report; [by apply operation_delete | done].
    - intros [= <- <-]. eapply fails_in_operation. by apply operation_delete. }
  destruct (report console py_str (UnknownFileAction action_type path))
    as [[] | e1] eqn:Hr; cbn [mbind result_bind]; [done |].
  intros [= <- <-]. eapply fails_in_report; [| done]. apply operation_none.
  unfold known_kind. by rewrite Hc, Hm, Hd.
Qed.

Lemma file_action_step_ok (base_dir : string) (action : list (string * pyval))
    (disk disk' : fs) (d : diagnostic) :
  file_action_step console py_str base_dir action disk = (Ok d, disk') ->
  action_outcome console py_str base_dir action disk d disk'.
Proof.
  unfold file_action_step.
  destruct (truthy (dict_get "path" action (PStr EmptyString))) eqn:Hpath;
    cbn [negb]; [| intros [= <- <-]; by constructor].
  destruct (apply_file_action _ _ _ _ _ _ disk) as [[d1 | e] disk1] eqn:Happly.
  - intros [= <- <-]. apply apply_file_action_ok in Happly as [Hop Hrep].
    by apply outcome_done.
  - apply apply_file_action_raise in Happly.
    destruct (report console py_str (FileActionFailed _ _ e)) as [[] | e1] eqn:Hr;
      cbn [mbind result_bind]; [| done].
    intros [= <- <-]. by apply outcome_failed.
Qed.

Lemma file_action_step_raise (base_dir : string)
    (action : list (string * pyval)) (disk disk' : fs) (e : exn) :
  file_action_step console py_str base_dir action disk = (Raise e, disk') ->
  report_of_failure_raises console py_str base_dir action disk e disk'.
Proof.
  unfold file_action_step, report_of_failure_raises.
  destruct (truthy (dict_get "path" action (PStr EmptyString))) eqn:Hpath;
    cbn [negb]; [| done].
  destruct (apply_file_action _ _ _ _ _ _ disk) as [[d1 | e0] disk1] eqn:Happly;
    [done |].
  apply apply_file_action_raise in Happly.
  destruct (report console py_str (FileActionFailed _ _ e0)) as [[] | e1] eqn:Hr;
    cbn [mbind result_bind]; [done |].
  intros [= <- <-]. split; [done |]. by exists e0.
Qed.

(** The loop over a list of dictionaries: every action has its outcome, or
    the loop is left at the first action whose failure cannot be
    reported. *)
Lemma file_actions_loop_applied (base_dir : string)
    (actions : list (list (string * pyval))) (disk : fs) (log0 : list diagnostic) :
  (exists log disk',
     file_actions_loop console py_str base_dir (PDict <$> actions) disk log0
       = (Ok (log0 ++ log), disk')
     /\ actions_applied console py_str base_dir actions disk log disk')
  \/ (exists before action rest log disk1 e disk',
        actions = before ++ action :: rest
        /\ actions_applied console py_str base_dir before disk log disk1
        /\ report_of_failure_raises console py_str base_dir action disk1 e disk'
        /\ file_actions_loop console py_str base_dir (PDict <$> actions) disk log0
           = (Raise e, disk')).
Proof.
  revert disk log0. induction actions as [|a rest IH]; intros disk log0.
  - left. exists [], disk. rewrite app_nil_r. split; [done | constructor].
  - cbn [fmap list_fmap file_actions_loop].
    destruct (file_action_step console py_str base_dir a disk)
      as [[d | e] disk1] eqn:Hstep.
    + apply file_action_step_ok in Hstep.
      destruct (IH disk1 (log0 ++ [d]))
        as [(log & disk2 & Hloop & Happ)
           | (before & action & rest' & log & disk2 & e & disk3
              & -> & Happ & Hfail & Hloop)].
      * left. exists (d :: log), disk2. split.
        -- rewrite Hloop. by rewrite <- app_assoc.
        -- by econstructor.
      * right. exists (a :: before), action, rest', (d :: log), disk2, e, disk3.
        split; [done |]. split; [by econstructor |]. done.
    + apply file_action_step_raise in Hstep.
      right. exists [], a, rest, [], disk, e, disk1.
      split; [done |]. split; [constructor |]. done.
Qed.

(** When the console takes every text, every line is printed. *)
Lemma py_print_total (text : string) :
  (forall t, console t = None) -> py_print console text = Ok ().
Proof.
  intros Hc. unfold py_print. rewrite Hc. by destruct (is_ascii text).
Qed.

Lemma report_total (d : diagnostic) :
  (forall t, console t = None) -> report console py_str d = Ok ().
Proof.
  intros Hc. unfold report. destruct (report_line py_str d); [| done].
  by apply py_print_total.
Qed.

Lemma file_action_step_total (base_dir : string)
    (action : list (string * pyval)) (disk : fs) :
  (forall t, console t = None) ->
  exists d disk',
    file_action_step console py_str base_dir action disk = (Ok d, disk').
Proof.
  intros Hc.
  destruct (file_action_step console py_str base_dir action disk)
    as [[d | e] disk'] eqn:Hstep; [by eauto |].
  apply file_action_step_raise in Hstep as (_ & cause & _ & Hr).
  by rewrite report_total in Hr.
Qed.

Lemma file_actions_loop_total (base_dir : string)
    (actions : list (list (string * pyval))) (disk : fs) (log0 : list diagnostic) :
  (forall t, console t = None) ->
  exists log disk',
    file_actions_loop console py_str base_dir (PDict <$> actions) disk log0
      = (Ok (log0 ++ log), disk')
    /\ actions_applied console py_str base_dir actions disk log disk'.
Proof.
  intros Hc.
  destruct (file_actions_loop_applied base_dir actions disk log0)
    as [H | (before & action & rest & log & disk1 & e & disk' & _ & _ & Hfail & _)];
    [done |].
  destruct Hfail as (_ & cause & _ & Hr). by rewrite report_total in Hr.
Qed.

(** C8, as the code has it.  Applying a list of file actions goes through
    the list in order.  An action with an empty path is skipped; an action
    of an unknown kind is reported; a create or modify action writes its
    file and a delete action deletes it; an action whose operation raises,
    or whose report cannot be printed, is reported as failed, and the
    actions after it are still applied.  The call returns when every
    action had its outcome; it raises only when the line that reports a
    failed action cannot be printed, and then the actions after that one
    are not applied.  On a console that takes every text it returns. *)
Theorem execute_file_actions_outcomes (base_dir : string)
    (actions : list (list (string * pyval))) (disk : fs) :
  ((exists log disk',
      execute_file_actions console py_str base_dir (PList (PDict <$> actions)) disk
        = (Ok log, disk')
      /\ actions_applied console py_str base_dir actions disk log disk')
   \/ (exists before action rest log disk1 e disk',
         actions = before ++ action :: rest
         /\ actions_applied console py_str base_dir before disk log disk1
         /\ report_of_failure_raises console py_str base_dir action disk1 e disk'
         /\ execute_file_actions console py_str base_dir
              (PList (PDict <$> actions)) disk = (Raise e, disk')))
  /\ ((forall t, console t = None) ->
      exists log disk',
        execute_file_actions console py_str base_dir (PList (PDict <$> actions)) disk
          = (Ok log, disk')
        /\ actions_applied console py_str base_dir actions disk log disk').
Proof.
  unfold execute_file_actions. cbn [py_iter]. split.
  - destruct (file_actions_loop_applied base_dir actions disk [])
      as [(log & disk' & Hloop & Happ) | H]; [| by right].
    left. exists log, disk'. by rewrite Hloop.
  - intros Hc.
    destruct (file_actions_loop_total base_dir actions disk [] Hc)
      as (log & disk' & Hloop & Happ).
    exists log, disk'. by rewrite Hloop.
Qed.

(** An action whose path [get_full_path] rejects is reported as failed and
    leaves the disk as it was. *)
Lemma rejected_path_leaves_disk (base_dir : string)
    (action : list (string * pyval)) (disk : fs) (e : exn) :
  truthy (dict_get "path" action (PStr EmptyString)) = true ->
  known_kind (dict_get "action" action (PStr EmptyString)) = true ->
  get_full_path base_dir (dict_get "path" action (PStr EmptyString)) = Raise e ->
  report console py_str
    (FileActionFailed (dict_get "action" action (PStr EmptyString))
       (dict_get "path" action (PStr EmptyString)) e) = Ok () ->
  file_action_step console py_str base_dir action disk
  = (Ok (FileActionFailed (dict_get "action" action (PStr EmptyString))
           (dict_get "path" action (PStr EmptyString)) e), disk).
Proof.
  intros Hpath Hkind Hreject Hrep. unfold file_action_step. rewrite Hpath.
  cbn [negb].
  unfold apply_file_action, write_file, delete_file. rewrite Hreject.
  unfold known_kind in Hkind.
  destruct (py_eq_str _ "create"); [by rewrite Hrep |].
  destruct (py_eq_str _ "modify"); [by rewrite Hrep |].
  destruct (py_eq_str _ "delete"); [by rewrite Hrep | done].
Qed.

End FileActionFacts.

(** C8 fails on the code.  The path of the first action below holds a
    character the console cannot encode: the line that reports the action
    raises, the line of the handler raises as well, and the call ends with
    that exception; the second action is not applied. *)
Lemma execute_file_actions_counterexample :
  let disk : fs := {[ ["work"] := Dir; ["work"; "app"] := Dir ]} in
  let first := [("action", PStr "rename"); ("path", PStr lone_surrogate)] in
  let second := [("action", PStr "create"); ("path", PStr "main.py");
                 ("content", PStr "print(1)")] in
  execute_file_actions utf8_console example_py_str "/work/app"
    (PList (PDict <$> [first; second])) disk
  = (Raise (Exn UnicodeEncodeError
       "'utf-8' codec can't encode character '\ud800' in position 16: surrogates not allowed"),
     disk)
  /\ disk !! ["work"; "app"; "main.py"] = None.
Proof. cbv zeta. split; [reflexivity | by vm_compute]. Qed.

(** The example of the specification: [../../etc/passwd] is rejected, and
    the action after it is applied. *)
Example traversal_rejected :
  let disk : fs := {[ ["work"] := Dir; ["work"; "app"] := Dir ]} in
  let bad := PDict [("action", PStr "create"); ("path", PStr "../../etc/passwd");
                    ("content", PStr "root::0:0")] in
  let good := PDict [("action", PStr "create"); ("path", PStr "main.py");
                     ("content", PStr "print(1)")] in
  execute_file_actions utf8_console example_py_str "/work/app" (PList [bad; good]) disk
  = (Ok [FileActionFailed (PStr "create") (PStr "../../etc/passwd")
           (Exn ValueError "Path traversal detected: ../../etc/passwd");
         CreatedFile (PStr "main.py")],
     <[ ["work"; "app"; "main.py"] := File "print(1)" ]> disk).
Proof. cbv zeta. reflexivity. Qed.

(** C1 fails on the code.  The check of [get_full_path] compares the
    normalised path with the root as texts, so a sibling directory whose
    name begins with the name of the root passes: the action below is
    reported as done and its content is written outside [/work/app]. *)
Theorem traversal_into_sibling_directory :
  let disk : fs := {[ ["work"] := Dir; ["work"; "app"] := Dir ]} in
  let action := PDict [("action", PStr "create");
                       ("path", PStr "../app_backup/key.txt");
                       ("content", PStr "secret")] in
  let run :=
    execute_file_actions utf8_console example_py_str "/work/app"
      (PList [action]) disk in
  normpath (path_join "/work/app" "../app_backup/key.txt")
    = "/work/app_backup/key.txt"
  /\ ~ inside "/work/app" (locate "/work/app_backup/key.txt")
  /\ run.1 = Ok [CreatedFile (PStr "../app_backup/key.txt")]
  /\ disk !! ["work"; "app_backup"; "key.txt"] = None
  /\ run.2 !! ["work"; "app_backup"; "key.txt"] = Some (File "secret").
Proof.
  cbv zeta. split; [by vm_compute |]. split.
  - unfold inside. intros [k Hk]. vm_compute in Hk. discriminate.
  - split; [by vm_compute |]. split; by vm_compute.
Qed.
(* ===================================================================== *)
(** * 15. The file manager on the disk *)
(* ===================================================================== *)

(** ** Splitting a path *)

Lemma split_on_nonempty (c : ascii) (s : string) : split_on c s <> [].
Proof.
  induction s as [|a s IH]; [done |]. simpl.
  destruct (ascii_eqb a c); [done |]. by destruct (split_on c s).
Qed.

Lemma split_on_app_sep (c : ascii) (a b : string) :
  split_on c (a +:+ String c b) = split_on c a ++ split_on c b.
Proof.
  induction a as [|x a IH]; str_simpl.
  - by rewrite ascii_eqb_refl.
  - rewrite IH. destruct (ascii_eqb x c); [done |].
    pose proof (split_on_nonempty c a) as Hne.
    by destruct (split_on c a).
Qed.

Lemma split_on_free (c : ascii) (s : string) :
  find_char c s = None -> split_on c s = [s].
Proof.
  induction s as [|a s IH]; [done |]. cbn [find_char split_on].
  destruct (ascii_eqb a c); [done |].
  destruct (find_char c s); [done |]. intros _. by rewrite IH.
Qed.

Lemma rfind_char_None (c : ascii) (s : string) :
  rfind_char c s = None <-> find_char c s = None.
Proof.
  induction s as [|a s IH]; [done |]. cbn [rfind_char find_char].
  destruct (ascii_eqb a c).
  - split; [| done]. by destruct (rfind_char c s).
  - destruct (rfind_char c s), (find_char c s); try done;
      destruct IH as [IH1 IH2]; try (by specialize (IH1 eq_refl));
      by specialize (IH2 eq_refl).
Qed.

Lemma rfind_char_Some (c : ascii) (s : string) (i : nat) :
  rfind_char c s = Some i ->
  exists pre post,
    s = pre +:+ String c post /\ str_length pre = i /\ find_char c post = None.
Proof.
  revert i. induction s as [|a s IH]; intros i; [done |]. cbn [rfind_char].
  destruct (rfind_char c s) as [j|] eqn:Hr.
  - intros [= <-]. destruct (IH j eq_refl) as (pre & post & -> & <- & Hpost).
    by exists (String a pre), post.
  - destruct (ascii_eqb a c) eqn:Ha; [| done]. intros [= <-].
    apply ascii_eqb_eq in Ha as ->. exists EmptyString, s.
    split; [done |]. split; [done |]. by apply rfind_char_None.
Qed.

Lemma all_sep_app (a b : string) : all_sep (a +:+ b) = all_sep a && all_sep b.
Proof.
  induction a as [|x a IH]; str_simpl; [done |].
  rewrite IH. by destruct (ascii_eqb x sep).
Qed.

Lemma rstrip_sep_all (s : string) : all_sep s = true -> rstrip_sep s = EmptyString.
Proof.
  induction s as [|x s IH]; [done |]. cbn [all_sep rstrip_sep].
  intros [Hx Hs]%andb_true_iff. by rewrite IH, Hx.
Qed.

Lemma rstrip_sep_empty (s : string) : rstrip_sep s = EmptyString -> all_sep s = true.
Proof.
  induction s as [|x s IH]; [done |]. cbn [all_sep rstrip_sep].
  destruct (rstrip_sep s) eqn:Hs; [| done].
  destruct (ascii_eqb x sep); [| done]. intros _. by rewrite IH.
Qed.

Lemma rstrip_sep_app_all (a b : string) :
  all_sep b = true -> rstrip_sep (a +:+ b) = rstrip_sep a.
Proof.
  intros Hb. induction a as [|x a IH]; str_simpl; [by apply rstrip_sep_all |].
  by rewrite IH.
Qed.

(** A text is what [rstrip('/')] leaves of it, and slashes. *)
Lemma rstrip_sep_spec (s : string) :
  exists t, s = rstrip_sep s +:+ t /\ all_sep t = true.
Proof.
  induction s as [|x s (t & Hs & Ht)]; [by exists EmptyString |].
  cbn [rstrip_sep]. destruct (rstrip_sep s) as [|y r] eqn:Hr.
  - destruct (ascii_eqb x sep) eqn:Hx.
    + exists (String x s). split; [done |]. cbn [all_sep]. rewrite Hx.
      apply rstrip_sep_empty in Hr. done.
    + exists s. split; [done |]. by apply rstrip_sep_empty.
  - exists t. split; [| done]. rewrite str_app_cons. by rewrite <- Hs.
Qed.

Lemma rstrip_sep_idem (s : string) : rstrip_sep (rstrip_sep s) = rstrip_sep s.
Proof.
  induction s as [|x s IH]; [done |]. cbn [rstrip_sep].
  destruct (rstrip_sep s) as [|y r] eqn:Hr.
  - destruct (ascii_eqb x sep) eqn:Hx; [done |]. cbn [rstrip_sep]. by rewrite Hx.
  - cbn [rstrip_sep] in *. by rewrite IH.
Qed.


(** The pieces of a text of slashes are empty. *)
Lemma split_on_all_sep (t : string) :
  all_sep t = true -> split_on sep t = replicate (S (str_length t)) EmptyString.
Proof.
  induction t as [|x t IH]; [done |]. cbn [all_sep split_on str_length].
  intros [Hx Ht]%andb_true_iff. rewrite Hx. rewrite IH by done. reflexivity.
Qed.

Lemma split_on_app_all_sep (a t : string) :
  all_sep t = true ->
  split_on sep (a +:+ t) = split_on sep a ++ replicate (str_length t) EmptyString.
Proof.
  intros Ht. destruct t as [|x t]; [by rewrite str_app_nil_r, app_nil_r |].
  cbn [all_sep] in Ht. apply andb_true_iff in Ht as [Hx Ht].
  apply ascii_eqb_eq in Hx as ->.
  rewrite split_on_app_sep. rewrite (split_on_all_sep t) by done. reflexivity.
Qed.

Lemma split_on_rstrip (s : string) :
  exists k, split_on sep s = split_on sep (rstrip_sep s) ++ replicate k EmptyString.
Proof.
  destruct (rstrip_sep_spec s) as (t & Hs & Ht).
  exists (str_length t). rewrite Hs at 1. by apply split_on_app_all_sep.
Qed.

(** [os.path.split]: a path without a slash is a tail; otherwise the tail
    is what follows the last slash, and the head is what stands before
    it, without the slashes at its end unless it is made of slashes. *)
Lemma path_split_free (p : string) :
  find_char sep p = None -> path_split p = (EmptyString, p).
Proof.
  intros H. unfold path_split, py_rfind. apply rfind_char_None in H. rewrite H.
  by destruct p.
Qed.

Lemma path_split_sep (pre post : string) :
  find_char sep post = None ->
  path_split (pre +:+ String sep post)
  = (if all_sep pre then pre +:+ "/" else rstrip_sep pre, post).
Proof.
  intros Hpost. unfold path_split, py_rfind.
  rewrite rfind_char_app_last by by apply rfind_char_None.
  replace (Z.to_nat (Z.of_nat (str_length pre) + 1))
    with (str_length (pre +:+ "/")) by (rewrite str_length_app; simpl; lia).
  assert (Hhead : py_slice (pre +:+ String sep post) 0
                    (Z.of_nat (str_length pre) + 1) = pre +:+ "/").
  { pose proof (py_slice_middle EmptyString (pre +:+ "/") post) as H.
    rewrite !str_app_nil_l, str_app_assoc in H. cbn [str_length] in H.
    rewrite str_length_app in H. cbn [str_length Nat.add] in H.
    replace (Z.of_nat (str_length pre) + 1)
      with (Z.of_nat 0 + Z.of_nat (str_length pre + 1)) by lia.
    exact H. }
  rewrite Hhead.
  replace (pre +:+ String sep post) with ((pre +:+ "/") +:+ post)
    by by rewrite str_app_assoc.
  rewrite str_drop_app. rewrite all_sep_app. cbn [all_sep].
  rewrite ascii_eqb_refl, !andb_true_r.
  assert (Hne : str_eqb (pre +:+ "/") EmptyString = false).
  { apply str_eqb_neq. by destruct pre. }
  rewrite Hne. cbn [negb andb].
  destruct (all_sep pre); cbn [negb]; [done |].
  by rewrite rstrip_sep_app_all.
Qed.

Lemma path_split_cases (p : string) :
  (find_char sep p = None /\ path_split p = (EmptyString, p))
  \/ exists pre post,
       p = pre +:+ String sep post /\ find_char sep post = None
       /\ path_split p
          = (if all_sep pre then pre +:+ "/" else rstrip_sep pre, post).
Proof.
  destruct (rfind_char sep p) as [i|] eqn:Hr.
  - right. apply rfind_char_Some in Hr as (pre & post & -> & _ & Hpost).
    exists pre, post. split; [done |]. split; [done |]. by apply path_split_sep.
  - left. apply rfind_char_None in Hr. split; [done |]. by apply path_split_free.
Qed.

Lemma normpath_loop_app (rooted : bool) (xs ys stack : list string) :
  normpath_loop rooted (xs ++ ys) stack
  = normpath_loop rooted ys (rev (normpath_loop rooted xs stack)).
Proof.
  revert stack. induction xs as [|x xs IH]; intros stack.
  - simpl. by rewrite rev_involutive.
  - cbn [app normpath_loop].
    destruct (str_eqb x EmptyString || str_eqb x "."); [apply IH |].
    destruct (negb (str_eqb x "..") || _ || _); [apply IH |].
    destruct stack; apply IH.
Qed.

(** ** Following a path *)

Lemma walk_cons (disk : fs) (here : list string) (comp : string)
    (rest : list string) :
  walk disk here (comp :: rest)
  = match checked disk here with
    | At _ => walk disk (enter here comp) rest
    | l => l
    end.
Proof. done. Qed.

Lemma walk_app (disk : fs) (here : list string) (a b : list string) :
  walk disk here (a ++ b)
  = match walk disk here a with
    | At loc => walk disk loc b
    | l => l
    end.
Proof.
  revert here. induction a as [|c a IH]; intros here; [done |].
  cbn [app walk]. destruct (checked disk here); [apply IH | done..].
Qed.

Lemma checked_At (disk : fs) (here loc : list string) :
  checked disk here = At loc <-> loc = here /\ node_at disk here = Some Dir.
Proof.
  unfold checked. destruct (node_at disk here) as [[t|]|]; split;
    try done; try (by intros [_ [=]]); try (by intros [= <-]);
    by intros [-> _].
Qed.

Lemma checked_of_dir (disk : fs) (here : list string) :
  node_at disk here = Some Dir -> checked disk here = At here.
Proof. intros H. unfold checked. by rewrite H. Qed.

(** Empty components before a component change nothing. *)
Lemma walk_empties (disk : fs) (here : list string) (k : nat)
    (comp : string) (rest : list string) :
  walk disk here (replicate k EmptyString ++ comp :: rest)
  = walk disk here (comp :: rest).
Proof.
  induction k as [|k IH]; [done |].
  cbn [replicate app]. rewrite walk_cons.
  change (enter here EmptyString) with here. rewrite IH.
  rewrite walk_cons. by destruct (checked disk here).
Qed.

(** Empty components at the end ask for a directory. *)
Lemma walk_empties_end (disk : fs) (here : list string) (k : nat) :
  walk disk here (replicate k EmptyString)
  = match k with
    | O => At here
    | S _ => checked disk here
    end.
Proof.
  induction k as [|k IH]; [done |].
  cbn [replicate]. rewrite walk_cons.
  change (enter here EmptyString) with here. rewrite IH.
  destruct (checked disk here) eqn:Hc; try done.
  apply checked_At in Hc as [-> _]. by destruct k.
Qed.

(** From the root, a path of empty components stays at the root. *)
Lemma walk_root_empties (disk : fs) (k : nat) :
  walk disk [] (replicate k EmptyString) = At [].
Proof. rewrite walk_empties_end. by destruct k. Qed.

(** Directories that stay directories keep a path where it led. *)
Lemma walk_kept (disk disk' : fs) (here comps loc : list string) :
  dirs_kept disk disk' ->
  walk disk here comps = At loc -> walk disk' here comps = At loc.
Proof.
  intros Hk. revert here. induction comps as [|c comps IH]; intros here; [done |].
  rewrite !walk_cons. destruct (checked disk here) eqn:Hc; try done.
  apply checked_At in Hc as [-> Hd]. rewrite (checked_of_dir disk' here) by auto.
  apply IH.
Qed.

(** A path leads to the place its normal form names. *)
Lemma rev_removelast {A} (l : list A) : rev (removelast l) = tail (rev l).
Proof.
  induction l as [|x l IH] using rev_ind; [done |].
  rewrite removelast_last, rev_app_distr. done.
Qed.

Lemma Forall_removelast {A} (P : A -> Prop) (l : list A) :
  Forall P l -> Forall P (removelast l).
Proof.
  induction 1 as [|x l Hx Hl IH]; [constructor |].
  cbn [removelast]. destruct l; [constructor |]. by constructor.
Qed.

Lemma walk_normpath (disk : fs) (comps here loc : list string) :
  Forall (fun c => c <> "..") here ->
  walk disk here comps = At loc ->
  loc = normpath_loop true comps (rev here).
Proof.
  revert here. induction comps as [|c comps IH]; intros here Hh.
  - cbn. intros [= <-]. by rewrite rev_involutive.
  - rewrite walk_cons. destruct (checked disk here); try done.
    intros Hw. cbn [normpath_loop]. unfold enter in Hw.
    destruct (str_eqb c EmptyString || str_eqb c ".") eqn:Hdot; [by apply IH |].
    destruct (str_eqb c "..") eqn:Hup; cbn [negb orb andb].
    + assert (Htop : match rev here with
                     | top :: _ => str_eqb top ".."
                     | [] => false
                     end = false).
      { pose proof (List.Forall_rev Hh) as Hr.
        destruct (rev here) as [|top r]; [done |].
        apply str_eqb_neq. by inversion Hr. }
      rewrite Htop.
      apply IH in Hw; [| by apply Forall_removelast].
      rewrite rev_removelast in Hw.
      by destruct (rev here).
    + apply IH in Hw.
      * by rewrite rev_app_distr in Hw.
      * apply Forall_app. split; [done |]. apply Forall_cons. split; [| done].
        by apply str_eqb_neq.
Qed.

Lemma walk_locate (disk : fs) (path : string) (loc : list string) :
  walk disk [] (split_on sep path) = At loc -> loc = locate path.
Proof. intros H. by apply (walk_normpath disk _ []) in H. Qed.

Lemma resolve_locate (disk : fs) (path : string) (loc : list string) :
  resolve path disk = At loc -> loc = locate path.
Proof.
  unfold resolve. destruct (str_eqb path EmptyString); [done |].
  destruct (fsencode_error path); [done |]. apply walk_locate.
Qed.

(** [rstrip('/')] does not change the place. *)
Lemma normpath_loop_empties (rooted : bool) (k : nat) (stack : list string) :
  normpath_loop rooted (replicate k EmptyString) stack = rev stack.
Proof. induction k as [|k IH]; [done |]. cbn. apply IH. Qed.

Lemma locate_rstrip_sep (path : string) : locate (rstrip_sep path) = locate path.
Proof.
  unfold locate. destruct (split_on_rstrip path) as (k & ->).
  rewrite normpath_loop_app, normpath_loop_empties. by rewrite rev_involutive.
Qed.

(** ** Names that can be encoded *)

Lemma chars_of_head (c : ascii) (s : string) :
  exists t ps, chars_of (String c s) = String c t :: ps.
Proof.
  cbn [chars_of]. destruct (chars_of s) as [|p ps]; [by eexists _, _ |].
  destruct p as [|c' p']; [by eexists _, _ |].
  destruct ((128 <=? nat_of_ascii c') && (nat_of_ascii c' <? 192))%nat;
    by eexists _, _.
Qed.

Lemma chars_of_cons (c : ascii) (s : string) :
  chars_of (String c s)
  = match chars_of s with
    | p :: ps =>
        match p with
        | String c' _ =>
            if ((128 <=? nat_of_ascii c') && (nat_of_ascii c' <? 192))%nat
            then String c p :: ps
            else String c EmptyString :: p :: ps
        | EmptyString => String c EmptyString :: ps
        end
    | [] => [String c EmptyString]
    end.
Proof. done. Qed.

(** A unit below 128 begins a character, so the characters before it are
    those of the text before it. *)
Lemma chars_of_app (a : string) (c : ascii) (b : string) :
  (nat_of_ascii c <? 128)%nat = true ->
  chars_of (a +:+ String c b) = chars_of a ++ chars_of (String c b).
Proof.
  intros Hc. induction a as [|x a IH]; [done |].
  rewrite str_app_cons. rewrite (chars_of_cons x (a +:+ String c b)), IH.
  rewrite (chars_of_cons x a).
  destruct a as [|y a'].
  - change (chars_of EmptyString) with (@nil string). cbn [app].
    destruct (chars_of_head c b) as (t & ps & ->).
    apply Nat.ltb_lt in Hc.
    replace (128 <=? nat_of_ascii c)%nat with false
      by (symmetry; apply Nat.leb_gt; lia). done.
  - destruct (chars_of_head y a') as (t & ps & ->). cbn [app].
    by destruct ((128 <=? nat_of_ascii y) && (nat_of_ascii y <? 192))%nat.
Qed.

Lemma find_refused_app (escape : bool) (pos : nat) (l1 l2 : list string) :
  find_refused escape pos (l1 ++ l2) = None ->
  find_refused escape pos l1 = None.
Proof.
  revert pos. induction l1 as [|c l1 IH]; intros pos; [done |].
  cbn [app find_refused]. destruct (surrogate_of c) as [n|]; [| apply IH].
  destruct (escape && (56448 <=? n)%N && (n <=? 56575)%N); [apply IH | done].
Qed.

Lemma encode_error_None (escape : bool) (text : string) :
  encode_error escape text = None
  <-> find_refused escape 0 (chars_of text) = None.
Proof.
  unfold encode_error.
  destruct (find_refused escape 0 (chars_of text)) as [[[pos n] len]|]; done.
Qed.

Lemma fsencode_prefix (a b : string) :
  fsencode_error (a +:+ String sep b) = None -> fsencode_error a = None.
Proof.
  unfold fsencode_error. rewrite !encode_error_None.
  rewrite chars_of_app by done. apply find_refused_app.
Qed.

Lemma chars_of_ascii (s : string) :
  is_ascii s = true -> Forall (fun p => str_length p = 1%nat) (chars_of s).
Proof.
  induction s as [|c s IH]; [constructor |]. cbn [is_ascii].
  intros [Hc Hs]%andb_true_iff. specialize (IH Hs).
  rewrite chars_of_cons. destruct s as [|c' s']; [by repeat constructor |].
  destruct (chars_of_head c' s') as (t & ps & E). rewrite E in *.
  cbn [is_ascii] in Hs. apply andb_true_iff in Hs as [Hc' _].
  apply Nat.ltb_lt in Hc'.
  replace (128 <=? nat_of_ascii c')%nat with false
    by (symmetry; apply Nat.leb_gt; lia).
  cbn [andb]. by constructor.
Qed.

Lemma find_refused_short (escape : bool) (pos : nat) (cs : list string) :
  Forall (fun p => str_length p = 1%nat) cs -> find_refused escape pos cs = None.
Proof.
  intros H. revert pos. induction H as [|p cs Hp Hcs IH]; intros pos; [done |].
  cbn [find_refused].
  destruct p as [|a [|b [|d p']]]; try done; cbn [surrogate_of]; apply IH.
Qed.

Lemma encode_error_ascii (escape : bool) (text : string) :
  is_ascii text = true -> encode_error escape text = None.
Proof.
  intros H. apply encode_error_None, find_refused_short. by apply chars_of_ascii.
Qed.

Lemma all_sep_ascii (s : string) : all_sep s = true -> is_ascii s = true.
Proof.
  induction s as [|c s IH]; [done |]. cbn [all_sep is_ascii].
  intros [Hc Hs]%andb_true_iff. apply ascii_eqb_eq in Hc as ->.
  by rewrite IH.
Qed.

Lemma all_sep_then_sep (t b : string) :
  all_sep t = true -> exists r, t +:+ String sep b = String sep r.
Proof.
  destruct t as [|x t]; [by exists b |]. cbn [all_sep].
  intros [Hx _]%andb_true_iff. apply ascii_eqb_eq in Hx as ->.
  rewrite str_app_cons. by eexists.
Qed.

(** ** The head and the tail of a name *)

Lemma rstrip_sep_free (post : string) :
  find_char sep post = None -> rstrip_sep post = post.
Proof.
  induction post as [|c r IH]; [done |]. cbn [find_char rstrip_sep].
  destruct (ascii_eqb c sep) eqn:Hc; [done |].
  destruct (find_char sep r); [done |]. intros _. rewrite IH by done.
  by destruct r.
Qed.

Lemma rstrip_sep_keep (a post : string) :
  post <> EmptyString -> find_char sep post = None ->
  rstrip_sep (a +:+ post) = a +:+ post.
Proof.
  intros Hne Hfree. induction a as [|x a IH]; [by apply rstrip_sep_free |].
  rewrite str_app_cons. cbn [rstrip_sep]. rewrite IH.
  destruct (a +:+ post) eqn:E; [| done]. by destruct a, post.
Qed.

Lemma rstrip_sep_length (s : string) :
  (str_length (rstrip_sep s) <= str_length s)%nat.
Proof.
  destruct (rstrip_sep_spec s) as (t & Hs & _). rewrite Hs at 2.
  rewrite str_length_app. lia.
Qed.

(** What [os.path.split] gives for a name with a head and a tail. *)
Lemma path_split_spec (name head tail : string) :
  path_split name = (head, tail) ->
  head <> EmptyString -> tail <> EmptyString ->
  rstrip_sep name = name
  /\ find_char sep tail = None
  /\ (str_length head < str_length name)%nat
  /\ (fsencode_error name = None -> fsencode_error head = None)
  /\ split_on sep (rstrip_sep head) `prefix_of` split_on sep name
  /\ forall disk,
       walk disk [] (split_on sep name)
       = match walk disk [] (split_on sep head) with
         | At p => walk disk p [tail]
         | l => l
         end.
Proof.
  intros Hsplit Hhead Htail.
  destruct (path_split_cases name)
    as [[_ E] | (pre & post & -> & Hpost & E)]; rewrite E in Hsplit.
  { by injection Hsplit as <- _. }
  injection Hsplit as <- <-.
  assert (Hcomps : split_on sep (pre +:+ String sep post)
                   = split_on sep pre ++ [post]).
  { by rewrite split_on_app_sep, (split_on_free _ post). }
  split.
  { change (pre +:+ String sep post) with (pre +:+ ("/" +:+ post)).
    rewrite <- str_app_assoc. by apply rstrip_sep_keep. }
  split; [done |].
  rewrite Hcomps.
  destruct (all_sep pre) eqn:Hall.
  - (* the head is made of slashes *)
    split; [rewrite !str_length_app; destruct post; [done | simpl; lia] |].
    split.
    { intros _. apply encode_error_ascii, all_sep_ascii.
      rewrite all_sep_app, Hall. done. }
    rewrite (rstrip_sep_all (pre +:+ "/")) by (by rewrite all_sep_app, Hall).
    rewrite (split_on_all_sep pre) by done.
    split; [by exists (replicate (str_length pre) EmptyString ++ [post]) |].
    intros disk.
    rewrite (split_on_all_sep (pre +:+ "/")) by (by rewrite all_sep_app, Hall).
    rewrite walk_app, !walk_root_empties. done.
  - (* the head is what stands before the slashes *)
    destruct (rstrip_sep_spec pre) as (t & Hpre & Ht).
    split.
    { pose proof (rstrip_sep_length pre). rewrite !str_length_app.
      simpl. lia. }
    split.
    { rewrite Hpre at 1. rewrite str_app_assoc.
      destruct (all_sep_then_sep t post Ht) as (r & ->).
      apply fsencode_prefix. }
    rewrite rstrip_sep_idem.
    assert (Hsp : split_on sep pre
                  = split_on sep (rstrip_sep pre)
                    ++ replicate (str_length t) EmptyString).
    { rewrite Hpre at 1. by apply split_on_app_all_sep. }
    split.
    { rewrite Hsp. rewrite <- app_assoc. by eexists. }
    intros disk. rewrite Hsp, <- app_assoc, walk_app.
    destruct (walk disk [] (split_on sep (rstrip_sep pre))); try done.
    apply walk_empties.
Qed.

(** The same for the two splits of [os.makedirs]. *)
Lemma split_twice_spec (name head tail : string) :
  split_twice name = (head, tail) ->
  head <> EmptyString -> tail <> EmptyString ->
  find_char sep tail = None
  /\ (str_length head < str_length name)%nat
  /\ (fsencode_error name = None -> fsencode_error head = None)
  /\ split_on sep (rstrip_sep head) `prefix_of` split_on sep (rstrip_sep name)
  /\ forall disk,
       walk disk [] (split_on sep (rstrip_sep name))
       = match walk disk [] (split_on sep head) with
         | At p => walk disk p [tail]
         | l => l
         end.
Proof.
  unfold split_twice. destruct (path_split name) as [h1 t1] eqn:E1.
  destruct (str_eqb t1 EmptyString) eqn:Ht1.
  - apply str_eqb_eq in Ht1 as ->. intros E2 Hhead Htail.
    destruct (path_split_cases name)
      as [[_ E] | (pre & post & -> & Hpost & E)]; rewrite E in E1.
    { injection E1 as <- ->. by injection E2 as <- _. }
    injection E1 as <- ->.
    destruct (all_sep pre) eqn:Hall.
    { rewrite path_split_sep in E2 by done. rewrite Hall in E2.
      by injection E2 as _ <-. }
    destruct (path_split_spec _ _ _ E2 Hhead Htail)
      as (Hr & Hfree & Hlen & Henc & Hpre & Hwalk).
    assert (Hname : rstrip_sep (pre +:+ String sep EmptyString) = rstrip_sep pre)
      by by apply rstrip_sep_app_all.
    rewrite Hname.
    split; [done |]. split.
    { pose proof (rstrip_sep_length pre). rewrite str_length_app. simpl. lia. }
    split.
    { intros H. apply Henc.
      destruct (rstrip_sep_spec pre) as (t & Hp & Ht).
      rewrite Hp in H at 1. rewrite str_app_assoc in H.
      destruct (all_sep_then_sep t EmptyString Ht) as (r & Er).
      change (t +:+ "/") with (t +:+ String sep EmptyString) in H.
      rewrite Er in H. by apply fsencode_prefix in H. }
    done.
  - apply str_eqb_neq in Ht1. intros [= <- <-] Hhead _.
    destruct (path_split_spec _ _ _ E1 Hhead Ht1)
      as (Hr & Hfree & Hlen & Henc & Hpre & Hwalk).
    rewrite Hr. done.
Qed.

(** ** The system calls *)

Lemma node_at_insert_ne (disk : fs) (loc k : list string) (v : node) :
  k <> [] -> loc <> k -> node_at (<[k := v]> disk) loc = node_at disk loc.
Proof. intros Hk Hne. destruct loc; [done |]. cbn. by rewrite lookup_insert_ne. Qed.

Lemma node_at_insert_eq (disk : fs) (loc : list string) (v : node) :
  loc <> [] -> node_at (<[loc := v]> disk) loc = Some v.
Proof. intros Hne. destruct loc; [done |]. cbn. by rewrite lookup_insert_eq. Qed.

Lemma node_at_None (disk : fs) (loc : list string) :
  node_at disk loc = None -> loc <> [] /\ disk !! loc = None.
Proof. by destruct loc. Qed.

Lemma node_at_lookup (disk : fs) (loc : list string) :
  loc <> [] -> node_at disk loc = disk !! loc.
Proof. by destruct loc. Qed.

Lemma subseteq_node_at (disk disk' : fs) (loc : list string) (n : node) :
  disk ⊆ disk' -> node_at disk loc = Some n -> node_at disk' loc = Some n.
Proof.
  intros Hsub. destruct loc; [done |]. cbn. intros H.
  by eapply lookup_weaken.
Qed.

Lemma subseteq_dirs_kept (disk disk' : fs) : disk ⊆ disk' -> dirs_kept disk disk'.
Proof. intros Hsub loc. by apply subseteq_node_at. Qed.

(** Writing a file where no directory is keeps the directories. *)
Lemma insert_file_dirs_kept (disk : fs) (loc : list string) (text : string) :
  node_at disk loc <> Some Dir -> dirs_kept disk (<[loc := File text]> disk).
Proof.
  intros Hnode k Hk. destruct (decide (k = loc)) as [-> | Hne]; [done |].
  destruct k as [|x k]; [done |]. cbn in *. by rewrite lookup_insert_ne.
Qed.

Lemma delete_file_dirs_kept (disk : fs) (loc : list string) (text : string) :
  node_at disk loc = Some (File text) -> dirs_kept disk (delete loc disk).
Proof.
  intros Hnode k Hk. destruct (decide (k = loc)) as [-> | Hne]; [congruence |].
  destruct k as [|x k]; [done |]. cbn in *. by rewrite lookup_delete_ne.
Qed.

Lemma dirs_kept_refl (disk : fs) : dirs_kept disk disk.
Proof. by intros loc. Qed.

Lemma dirs_kept_trans (d1 d2 d3 : fs) :
  dirs_kept d1 d2 -> dirs_kept d2 d3 -> dirs_kept d1 d3.
Proof. intros H1 H2 loc Hl. by apply H2, H1. Qed.

(** [os.path.isdir]: the name, without the slashes at its end, leads to a
    directory. *)
Lemma walk_rstrip (disk : fs) (name : string) (loc : list string) :
  walk disk [] (split_on sep name) = At loc ->
  walk disk [] (split_on sep (rstrip_sep name)) = At loc.
Proof.
  destruct (split_on_rstrip name) as (k & ->). rewrite walk_app.
  destruct (walk disk [] (split_on sep (rstrip_sep name))) as [p| | |];
    try done.
  rewrite walk_empties_end. destruct k; [done |].
  intros H. by apply checked_At in H as [-> _].
Qed.

Lemma walk_rstrip_dir (disk : fs) (name : string) (loc : list string) :
  walk disk [] (split_on sep (rstrip_sep name)) = At loc ->
  node_at disk loc = Some Dir ->
  walk disk [] (split_on sep name) = At loc.
Proof.
  intros Hw Hd. destruct (split_on_rstrip name) as (k & ->).
  rewrite walk_app, Hw, walk_empties_end. destruct k; [done |].
  by apply checked_of_dir.
Qed.

Lemma walk_rstrip_fails (disk : fs) (name : string) :
  (forall loc, walk disk [] (split_on sep (rstrip_sep name)) <> At loc) ->
  forall loc, walk disk [] (split_on sep name) <> At loc.
Proof. intros H loc Hw. apply walk_rstrip in Hw. by apply (H loc). Qed.

Lemma os_path_isdir_spec (name : string) (disk : fs) :
  os_path_isdir name disk = true
  <-> name <> EmptyString /\ fsencode_error name = None
      /\ exists loc,
           walk disk [] (split_on sep (rstrip_sep name)) = At loc
           /\ node_at disk loc = Some Dir.
Proof.
  unfold os_path_isdir, resolve.
  destruct (str_eqb name EmptyString) eqn:Hne.
  { apply str_eqb_eq in Hne. split; [done | by intros [? _]]. }
  apply str_eqb_neq in Hne.
  destruct (fsencode_error name) as [msg|]; [split; [done | by intros (_ & ? & _)] |].
  split.
  - destruct (walk disk [] (split_on sep name)) as [loc| | |] eqn:Hw; try done.
    destruct (node_at disk loc) as [[t|]|] eqn:Hn; try done. intros _.
    repeat split; try done. exists loc. split; [by apply walk_rstrip | done].
  - intros (_ & _ & loc & Hw & Hn).
    by rewrite (walk_rstrip_dir _ _ _ Hw Hn), Hn.
Qed.

Lemma os_path_exists_walk (name : string) (disk : fs) :
  os_path_exists name disk = true ->
  name <> EmptyString /\ fsencode_error name = None
  /\ exists loc,
       walk disk [] (split_on sep (rstrip_sep name)) = At loc
       /\ is_Some (node_at disk loc).
Proof.
  unfold os_path_exists, resolve.
  destruct (str_eqb name EmptyString) eqn:Hne; [done |].
  apply str_eqb_neq in Hne.
  destruct (fsencode_error name) as [msg|]; [done |].
  destruct (walk disk [] (split_on sep name)) as [loc| | |] eqn:Hw; try done.
  destruct (node_at disk loc) as [n|] eqn:Hn; [| done]. intros _.
  repeat split; try done. exists loc. split; [by apply walk_rstrip | by eexists].
Qed.

Lemma os_path_isdir_exists (name : string) (disk : fs) :
  os_path_isdir name disk = true -> os_path_exists name disk = true.
Proof.
  unfold os_path_isdir, os_path_exists. destruct (resolve name disk); try done.
  by destruct (node_at disk loc) as [[|]|].
Qed.


Lemma os_path_exists_kept (name : string) (disk disk' : fs) :
  disk ⊆ disk' ->
  os_path_exists name disk = true -> os_path_exists name disk' = true.
Proof.
  intros Hsub. unfold os_path_exists, resolve.
  destruct (str_eqb name EmptyString); [done |].
  destruct (fsencode_error name); [done |].
  destruct (walk disk [] (split_on sep name)) as [loc| | |] eqn:Hw; try done.
  rewrite (walk_kept disk disk' _ _ _ (subseteq_dirs_kept _ _ Hsub) Hw).
  destruct (node_at disk loc) as [n|] eqn:Hn; [| done].
  by rewrite (subseteq_node_at _ _ _ _ Hsub Hn).
Qed.

(** When the name leads somewhere, its head is a directory. *)
Lemma head_is_dir (name head tail : string) (disk : fs) (loc : list string) :
  split_twice name = (head, tail) ->
  head <> EmptyString -> tail <> EmptyString ->
  fsencode_error name = None ->
  walk disk [] (split_on sep (rstrip_sep name)) = At loc ->
  os_path_isdir head disk = true.
Proof.
  intros Hsplit Hhead Htail Henc Hw.
  destruct (split_twice_spec _ _ _ Hsplit Hhead Htail)
    as (_ & _ & Hhenc & _ & Hwalk).
  rewrite Hwalk in Hw.
  destruct (walk disk [] (split_on sep head)) as [p| | |] eqn:Hp; try done.
  rewrite walk_cons in Hw.
  destruct (checked disk p) eqn:Hc; try done.
  apply checked_At in Hc as [-> Hd].
  unfold os_path_isdir, resolve.
  apply str_eqb_neq in Hhead. rewrite Hhead, (Hhenc Henc), Hp, Hd. done.
Qed.

Lemma head_exists (name head tail : string) (disk : fs) :
  split_twice name = (head, tail) ->
  head <> EmptyString -> tail <> EmptyString ->
  os_path_exists name disk = true -> os_path_exists head disk = true.
Proof.
  intros Hsplit Hhead Htail (_ & Henc & loc & Hw & _)%os_path_exists_walk.
  apply os_path_isdir_exists. by eapply head_is_dir.
Qed.

(** [os.mkdir] *)
Lemma lookup_error_not_exists (l : lookup) (name : string) :
  is_FileExistsError (lookup_error l name) = false.
Proof. by destruct l. Qed.

Lemma os_mkdir_ok (name : string) (disk disk' : fs) (u : unit) :
  os_mkdir name disk = (Ok u, disk') ->
  name <> EmptyString /\ fsencode_error name = None
  /\ exists loc,
       walk disk [] (split_on sep (rstrip_sep name)) = At loc
       /\ node_at disk loc = None /\ disk' = <[loc := Dir]> disk.
Proof.
  unfold os_mkdir. destruct (str_eqb name EmptyString) eqn:Hne; [done |].
  apply str_eqb_neq in Hne.
  destruct (fsencode_error name) as [msg|]; [done |].
  destruct (walk disk [] (split_on sep (rstrip_sep name))) as [loc| | |];
    try done.
  destruct (node_at disk loc) eqn:Hn; [done |].
  intros [= <-]. repeat split; try done. by exists loc.
Qed.

Lemma os_mkdir_raise (name : string) (disk disk' : fs) (e : exn) :
  os_mkdir name disk = (Raise e, disk') ->
  disk' = disk
  /\ (is_FileExistsError e = true ->
      name <> EmptyString /\ fsencode_error name = None
      /\ exists loc,
           walk disk [] (split_on sep (rstrip_sep name)) = At loc
           /\ is_Some (node_at disk loc))
  /\ (is_FileExistsError e = false -> os_path_exists name disk = false).
Proof.
  unfold os_mkdir, os_path_exists, resolve.
  destruct (str_eqb name EmptyString) eqn:Hne.
  { intros [= <- <-]. split; [done |]. split; [by intros [=] | done]. }
  apply str_eqb_neq in Hne.
  destruct (fsencode_error name) as [msg|].
  { intros [= <- <-]. split; [done |]. split; [by intros [=] | done]. }
  destruct (walk disk [] (split_on sep (rstrip_sep name))) as [loc| | |] eqn:Hw.
  - destruct (node_at disk loc) as [n|] eqn:Hn; [| done].
    intros [= <- <-]. split; [done |]. split; [| done]. intros _.
    repeat split; try done. exists loc. split; [done | by eexists].
  - intros [= <- <-]. split; [done |]. split; [done |]. intros _.
    destruct (walk disk [] (split_on sep name)) as [loc| | |] eqn:Hw2; try done.
    apply walk_rstrip in Hw2. congruence.
  - intros [= <- <-]. split; [done |]. split; [done |]. intros _.
    destruct (walk disk [] (split_on sep name)) as [loc| | |] eqn:Hw2; try done.
    apply walk_rstrip in Hw2. congruence.
  - intros [= <- <-]. split; [done |]. split; [done |]. intros _.
    destruct (walk disk [] (split_on sep name)) as [loc| | |] eqn:Hw2; try done.
    apply walk_rstrip in Hw2. congruence.
Qed.

(** [mkdir] with [exist_ok]: the directory is made, or the disk stays as
    it is. *)
Lemma mkdir_exist_ok_cases (name : string) (disk disk' : fs) (r : result unit) :
  mkdir_exist_ok name disk = (r, disk') ->
  (disk' = disk
   /\ match r with
      | Ok _ => os_path_isdir name disk = true
      | Raise e =>
          os_path_isdir name disk = false
          /\ (is_FileExistsError e = true ->
              fsencode_error name = None
              /\ exists loc,
                   walk disk [] (split_on sep (rstrip_sep name)) = At loc)
          /\ (is_FileExistsError e = false -> os_path_exists name disk = false)
      end)
  \/ (r = Ok () /\ name <> EmptyString /\ fsencode_error name = None
      /\ exists loc,
           walk disk [] (split_on sep (rstrip_sep name)) = At loc
           /\ node_at disk loc = None /\ disk' = <[loc := Dir]> disk).
Proof.
  unfold mkdir_exist_ok.
  destruct (os_mkdir name disk) as [[[] | e] d] eqn:Hmk.
  - intros [= <- <-]. right. apply os_mkdir_ok in Hmk. by split.
  - apply os_mkdir_raise in Hmk as (-> & Hfee & Hother).
    destruct (os_path_isdir name disk) eqn:Hdir.
    + destruct (is_OSError e) eqn:Hos; cbn [andb]; intros [= <- <-]; left.
      * done.
      * split; [done |]. exfalso.
        destruct (is_FileExistsError e) eqn:Hk.
        -- clear -Hk Hos. unfold is_OSError, is_FileExistsError in *.
           by destruct (exn_kind e).
        -- apply os_path_isdir_exists in Hdir. by rewrite Hother in Hdir.
    + rewrite andb_false_r. intros [= <- <-]. left. split; [done |].
      split; [done |]. split; [| done].
      intros Hk. destruct (Hfee Hk) as (_ & Henc & loc & Hw & _). eauto.
Qed.

Lemma mkdir_exist_ok_frame (name : string) (disk disk' : fs) (r : result unit) :
  mkdir_exist_ok name disk = (r, disk') ->
  disk ⊆ disk'
  /\ forall loc,
       disk !! loc = None -> is_Some (disk' !! loc) ->
       disk' !! loc = Some Dir
       /\ walk disk' [] (split_on sep (rstrip_sep name)) = At loc.
Proof.
  intros [(-> & _) | (_ & _ & _ & loc0 & Hw & Hn & ->)]%mkdir_exist_ok_cases.
  - split; [done |]. intros loc Hnone [n Hsome]. congruence.
  - apply node_at_None in Hn as [Hne Hn].
    assert (Hsub : disk ⊆ <[loc0 := Dir]> disk) by by apply insert_subseteq.
    split; [done |]. intros loc Hnone [n Hsome].
    destruct (decide (loc = loc0)) as [-> | Hdiff].
    + split; [by rewrite lookup_insert_eq |].
      eapply walk_kept; [by apply subseteq_dirs_kept | done].
    + rewrite lookup_insert_ne in Hsome by done. congruence.
Qed.

Lemma mkdir_exist_ok_again (name : string) (disk disk' : fs) (r : result unit) :
  mkdir_exist_ok name disk = (r, disk') -> mkdir_exist_ok name disk' = (r, disk').
Proof.
  intros H.
  destruct (mkdir_exist_ok_cases _ _ _ _ H)
    as [(-> & _) | (-> & Hne & Henc & loc & Hw & Hn & ->)]; [done |].
  apply node_at_None in Hn as [Hloc Hn].
  assert (Hkept : dirs_kept disk (<[loc := Dir]> disk))
    by by apply subseteq_dirs_kept, insert_subseteq.
  assert (Hdir : os_path_isdir name (<[loc := Dir]> disk) = true).
  { apply os_path_isdir_spec. repeat split; try done. exists loc.
    split; [by eapply walk_kept | by apply node_at_insert_eq]. }
  unfold mkdir_exist_ok, os_mkdir.
  apply str_eqb_neq in Hne. rewrite Hne, Henc.
  rewrite (walk_kept _ _ _ _ _ Hkept Hw), node_at_insert_eq by done.
  by rewrite Hdir.
Qed.

(** [os.makedirs] keeps what is on the disk; what it adds are directories,
    each at a place that a head of the name leads to. *)
Lemma makedirs_frame (fuel : nat) (name : string) (disk disk' : fs)
    (r : result unit) :
  makedirs fuel name disk = (r, disk') ->
  disk ⊆ disk'
  /\ forall loc,
       disk !! loc = None -> is_Some (disk' !! loc) ->
       disk' !! loc = Some Dir
       /\ exists comps,
            comps `prefix_of` split_on sep (rstrip_sep name)
            /\ walk disk' [] comps = At loc.
Proof.
  revert name disk disk' r. induction fuel as [|fuel IH];
    intros name disk disk' r.
  { intros [= <- <-]. split; [done |]. intros loc Hn [n Hs]. congruence. }
  assert (Hlast : forall d, mkdir_exist_ok name d = (r, disk') ->
            d ⊆ disk'
            /\ forall loc, d !! loc = None -> is_Some (disk' !! loc) ->
                 disk' !! loc = Some Dir
                 /\ exists comps,
                      comps `prefix_of` split_on sep (rstrip_sep name)
                      /\ walk disk' [] comps = At loc).
  { intros d [Hsub Hnew]%mkdir_exist_ok_frame. split; [done |].
    intros loc Hn Hs. destruct (Hnew loc Hn Hs) as [Hd Hw].
    split; [done |]. by eexists. }
  cbn [makedirs]. destruct (split_twice name) as [head tail] eqn:Hsplit.
  destruct (negb (str_eqb head EmptyString) && negb (str_eqb tail EmptyString)
            && negb (os_path_exists head disk)) eqn:Hdescend; [| apply Hlast].
  apply andb_true_iff in Hdescend as [[Hhead Htail]%andb_true_iff _].
  apply negb_true_iff, str_eqb_neq in Hhead, Htail.
  destruct (split_twice_spec _ _ _ Hsplit Hhead Htail) as (_ & _ & _ & Hpre & _).
  destruct (makedirs fuel head disk) as [rh d1] eqn:Hrec.
  destruct (IH _ _ _ _ Hrec) as [Hsub1 Hnew1].
  assert (Hafter :
            d1 ⊆ disk' ->
            (forall loc, d1 !! loc = None -> is_Some (disk' !! loc) ->
               disk' !! loc = Some Dir
               /\ exists comps,
                    comps `prefix_of` split_on sep (rstrip_sep name)
                    /\ walk disk' [] comps = At loc) ->
            disk ⊆ disk'
            /\ forall loc, disk !! loc = None -> is_Some (disk' !! loc) ->
                 disk' !! loc = Some Dir
                 /\ exists comps,
                      comps `prefix_of` split_on sep (rstrip_sep name)
                      /\ walk disk' [] comps = At loc).
  { intros Hsub2 Hnew2. split; [by etrans |].
    intros loc Hn Hs. destruct (d1 !! loc) as [n|] eqn:Hd1.
    - destruct (Hnew1 loc Hn (ex_intro _ n Hd1)) as (Hdir & comps & Hp & Hw).
      split; [by eapply lookup_weaken |]. exists comps.
      split; [by etrans |].
      eapply walk_kept; [by apply subseteq_dirs_kept | done].
    - by apply Hnew2. }
  assert (Hstay : forall r0, (r0, d1) = (r, disk') ->
            disk ⊆ disk'
            /\ forall loc, disk !! loc = None -> is_Some (disk' !! loc) ->
                 disk' !! loc = Some Dir
                 /\ exists comps,
                      comps `prefix_of` split_on sep (rstrip_sep name)
                      /\ walk disk' [] comps = At loc).
  { intros r0 [= _ <-]. apply Hafter; [done |].
    intros loc Hn [n Hs]. congruence. }
  assert (Hmk : mkdir_exist_ok name d1 = (r, disk') ->
            disk ⊆ disk'
            /\ forall loc, disk !! loc = None -> is_Some (disk' !! loc) ->
                 disk' !! loc = Some Dir
                 /\ exists comps,
                      comps `prefix_of` split_on sep (rstrip_sep name)
                      /\ walk disk' [] comps = At loc).
  { intros H. destruct (Hlast d1 H) as [Hsub2 Hnew2]. by apply Hafter. }
  destruct rh as [[] | e].
  - destruct (str_eqb tail "."); [apply Hstay | apply Hmk].
  - destruct (is_FileExistsError e); [| apply Hstay].
    destruct (str_eqb tail "."); [apply Hstay | apply Hmk].
Qed.

Lemma makedirs_subseteq (fuel : nat) (name : string) (disk disk' : fs)
    (r : result unit) :
  makedirs fuel name disk = (r, disk') -> disk ⊆ disk'.
Proof. intros H. by apply makedirs_frame in H as [? _]. Qed.

(** A directory that is there is left as it is. *)
Lemma makedirs_of_dir (fuel : nat) (name : string) (disk : fs) :
  os_path_isdir name disk = true ->
  makedirs (S fuel) name disk = (Ok (), disk).
Proof.
  intros Hdir. pose proof Hdir as (Hne & Henc & loc & Hw & Hn)%os_path_isdir_spec.
  assert (Hlast : mkdir_exist_ok name disk = (Ok (), disk)).
  { unfold mkdir_exist_ok, os_mkdir. apply str_eqb_neq in Hne.
    rewrite Hne, Henc, Hw, Hn. by rewrite Hdir. }
  cbn [makedirs]. destruct (split_twice name) as [head tail] eqn:Hsplit.
  destruct (negb (str_eqb head EmptyString) && negb (str_eqb tail EmptyString)
            && negb (os_path_exists head disk)) eqn:Hdescend; [| done].
  apply andb_true_iff in Hdescend as [[Hhead Htail]%andb_true_iff Hex].
  apply negb_true_iff, str_eqb_neq in Hhead, Htail.
  apply negb_true_iff in Hex.
  pose proof (head_is_dir _ _ _ _ _ Hsplit Hhead Htail Henc Hw) as Hh.
  apply os_path_isdir_exists in Hh. congruence.
Qed.

(** When [os.makedirs] returns, the name is a directory, unless its last
    component is a dot. *)
Lemma makedirs_ok (fuel : nat) (name : string) (disk disk' : fs) (u : unit) :
  makedirs fuel name disk = (Ok u, disk') ->
  (split_twice name).2 <> "." ->
  os_path_isdir name disk' = true.
Proof.
  destruct fuel as [|fuel]; [done |]. cbn [makedirs].
  destruct (split_twice name) as [head tail] eqn:Hsplit. cbn [snd].
  intros H Htail.
  assert (Hlast : forall d, mkdir_exist_ok name d = (Ok u, disk') ->
            os_path_isdir name disk' = true).
  { intros d [(-> & Hdir) | (_ & Hne & Henc & loc & Hw & Hn & ->)]%mkdir_exist_ok_cases;
      [done |].
    apply node_at_None in Hn as [Hloc Hn].
    apply os_path_isdir_spec. repeat split; try done. exists loc. split.
    - eapply walk_kept; [| done]. by apply subseteq_dirs_kept, insert_subseteq.
    - by apply node_at_insert_eq. }
  apply str_eqb_neq in Htail. rewrite Htail in H.
  destruct (negb (str_eqb head EmptyString) && negb (str_eqb tail EmptyString)
            && negb (os_path_exists head disk)); [| by eapply Hlast].
  destruct (makedirs fuel head disk) as [[[] | e] d1]; [by eapply Hlast |].
  destruct (is_FileExistsError e); [by eapply Hlast | done].
Qed.

(** When [os.makedirs] raises another exception than [FileExistsError],
    nothing is at the name. *)
Lemma makedirs_raise (fuel : nat) (name : string) (disk disk' : fs) (e : exn) :
  (str_length name < fuel)%nat ->
  makedirs fuel name disk = (Raise e, disk') ->
  is_FileExistsError e = false ->
  os_path_exists name disk' = false.
Proof.
  revert name disk disk' e. induction fuel as [|fuel IH];
    intros name disk disk' e Hfuel; [lia |].
  cbn [makedirs]. destruct (split_twice name) as [head tail] eqn:Hsplit.
  intros H Hkind.
  assert (Hlast : forall d, mkdir_exist_ok name d = (Raise e, disk') ->
            os_path_exists name disk' = false).
  { intros d [(-> & _ & _ & Hother) | (? & _)]%mkdir_exist_ok_cases; [auto | done]. }
  destruct (negb (str_eqb head EmptyString) && negb (str_eqb tail EmptyString)
            && negb (os_path_exists head disk)) eqn:Hdescend; [| by eapply Hlast].
  apply andb_true_iff in Hdescend as [[Hhead Htail]%andb_true_iff _].
  apply negb_true_iff, str_eqb_neq in Hhead, Htail.
  destruct (split_twice_spec _ _ _ Hsplit Hhead Htail) as (_ & Hlen & _).
  destruct (makedirs fuel head disk) as [[[] | e1] d1] eqn:Hrec.
  - destruct (str_eqb tail "."); [done | by eapply Hlast].
  - destruct (is_FileExistsError e1) eqn:Hk1.
    + destruct (str_eqb tail "."); [done | by eapply Hlast].
    + injection H as <- <-.
      assert (Hh : os_path_exists head d1 = false)
        by (eapply IH; [| done | done]; lia).
      destruct (os_path_exists name d1) eqn:Hex; [| done].
      apply (head_exists _ _ _ _ Hsplit Hhead Htail) in Hex. congruence.
Qed.

(** A name whose last component is a dot is never made by [mkdir]. *)
Lemma mkdir_exist_ok_dot (name head : string) (disk disk' : fs)
    (r : result unit) :
  split_twice name = (head, ".") -> head <> EmptyString ->
  mkdir_exist_ok name disk = (r, disk') -> disk' = disk.
Proof.
  intros Hsplit Hhead
    [(-> & _) | (_ & _ & _ & loc & Hw & Hn & _)]%mkdir_exist_ok_cases; [done |].
  destruct (split_twice_spec _ _ _ Hsplit Hhead) as (_ & _ & _ & _ & Hwalk);
    [done |].
  rewrite Hwalk in Hw.
  destruct (walk disk [] (split_on sep head)) as [p| | |]; try done.
  rewrite walk_cons in Hw. destruct (checked disk p) eqn:Hc; try done.
  apply checked_At in Hc as [-> Hd]. cbn in Hw. injection Hw as <-.
  change (enter p ".") with p in Hn. congruence.
Qed.

(** Making the directories again changes nothing, and raises when it
    raised the first time. *)
Lemma makedirs_again (fuel : nat) (name : string) (disk d1 : fs)
    (r1 : result unit) :
  (str_length name < fuel)%nat ->
  makedirs fuel name disk = (r1, d1) ->
  exists r2,
    makedirs fuel name d1 = (r2, d1)
    /\ forall e1, r1 = Raise e1 ->
         exists e2, r2 = Raise e2
                    /\ is_FileExistsError e2 = is_FileExistsError e1.
Proof.
  revert name disk d1 r1. induction fuel as [|fuel IH];
    intros name disk d1 r1 Hfuel; [lia |].
  cbn [makedirs]. destruct (split_twice name) as [head tail] eqn:Hsplit.
  (* the last lines, run again on the disk they left *)
  assert (Hlast : forall d,
            (negb (str_eqb head EmptyString) && negb (str_eqb tail EmptyString)
             && negb (os_path_exists head d) = false) ->
            mkdir_exist_ok name d = (r1, d1) ->
            exists r2,
              (if negb (str_eqb head EmptyString)
                  && negb (str_eqb tail EmptyString)
                  && negb (os_path_exists head d1)
               then
                 match makedirs fuel head d1 with
                 | (Raise e, disk1) =>
                     if is_FileExistsError e then
                       if str_eqb tail "." then (Ok (), disk1)
                       else mkdir_exist_ok name disk1
                     else (Raise e, disk1)
                 | (Ok _, disk1) =>
                     if str_eqb tail "." then (Ok (), disk1)
                     else mkdir_exist_ok name disk1
                 end
               else mkdir_exist_ok name d1) = (r2, d1)
              /\ forall e1, r1 = Raise e1 ->
                   exists e2, r2 = Raise e2
                              /\ is_FileExistsError e2 = is_FileExistsError e1).
  { intros d Hno Hmk. exists r1.
    assert (Hno1 : negb (str_eqb head EmptyString)
                   && negb (str_eqb tail EmptyString)
                   && negb (os_path_exists head d1) = false).
    { destruct (negb (str_eqb head EmptyString)
                && negb (str_eqb tail EmptyString)) eqn:Hht; [| done].
      cbn [andb] in *. apply negb_false_iff in Hno. apply negb_false_iff.
      apply mkdir_exist_ok_frame in Hmk as [Hsub _].
      by eapply os_path_exists_kept. }
    rewrite Hno1. split; [by apply mkdir_exist_ok_again in Hmk | eauto]. }
  destruct (negb (str_eqb head EmptyString) && negb (str_eqb tail EmptyString)
            && negb (os_path_exists head disk)) eqn:Hdescend;
    [| by apply Hlast].
  pose proof Hdescend as [[Hhead Htail]%andb_true_iff _]%andb_true_iff.
  apply negb_true_iff, str_eqb_neq in Hhead, Htail.
  destruct (split_twice_spec _ _ _ Hsplit Hhead Htail) as (_ & Hlen & _).
  destruct (makedirs fuel head disk) as [rh dh] eqn:Hrec.
  destruct (IH head disk dh rh ltac:(lia) Hrec) as (rh2 & Hrec2 & Hclass).
  (* the recursive call raised, and not because the head exists *)
  assert (Hpass : forall e, rh = Raise e -> is_FileExistsError e = false ->
            (Raise e, dh) = (r1, d1) ->
            exists r2,
              (if negb (str_eqb head EmptyString)
                  && negb (str_eqb tail EmptyString)
                  && negb (os_path_exists head d1)
               then
                 match makedirs fuel head d1 with
                 | (Raise e, disk1) =>
                     if is_FileExistsError e then
                       if str_eqb tail "." then (Ok (), disk1)
                       else mkdir_exist_ok name disk1
                     else (Raise e, disk1)
                 | (Ok _, disk1) =>
                     if str_eqb tail "." then (Ok (), disk1)
                     else mkdir_exist_ok name disk1
                 end
               else mkdir_exist_ok name d1) = (r2, d1)
              /\ forall e1, r1 = Raise e1 ->
                   exists e2, r2 = Raise e2
                              /\ is_FileExistsError e2 = is_FileExistsError e1).
  { intros e -> Hk [= <- <-].
    assert (Hex : os_path_exists head dh = false)
      by (eapply makedirs_raise; [| done | done]; lia).
    apply str_eqb_neq in Hhead, Htail. rewrite Hhead, Htail, Hex. cbn [negb andb].
    rewrite Hrec2. destruct (Hclass e eq_refl) as (e2 & -> & Hk2).
    rewrite Hk2, Hk. exists (Raise e2). split; [done |].
    intros e1 [= <-]. exists e2. by rewrite Hk2, Hk. }
  (* the recursive call returned, or raised because the head exists *)
  assert (Hgo : (forall e, rh = Raise e -> is_FileExistsError e = true) ->
            (if str_eqb tail "." then (Ok (), dh) else mkdir_exist_ok name dh)
              = (r1, d1) ->
            exists r2,
              (if negb (str_eqb head EmptyString)
                  && negb (str_eqb tail EmptyString)
                  && negb (os_path_exists head d1)
               then
                 match makedirs fuel head d1 with
                 | (Raise e, disk1) =>
                     if is_FileExistsError e then
                       if str_eqb tail "." then (Ok (), disk1)
                       else mkdir_exist_ok name disk1
                     else (Raise e, disk1)
                 | (Ok _, disk1) =>
                     if str_eqb tail "." then (Ok (), disk1)
                     else mkdir_exist_ok name disk1
                 end
               else mkdir_exist_ok name d1) = (r2, d1)
              /\ forall e1, r1 = Raise e1 ->
                   exists e2, r2 = Raise e2
                              /\ is_FileExistsError e2 = is_FileExistsError e1).
  { intros Hrh Hrest.
    destruct (str_eqb tail ".") eqn:Hdot.
    - (* the name ends in a dot *)
      apply str_eqb_eq in Hdot as ->. injection Hrest as <- <-.
      destruct (negb (str_eqb head EmptyString) && negb (str_eqb "." EmptyString)
                && negb (os_path_exists head dh)) eqn:Hd2.
      + rewrite Hrec2. destruct rh2 as [[] | e2].
        * by eexists.
        * destruct (is_FileExistsError e2); by eexists.
      + destruct (mkdir_exist_ok name dh) as [r2 d2] eqn:Hmk.
        rewrite (mkdir_exist_ok_dot _ _ _ _ _ Hsplit Hhead Hmk). by eexists.
    - destruct (mkdir_exist_ok_cases _ _ _ _ Hrest)
        as [(-> & Hr1) | (-> & Hne & Henc & loc & Hw & Hn & ->)].
      + (* the disk is as the recursive call left it *)
        destruct (negb (str_eqb head EmptyString)
                  && negb (str_eqb tail EmptyString)
                  && negb (os_path_exists head dh)) eqn:Hd2;
          [| exists r1; split; [done | eauto]].
        apply andb_true_iff in Hd2 as [_ Hex%negb_true_iff].
        rewrite Hrec2. destruct rh2 as [[] | e2].
        * exists r1. split; [done | eauto].
        * destruct (is_FileExistsError e2) eqn:Hk2;
            [exists r1; split; [done | eauto] |].
          exists (Raise e2). split; [done |]. intros e1 ->.
          exists e2. split; [done |]. rewrite Hk2. symmetry.
          destruct Hr1 as (_ & Hfee & _).
          destruct (is_FileExistsError e1) eqn:Hk1; [| done].
          destruct (Hfee eq_refl) as (Henc & loc & Hw).
          pose proof (head_is_dir _ _ _ _ _ Hsplit Hhead Htail Henc Hw) as Hh.
          apply os_path_isdir_exists in Hh. congruence.
      + (* the directory was made *)
        pose proof (head_is_dir _ _ _ _ _ Hsplit Hhead Htail Henc Hw) as Hh.
        apply node_at_None in Hn as [Hloc Hn].
        assert (Hsub : dh ⊆ <[loc := Dir]> dh) by by apply insert_subseteq.
        apply os_path_isdir_exists in Hh.
        rewrite (os_path_exists_kept _ _ _ Hsub Hh), andb_false_r.
        exists (Ok ()). split; [by apply mkdir_exist_ok_again in Hrest | done]. }
  destruct rh as [[] | e].
  - apply Hgo. by intros e [=].
  - destruct (is_FileExistsError e) eqn:Hk.
    + apply Hgo. by intros e0 [= <-].
    + by apply (Hpass e).
Qed.

Lemma os_makedirs_subseteq (name : string) (disk disk' : fs) (r : result unit) :
  os_makedirs name disk = (r, disk') -> disk ⊆ disk'.
Proof. apply makedirs_subseteq. Qed.

Lemma os_makedirs_of_dir (name : string) (disk : fs) :
  os_path_isdir name disk = true -> os_makedirs name disk = (Ok (), disk).
Proof. apply makedirs_of_dir. Qed.

Lemma os_makedirs_ok (name : string) (disk disk' : fs) (u : unit) :
  os_makedirs name disk = (Ok u, disk') ->
  (split_twice name).2 <> "." ->
  os_path_isdir name disk' = true.
Proof. apply makedirs_ok. Qed.

Lemma os_makedirs_again (name : string) (disk d1 : fs) (r1 : result unit) :
  os_makedirs name disk = (r1, d1) ->
  exists r2,
    os_makedirs name d1 = (r2, d1)
    /\ forall e1, r1 = Raise e1 -> exists e2, r2 = Raise e2.
Proof.
  intros H. apply makedirs_again in H as (r2 & H2 & Hclass); [| lia].
  exists r2. split; [done |]. intros e1 He.
  destruct (Hclass e1 He) as (e2 & -> & _). by exists e2.
Qed.


(** [open(path, 'w')] *)
Lemma os_open_w_ok (path : string) (disk disk' : fs) (handle : list string) :
  os_open_w path disk = (Ok handle, disk') ->
  path <> EmptyString /\ fsencode_error path = None
  /\ endswith_char path sep = false
  /\ walk disk [] (split_on sep path) = At handle
  /\ handle = locate path /\ handle <> []
  /\ node_at disk handle <> Some Dir
  /\ disk' = <[handle := File EmptyString]> disk.
Proof.
  unfold os_open_w. destruct (str_eqb path EmptyString) eqn:Hne; [done |].
  apply str_eqb_neq in Hne.
  destruct (fsencode_error path) as [msg|]; [done |].
  destruct (endswith_char path sep).
  { destruct (walk disk [] (split_on sep (rstrip_sep path))) as [loc| | |];
      try done. by destruct (node_at disk loc) as [[t|]|]. }
  destruct (walk disk [] (split_on sep path)) as [loc| | |] eqn:Hw; try done.
  destruct (node_at disk loc) as [[t|]|] eqn:Hn; try done;
    intros [= <- <-];
    (assert (Hnot : node_at disk loc <> Some Dir) by (by rewrite Hn));
    (assert (Hnil : loc <> []) by (intros ->; by apply Hnot));
    repeat split; try done; by apply walk_locate in Hw.
Qed.

Lemma os_open_w_raise (path : string) (disk disk' : fs) (e : exn) :
  os_open_w path disk = (Raise e, disk') -> disk' = disk.
Proof.
  unfold os_open_w. destruct (str_eqb path EmptyString); [by intros [= _ <-] |].
  destruct (fsencode_error path) as [msg|]; [by intros [= _ <-] |].
  destruct (endswith_char path sep).
  { destruct (walk disk [] (split_on sep (rstrip_sep path))) as [loc| | |];
      try (by intros [= _ <-]).
    destruct (node_at disk loc) as [[t|]|]; by intros [= _ <-]. }
  destruct (walk disk [] (split_on sep path)) as [loc| | |];
    try (by intros [= _ <-]).
  destruct (node_at disk loc) as [[t|]|]; try done; by intros [= _ <-].
Qed.



(** [file_write] *)
Lemma file_write_cases (loc : list string) (content : pyval) (disk disk' : fs)
    (r : result unit) :
  file_write loc content disk = (r, disk') ->
  (exists e, r = Raise e /\ disk' = disk)
  \/ (exists text, content = PStr text /\ r = Ok ()
                   /\ disk' = <[loc := File text]> disk).
Proof.
  unfold file_write. destruct content; try (intros [= <- <-]; left; by eexists).
  destruct (utf8_encode_error _); intros [= <- <-];
    [left; by eexists | right; by eexists].
Qed.


Lemma write_file_holds (base_dir : string) (relative_path : pyval)
    (text : string) (disk disk' : fs) :
  write_file base_dir relative_path (PStr text) disk = (Ok (), disk') ->
  (exists full_path,
     get_full_path base_dir relative_path = Ok full_path
     /\ resolve full_path disk' = At (locate full_path)
     /\ disk' !! locate full_path = Some (File text))
  /\ read_file base_dir relative_path disk' = Ok (universal_newlines text).
Proof.
  unfold write_file, read_file.
  destruct (get_full_path base_dir relative_path) as [full | e]; [| done].
  destruct (os_makedirs (dirname full) disk) as [[[] | e] dm]; [| done].
  destruct (os_open_w full dm) as [[handle | e] do] eqn:Hopen; [| done].
  apply os_open_w_ok in Hopen
    as (Hne & Henc & Hend & Hw & Hloc & Hnil & Hnode & ->).
  intros [(e & [=] & _) | (t & [= <-] & _ & ->)]%file_write_cases.
  rewrite insert_insert_eq. cbn [mbind result_bind].
  assert (Hres : resolve full (<[handle := File text]> dm) = At handle).
  { unfold resolve. apply str_eqb_neq in Hne. rewrite Hne, Henc.
    eapply walk_kept; [| done]. by apply insert_file_dirs_kept. }
  rewrite Hres, node_at_insert_eq by done. split; [| done].
  exists full. subst handle. split; [done |]. split; [done |].
  by rewrite lookup_insert_eq.
Qed.

(** [FileManager.delete_file] *)
Lemma delete_file_cases (base_dir : string) (relative_path : pyval)
    (disk disk' : fs) (r : result unit) :
  delete_file base_dir relative_path disk = (r, disk') ->
  disk' = disk
  \/ (r = Ok ()
      /\ exists full_path text,
           get_full_path base_dir relative_path = Ok full_path
           /\ resolve full_path disk = At (locate full_path)
           /\ locate full_path <> []
           /\ disk !! locate full_path = Some (File text)
           /\ disk' = delete (locate full_path) disk).
Proof.
  unfold delete_file.
  destruct (get_full_path base_dir relative_path) as [full | e];
    [| intros [= _ <-]; by left].
  destruct (os_path_exists full disk); [| intros [= _ <-]; by left].
  unfold os_remove.
  destruct (resolve full disk) as [loc| | |] eqn:Hres;
    try (intros [= _ <-]; by left).
  pose proof (resolve_locate _ _ _ Hres) as ->.
  destruct (node_at disk (locate full)) as [[text|]|] eqn:Hn;
    try (intros [= _ <-]; by left).
  intros [= <- <-]. right. split; [done |]. exists full, text.
  assert (Hnil : locate full <> []) by (intros E; by rewrite E in Hn).
  repeat split; try done.
  rewrite <- Hn. symmetry. by apply node_at_lookup.
Qed.


(** ** The two kinds of file action *)

Section ActionFacts.
Context (console : string -> option string).
Context (py_str : pyval -> string).




End ActionFacts.


(** A file written with carriage returns is read with line feeds. *)
Example read_back_translates_newlines :
  let disk : fs := {[ ["work"] := Dir; ["work"; "app"] := Dir ]} in
  let text := "a" +:+ String "013" (String "010" "b") in
  let written := write_file "/work/app" (PStr "notes.txt") (PStr text) disk in
  written.1 = Ok ()
  /\ written.2 !! ["work"; "app"; "notes.txt"] = Some (File text)
  /\ read_file "/work/app" (PStr "notes.txt") written.2
     = Ok ("a" +:+ String "010" "b").
Proof. cbv zeta. split; [reflexivity |]. split; [by vm_compute | reflexivity]. Qed.

(** Writing twice need not raise the same exception: the first write below
    makes the directory [m] and fails to open the file, the second fails
    already when it makes the directories. *)
Example second_write_raises_differently :
  let disk : fs := {[ ["work"] := Dir; ["work"; "app"] := Dir;
                      ["work"; "app"; "f"] := File EmptyString ]} in
  let first := write_file "/work/app" (PStr "m/../f/./x") (PStr EmptyString) disk in
  first.1 = Raise (os_error "[Errno 20] Not a directory" "/work/app/m/../f/./x")
  /\ first.2 = <[ ["work"; "app"; "m"] := Dir ]> disk
  /\ write_file "/work/app" (PStr "m/../f/./x") (PStr EmptyString) first.2
     = (Raise (os_error "[Errno 20] Not a directory" "/work/app/m/../f/."),
        first.2).
Proof. cbv zeta. split; [reflexivity |]. split; reflexivity. Qed.
(* ===================================================================== *)
(** * 16. Shell actions and the cycle *)
(* ===================================================================== *)

(** What is printed *)
Lemma py_print_ascii (console : string -> option string) (text : string) :
  is_ascii text = true -> py_print console text = Ok ().
Proof. intros H. unfold py_print. by rewrite H. Qed.

Lemma py_print_raise (console : string -> option string) (text : string)
    (e : exn) :
  py_print console text = Raise e ->
  exn_kind e = UnicodeEncodeError /\ console text = Some (exn_message e).
Proof.
  unfold py_print. destruct (is_ascii text); [done |].
  destruct (console text) as [msg|]; [| done]. by intros [= <-].
Qed.

Lemma is_ascii_app (a b : string) :
  is_ascii (a +:+ b) = is_ascii a && is_ascii b.
Proof.
  induction a as [|c a IH]; [done |]. rewrite str_app_cons. cbn [is_ascii].
  rewrite IH. by rewrite andb_assoc.
Qed.

Lemma pretty_N_go_ascii (x : N) (s : string) :
  is_ascii s = true -> is_ascii (pretty_N_go x s) = true.
Proof.
  revert s. induction (N.lt_wf_0 x) as [x _ IH]; intros s Hs.
  destruct (decide (x = 0)%N) as [-> | Hx]; [by rewrite pretty_N_go_0 |].
  rewrite pretty_N_go_step by lia. apply IH.
  - apply N.div_lt; lia.
  - cbn [is_ascii]. rewrite Hs, andb_true_r.
    unfold pretty_N_char. by repeat case_match.
Qed.

Lemma pretty_N_ascii (x : N) : is_ascii (pretty x) = true.
Proof.
  unfold pretty, pretty_N. destruct (decide (x = 0)%N); [done |].
  by apply pretty_N_go_ascii.
Qed.

Lemma pretty_Z_ascii (z : Z) : is_ascii (pretty z) = true.
Proof.
  unfold pretty, pretty_Z. destruct z as [|p|p]; [done | |].
  - apply (pretty_N_ascii (Npos p)).
  - rewrite is_ascii_app. apply andb_true_iff.
    split; [done | apply (pretty_N_ascii (Npos p))].
Qed.

(** The lines that report a round with an empty transcript can always be
    printed. *)
Lemma report_iteration_empty (console : string -> option string) (i : Z) :
  report_iteration console i (analyze EmptyString) = Ok ().
Proof.
  unfold report_iteration.
  assert (H1 : py_print console
                 (nl +:+ "Iteration " +:+ pretty (i + 1) +:+ " completed.")
               = Ok ()).
  { apply py_print_ascii. rewrite !is_ascii_app, pretty_Z_ascii.
    reflexivity. }
  rewrite H1. cbn [mbind result_bind].
  change (analyze EmptyString)
    with (Analysis false None None false "Empty result" None).
  cbn [success reason].
  rewrite (py_print_ascii console ("Status: " +:+ "Failed")) by reflexivity.
  cbn [mbind result_bind]. by apply py_print_ascii.
Qed.

Section EngineFacts.
Context {Ext : Type}.
Context (spawn : string -> string -> Z -> world Ext -> proc_outcome * world Ext).
Context (getcwd : world Ext -> result string).
Context (console : string -> option string).
Context (generate_code : string -> Z -> option string -> world Ext ->
                    result response * world Ext).
Context (py_str : pyval -> string).
Context (recursion_limit : nat).




(** What the loop appends for one command. *)
Lemma shell_step_blocks (wd cmd : string) (w w' : world Ext)
    (r : result unit) (blocks : list string) :
  shell_step spawn getcwd console wd cmd w = (r, blocks, w') ->
  match r with
  | Ok _ => exists out, blocks = [command_block cmd out]
  | Raise _ => blocks = [] \/ exists out, blocks = [command_block cmd out]
  end.
Proof.
  unfold shell_step.
  destruct (py_print console ("Executing: " +:+ cmd)); [| intros [= <- <- _]; by left].
  destruct (execute spawn getcwd wd cmd 300 w) as [[out | e] w1];
    [| intros [= <- <- _]; by left].
  intros [= <- <- _].
  destruct (py_print console (result_line out)); [| right]; by exists out.
Qed.

Lemma shell_loop_blocks (wd : string) (cmds : list string) (w w' : world Ext)
    (acc all_results : list string) :
  shell_loop spawn getcwd console py_str wd (PStr <$> cmds) w acc
    = (Ok all_results, w') ->
  exists blocks,
    Forall2 command_blocks cmds blocks
    /\ all_results = acc ++ concat blocks.
Proof.
  revert w acc. induction cmds as [|cmd rest IH]; intros w acc.
  - cbn. intros [= <- <-]. exists []. by rewrite app_nil_r.
  - cbn [fmap list_fmap shell_loop cmd_text fmt].
    destruct (shell_step spawn getcwd console wd cmd w) as [[r bs] w1] eqn:Hstep.
    apply shell_step_blocks in Hstep. destruct r as [[] | e].
    + destruct Hstep as (out & ->). intros Hloop.
      destruct (IH _ _ Hloop) as (blocks & Hall & ->).
      exists ([command_block cmd out] :: blocks).
      split; [constructor; [constructor | done] |].
      cbn [concat]. by rewrite <- app_assoc.
    + destruct (py_print console ("Error: " +:+ error_msg cmd e)); [| done].
      intros Hloop. destruct (IH _ _ Hloop) as (blocks & Hall & ->).
      exists ((bs ++ [error_block cmd e]) :: blocks). split.
      * constructor; [| done].
        destruct Hstep as [-> | (out & ->)]; constructor.
      * cbn [concat]. by rewrite <- !app_assoc.
Qed.

Lemma shell_loop_raise (wd : string) (cmds : list pyval) (w w' : world Ext)
    (acc : list string) (e : exn) :
  shell_loop spawn getcwd console py_str wd cmds w acc = (Raise e, w') ->
  exn_kind e = UnicodeEncodeError
  /\ exists text, console text = Some (exn_message e).
Proof.
  revert w acc. induction cmds as [|cmd rest IH]; intros w acc; [done |].
  cbn [shell_loop].
  destruct (shell_step spawn getcwd console wd (cmd_text py_str cmd) w)
    as [[[[] | e1] bs] w1]; [apply IH |].
  destruct (py_print console ("Error: " +:+ error_msg (cmd_text py_str cmd) e1))
    as [[] | e2] eqn:Hp; [apply IH |].
  intros [= <- <-]. apply py_print_raise in Hp as [Hk Hc]. eauto.
Qed.


(** The analysis of a round is the analysis of its transcript. *)
Lemma run_iteration_analysis (app : autocodeforge) (topic : string) (i : Z)
    (current_result : option string) (w w1 : world Ext) (actions : pyval)
    (result : string) (a : analysis) :
  run_iteration spawn getcwd console generate_code py_str recursion_limit app
    topic i current_result w = (Ok (actions, result, a), w1) ->
  a = analyze result.
Proof.
  unfold run_iteration.
  destruct (generate_code topic i current_result w) as [[reply | e] w0]; [| done].
  destruct (parse_response recursion_limit reply) as [acts | e]; [| done].
  destruct (actions_get acts "file_actions") as [fa | e]; [| done].
  destruct (execute_file_actions _ _ _ fa _) as [[lg | e] disk]; [| done].
  destruct (actions_get acts "shell_actions") as [sa | e]; [| done].
  destruct (execute_shell_actions _ _ _ _ _ sa _) as [[res | e] w2]; [| done].
  by intros [= _ <- <- _].
Qed.

Lemma ends_history_cons (rec : iteration_record) (rest : list iteration_record) :
  terminate (ir_outcome rec) = false -> ends_history rest ->
  ends_history (rec :: rest).
Proof.
  intros Hrec Hrest [|k] rec' Hk Ht.
  - injection Hk as <-. congruence.
  - cbn. f_equal. by eapply Hrest.
Qed.

Lemma ends_history_one (rec : iteration_record) : ends_history [rec].
Proof. intros [|k] rec' Hk Ht; [done | by destruct k]. Qed.

Lemma cycle_loop_spec (app : autocodeforge) (topic : string) (remaining : nat)
    (i : Z) (current_result : option string) (w : world Ext)
    (history : list iteration_record) :
  exists new how w' w_last,
    cycle_loop spawn getcwd console generate_code py_str recursion_limit app
      topic remaining i current_result w history = (history ++ new, how, w')
    /\ (forall k rec, new !! k = Some rec -> ir_index rec = i + Z.of_nat k)
    /\ rounds spawn getcwd console generate_code py_str recursion_limit app
         topic i current_result w new w_last
    /\ ends_history new
    /\ (length new <= remaining)%nat
    /\ match how with
       | ExhaustedIterations =>
           length new = remaining
           /\ Forall (fun rec => terminate (ir_outcome rec) = false) new
           /\ w' = w_last
       | Terminated =>
           (exists init last,
              new = init ++ [last] /\ terminate (ir_outcome last) = true)
           /\ w' = w_last
       | Aborted _ => True
       end.
Proof.
  revert i current_result w history.
  induction remaining as [|remaining IH]; intros i cur w history.
  - exists [], ExhaustedIterations, w, w. cbn. rewrite app_nil_r.
    split; [done |]. split; [by intros k rec Hk |].
    split; [constructor |]. split; [by intros k rec Hk |]. split; [done |].
    split; [done |]. split; [constructor | done].
  - cbn [cycle_loop].
    destruct (run_iteration spawn getcwd console generate_code py_str
                recursion_limit app topic i cur w)
      as [[[[actions result] a] | e] w1] eqn:Hiter.
    2:{ exists [], (Aborted e), w1, w. rewrite app_nil_r.
        split; [done |]. split; [by intros k rec Hk |].
        split; [constructor |]. split; [by intros k rec Hk |].
        split; [cbn; lia | done]. }
    pose proof (run_iteration_analysis _ _ _ _ _ _ _ _ _ Hiter) as ->.
    assert (Hone : rounds spawn getcwd console generate_code py_str
                     recursion_limit app topic i cur w
                     [IterationRecord i actions result (analyze result)] w1)
      by (econstructor; [done | constructor]).
    assert (Hidx1 : forall k rec,
              [IterationRecord i actions result (analyze result)] !! k = Some rec ->
              ir_index rec = i + Z.of_nat k).
    { intros [|k] rec Hk; [| done]. injection Hk as <-. cbn. lia. }
    destruct (report_iteration console i (analyze result)) as [[] | e].
    2:{ exists [IterationRecord i actions result (analyze result)],
          (Aborted e), w1, w1.
        split; [done |]. split; [done |]. split; [done |].
        split; [apply ends_history_one |]. split; [cbn; lia | done]. }
    destruct (terminate (analyze result)) eqn:Hterm.
    + destruct (py_print console _) as [[] | e].
      * exists [IterationRecord i actions result (analyze result)],
          Terminated, w1, w1.
        split; [done |]. split; [done |]. split; [done |].
        split; [apply ends_history_one |]. split; [cbn; lia |].
        split; [| done]. by exists [], (IterationRecord i actions result (analyze result)).
      * exists [IterationRecord i actions result (analyze result)],
          (Aborted e), w1, w1.
        split; [done |]. split; [done |]. split; [done |].
        split; [apply ends_history_one |]. split; [cbn; lia | done].
    + destruct (IH (i + 1) (Some result) w1
                  (history ++ [IterationRecord i actions result (analyze result)]))
        as (new & how & w' & w_last & Hloop & Hidx & Hrounds & Hends & Hlen & Hhow).
      exists (IterationRecord i actions result (analyze result) :: new),
        how, w', w_last.
      split; [by rewrite Hloop, <- app_assoc |]. split.
      { intros [|k] rec Hk.
        - injection Hk as <-. cbn. lia.
        - cbn in Hk. rewrite (Hidx _ _ Hk). lia. }
      split; [by econstructor |].
      split; [by apply ends_history_cons |]. split; [cbn; lia |].
      destruct how as [| | e].
      * destruct Hhow as [(init & last & -> & Hlast) ->]. split; [| done].
        by exists (IterationRecord i actions result (analyze result) :: init), last.
      * destruct Hhow as (Hl & Hall & ->).
        split; [cbn; lia |]. split; [by constructor | done].
      * done.
Qed.

(** C5 (amended).  With a bound of at least one iteration, the run goes
    through rounds with the indices 0, 1, 2, ..., each given the transcript
    of the round before it and starting in the world that round left, and
    never more rounds than the bound.  When the outcome of a round asks to
    terminate, that round is the last one of the run: no other is started,
    whatever is left of the bound.  A run that no exception leaves, and in
    which no outcome asks to terminate, has exactly as many rounds as the
    bound and stops because the iterations are exhausted; a run that no
    exception leaves ends in the world its last round left.  A run that
    stops because an outcome asked to terminate did so at its last round,
    and a run that stops because the iterations are exhausted had no
    outcome that asked to terminate. *)
Theorem run_cycle_iteration_bound (app : autocodeforge) (topic : string)
    (iterations : Z) (w w' : world Ext) (history : list iteration_record)
    (how : stop) :
  1 <= iterations ->
  run_cycle spawn getcwd console generate_code py_str recursion_limit app topic
    iterations w = (history, how, w') ->
  Z.of_nat (length history) <= iterations
  /\ (forall k rec, history !! k = Some rec -> ir_index rec = Z.of_nat k)
  /\ (exists w_last,
        rounds spawn getcwd console generate_code py_str recursion_limit app
          topic 0 None w history w_last
        /\ ((forall e, how <> Aborted e) -> w' = w_last))
  /\ (forall k rec,
        history !! k = Some rec -> terminate (ir_outcome rec) = true ->
        length history = S k
        /\ ((forall e, how <> Aborted e) -> how = Terminated))
  /\ ((forall e, how <> Aborted e) ->
      Forall (fun rec => terminate (ir_outcome rec) = false) history ->
      Z.of_nat (length history) = iterations /\ how = ExhaustedIterations)
  /\ (how = Terminated ->
      exists init last,
        history = init ++ [last] /\ terminate (ir_outcome last) = true)
  /\ (how = ExhaustedIterations ->
      Z.of_nat (length history) = iterations
      /\ Forall (fun rec => terminate (ir_outcome rec) = false) history).
Proof.
  intros Hn. unfold run_cycle.
  destruct (cycle_loop_spec app topic (Z.to_nat iterations) 0 None w [])
    as (new & how0 & w0 & w_last & Hloop & Hidx & Hrounds & Hends & Hlen & Hhow).
  rewrite Hloop, app_nil_l.
  replace (iterations <=? 0) with false by (symmetry; apply Z.leb_gt; lia).
  assert (Hindex : forall k rec, new !! k = Some rec -> ir_index rec = Z.of_nat k)
    by (intros k rec Hk; rewrite (Hidx _ _ Hk); lia).
  assert (Hcommon :
            new = history -> (how0 = how \/ exists e, Aborted e = how) ->
            w0 = w' ->
            Z.of_nat (length history) <= iterations
            /\ (forall k rec, history !! k = Some rec -> ir_index rec = Z.of_nat k)
            /\ (exists w_last,
                  rounds spawn getcwd console generate_code py_str
                    recursion_limit app topic 0 None w history w_last
                  /\ ((forall e, how <> Aborted e) -> w' = w_last))
            /\ (forall k rec,
                  history !! k = Some rec -> terminate (ir_outcome rec) = true ->
                  length history = S k
                  /\ ((forall e, how <> Aborted e) -> how = Terminated))
            /\ ((forall e, how <> Aborted e) ->
                Forall (fun rec => terminate (ir_outcome rec) = false) history ->
                Z.of_nat (length history) = iterations
                /\ how = ExhaustedIterations)
            /\ (how = Terminated ->
                exists init last,
                  history = init ++ [last]
                  /\ terminate (ir_outcome last) = true)
            /\ (how = ExhaustedIterations ->
                Z.of_nat (length history) = iterations
                /\ Forall (fun rec => terminate (ir_outcome rec) = false)
                     history)).
  { intros <- Hhow1 <-.
    split; [lia |]. split; [done |]. split.
    { exists w_last. split; [done |]. intros Hno.
      destruct Hhow1 as [<- | [e <-]]; [| by destruct (Hno e)].
      destruct how0 as [| | e]; [by destruct Hhow | | by destruct (Hno e)].
      by destruct Hhow as (_ & _ & ->). }
    split.
    { intros k rec Hk Ht. split; [by eapply Hends |]. intros Hno.
      destruct Hhow1 as [<- | [e <-]]; [| by destruct (Hno e)].
      destruct how0 as [| | e]; [done | | by destruct (Hno e)].
      destruct Hhow as (_ & Hall & _). rewrite Forall_lookup in Hall.
      specialize (Hall _ _ Hk). cbn in Hall. congruence. }
    split.
    { intros Hno Hall.
      destruct Hhow1 as [<- | [e <-]]; [| by destruct (Hno e)].
      destruct how0 as [| | e]; [| | by destruct (Hno e)].
      - destruct Hhow as [(init & last & -> & Hlast) _].
        rewrite Forall_app, Forall_singleton in Hall. destruct Hall as [_ Hl].
        congruence.
      - destruct Hhow as (Hl & _). split; [lia | done]. }
    split.
    { intros E. destruct Hhow1 as [-> | [e He]]; [| congruence].
      subst how. by destruct Hhow. }
    intros E. destruct Hhow1 as [-> | [e He]]; [| congruence].
    subst how. destruct Hhow as (Hl & Hall & _). split; [lia | done]. }
  destruct how0 as [| | e].
  - destruct (report_cycle console app (Z.of_nat (length new))) as [[] | e];
      intros [= Hh Hk Hw]; apply Hcommon; eauto.
  - destruct (report_cycle console app (Z.of_nat (length new))) as [[] | e];
      intros [= Hh Hk Hw]; apply Hcommon; eauto.
  - intros [= Hh Hk Hw]. apply Hcommon; eauto.
Qed.

(** C10.  The empty transcript is classified as not successful, not
    terminating, with the reason "Empty result", and its analysis has no
    [has_error] and no [success_patterns] entry: the tables are not
    consulted.  An empty list of shell actions gives the empty transcript
    (when the directory check returns), and after an iteration with an empty
    transcript the loop goes on with the next index and what is left of the
    bound. *)
Theorem empty_transcript_continues :
  analyze EmptyString = Analysis false None None false "Empty result" None
  /\ (forall app w w1 check_dir,
        execute spawn getcwd (project_path app) check_cmd 300 w
          = (Ok check_dir, w1) ->
        execute_shell_actions spawn getcwd console py_str app (PList []) w
        = (Ok EmptyString, after_directory_check app check_dir w1))
  /\ (forall app topic remaining i current_result w history actions a w1,
        run_iteration spawn getcwd console generate_code py_str recursion_limit
          app topic i current_result w = (Ok (actions, EmptyString, a), w1) ->
        cycle_loop spawn getcwd console generate_code py_str recursion_limit app
          topic (S remaining) i current_result w history
        = cycle_loop spawn getcwd console generate_code py_str recursion_limit
            app topic remaining (i + 1) (Some EmptyString) w1
            (history ++ [IterationRecord i actions EmptyString
                           (analyze EmptyString)])).
Proof.
  split; [done |]. split.
  - intros app w w1 check_dir Hcheck. unfold execute_shell_actions.
    by rewrite Hcheck.
  - intros app topic remaining i cur w history actions a w1 Hiter.
    pose proof (run_iteration_analysis _ _ _ _ _ _ _ _ _ Hiter) as ->.
    cbn [cycle_loop]. rewrite Hiter.
    assert (Hrep : report_iteration console i (analyze EmptyString) = Ok ())
      by apply report_iteration_empty.
    by rewrite Hrep.
Qed.

End EngineFacts.
(* ===================================================================== *)
(** * 17. The engine in the example environment *)
(* ===================================================================== *)



Example transcript_of_raising_command :
  (execute_shell_actions example_spawn example_getcwd utf8_console
     example_py_str example_app
     (PList [PStr wipe_cmd; PStr "python main.py"]) example_world).1
  = Ok (command_block wipe_cmd EmptyString +:+ nl
        +:+ error_block "python main.py"
              (os_error "[Errno 20] Not a directory" "/work/app")).
Proof. by vm_compute. Qed.

(** A command that the console cannot announce is not executed and leaves
    an error block; when the console cannot print that error either, the
    call raises. *)
Example transcript_of_unprintable_command :
  execute_shell_actions example_spawn example_getcwd
    (fun text => if contains lone_surrogate text && negb (startswith text "Error: ")
                 then utf8_console text else None)
    example_py_str example_app
    (PList [PStr ("echo " +:+ lone_surrogate); PStr "echo hi"]) example_world
  = (Ok (error_block ("echo " +:+ lone_surrogate)
           (Exn UnicodeEncodeError
              "'utf-8' codec can't encode character '\ud800' in position 16: surrogates not allowed")
         +:+ nl +:+ command_block "echo hi" ("ran echo hi" +:+ nl)),
     example_world)
  /\ (execute_shell_actions example_spawn example_getcwd utf8_console
        example_py_str example_app
        (PList [PStr ("echo " +:+ lone_surrogate); PStr "echo hi"])
        example_world).1
     = Raise (Exn UnicodeEncodeError
         "'utf-8' codec can't encode character '\ud800' in position 37: surrogates not allowed").
Proof. split; by vm_compute. Qed.

Lemma run_cycle_iteration_bound_witness :
  let r := run_cycle example_spawn example_getcwd utf8_console
             example_generate_code example_py_str 1000
             example_app "calculator" 3 example_world in
  Z.of_nat (length r.1.1) = 3 /\ r.1.2 = ExhaustedIterations.
Proof.
  intros r.
  refine (proj1 (proj2 (proj2 (proj2 (proj2
    (run_cycle_iteration_bound example_spawn example_getcwd utf8_console
       example_generate_code example_py_str
       1000 example_app "calculator" 3 example_world r.2 r.1.1 r.1.2 _ _)))))
    _ _).
  - lia.
  - subst r. by destruct (run_cycle _ _ _ _ _ _ _ _ _ _) as [[? ?] ?].
  - intros e. vm_compute. discriminate.
  - vm_compute. repeat constructor.
Defined.

(** C5 as stated fails: an exception that leaves a round ends the run.
    With a bound of three and a generator whose second call raises, no
    outcome asks to terminate, and the run has one round and does not stop
    because the iterations are exhausted. *)
Lemma run_cycle_iteration_bound_counterexample :
  let r := run_cycle example_spawn example_getcwd utf8_console
             flaky_generate_code example_py_str 1000
             example_app "calculator" 3 example_world in
  length r.1.1 = 1%nat
  /\ Forall (fun rec => terminate (ir_outcome rec) = false) r.1.1
  /\ r.1.2 = Aborted (Exn GeneratorError "Connection error.").
Proof.
  cbv zeta. split; [by vm_compute |]. split; [| by vm_compute].
  vm_compute. repeat constructor.
Qed.

Lemma empty_transcript_continues_witness :
  execute_shell_actions example_spawn example_getcwd utf8_console
    example_py_str example_app (PList []) example_world
  = (Ok EmptyString,
     after_directory_check example_app ("/work/app" +:+ nl) example_world).
Proof.
  apply (proj1 (proj2 (empty_transcript_continues example_spawn example_getcwd
                         utf8_console example_generate_code example_py_str
                         1000))).
  vm_compute. reflexivity.
Defined.

(** With processes that print "Goal achieved", the first iteration asks to
    terminate and the run stops after it, whatever the bound. *)
Example run_cycle_terminates_early :
  let r := run_cycle
             (fun wd cmd timeout w => (Exited 0 "Goal achieved" EmptyString, w))
             example_getcwd utf8_console
             example_generate_code example_py_str 1000
             example_app "calculator" 5 example_world in
  length r.1.1 = 1%nat /\ r.1.2 = Terminated.
Proof. by vm_compute. Qed.
(* ===================================================================== *)
(** * 18. The summary and the reason of the classifier *)
(* ===================================================================== *)

Lemma join_cons (sp p : string) (q : string) (rest : list string) :
  join sp (p :: q :: rest) = p +:+ sp +:+ join sp (q :: rest).
Proof. reflexivity. Qed.

(** [sep.join(s.split(sep)) == s] *)
Lemma join_split_on (c : ascii) (s : string) :
  join (String c EmptyString) (split_on c s) = s.
Proof.
  induction s as [|a s IH]; [done |]. simpl.
  destruct (ascii_eqb a c) eqn:E.
  - apply ascii_eqb_eq in E as ->.
    pose proof (split_on_nonempty c s) as Hne.
    destruct (split_on c s) as [|p ps]; [done |].
    rewrite join_cons, IH. by str_simpl.
  - pose proof (split_on_nonempty c s) as Hne.
    destruct (split_on c s) as [|p ps]; [done |].
    destruct ps as [|q ps].
    + simpl in *. by rewrite IH.
    + rewrite join_cons in *. rewrite <- IH. by str_simpl.
Qed.

(** The pieces of a split do not contain the separator. *)
Lemma split_on_pieces (c : ascii) (s : string) :
  Forall (fun p => find_char c p = None) (split_on c s).
Proof.
  induction s as [|a s IH]; [by repeat constructor |]. simpl.
  destruct (ascii_eqb a c) eqn:E; [by constructor |].
  pose proof (split_on_nonempty c s) as Hne.
  destruct (split_on c s) as [|p ps]; [done |].
  inversion IH as [|? ? Hp Hps]; subst. constructor; [| done].
  simpl. by rewrite E, Hp.
Qed.

Lemma split_on_app (c : ascii) (p s : string) :
  find_char c p = None ->
  split_on c (p +:+ String c s) = p :: split_on c s.
Proof.
  induction p as [|a p IH]; intros Hp; str_simpl.
  - by rewrite ascii_eqb_refl.
  - simpl in Hp. destruct (ascii_eqb a c); [done |].
    rewrite IH; [done |]. by destruct (find_char c p).
Qed.

Lemma split_on_whole (c : ascii) (p : string) :
  find_char c p = None -> split_on c p = [p].
Proof.
  induction p as [|a p IH]; intros Hp; [done |]. simpl in *.
  destruct (ascii_eqb a c); [done |].
  rewrite IH; [done |]. by destruct (find_char c p).
Qed.

(** [sep.join(parts).split(sep) == parts] when no part contains the
    separator and there is a part. *)
Lemma split_on_join (c : ascii) (parts : list string) :
  parts <> [] ->
  Forall (fun p => find_char c p = None) parts ->
  split_on c (join (String c EmptyString) parts) = parts.
Proof.
  induction parts as [|p ps IH]; [done |]. intros _ Hall.
  inversion Hall as [|? ? Hp Hps]; subst.
  destruct ps as [|q ps]; [by apply split_on_whole |].
  rewrite join_cons. rewrite str_app_cons, str_app_nil_l.
  rewrite split_on_app by done. f_equal. by apply IH.
Qed.

(** The lines the summary is joined from. *)
Lemma summary_lines (t : string) :
  exists lines : list string,
    _summarize_result t = join nl lines
    /\ lines <> []
    /\ (length lines <= 11)%nat
    /\ Forall (fun p => find_char "010"%char p = None) lines
    /\ take 5 lines = take 5 (split_on "010"%char (strip t)).
Proof.
  unfold _summarize_result.
  set (lines := split_on "010"%char (strip t)).
  set (marked := filter _ (drop 5 lines)).
  assert (Hne : lines <> []) by apply split_on_nonempty.
  assert (Hall : Forall (fun p => find_char "010"%char p = None) lines)
    by apply split_on_pieces.
  assert (Hall' : Forall (fun p => find_char "010"%char p = None)
                    (take 5 lines ++ marked)).
  { apply Forall_app. split; [by apply Forall_take |].
    apply Forall_forall. intros x Hx. apply list_elem_of_filter in Hx as [_ Hx].
    revert x Hx. apply Forall_forall, Forall_drop, Hall. }
  assert (Htake : take 5 (take 5 lines ++ marked) = take 5 lines).
  { destruct (decide (length lines <= 5)%nat) as [Hle | Hgt].
    - unfold marked. rewrite (drop_ge lines 5) by lia.
      rewrite filter_nil, app_nil_r. by rewrite take_take.
    - rewrite take_app_le by (rewrite length_take; lia).
      by rewrite take_take. }
  destruct (10 <? Z.of_nat (length (take 5 lines ++ marked))) eqn:Hlong.
  - exists (take 10 (take 5 lines ++ marked) ++ ["..."]). split; [done |].
    apply Z.ltb_lt in Hlong.
    split; [by destruct (take 10 (take 5 lines ++ marked)) |].
    split; [rewrite length_app, length_take; cbn [length]; lia |].
    split.
    + apply Forall_app. split; [by apply Forall_take |]. by repeat constructor.
    + rewrite take_app_le by (rewrite length_take; lia).
      rewrite take_take. exact Htake.
  - exists (take 5 lines ++ marked). split; [done |].
    apply Z.ltb_ge in Hlong.
    split; [destruct lines; [done | done] |].
    split; [lia |]. by split.
Qed.

(** X1.  [ResultAnalyzer._summarize_result]: the summary has at most eleven
    lines, and its first five lines are the first five lines of the
    stripped transcript. *)
Theorem summary_at_most_eleven_lines (transcript : string) :
  (length (split_on "010"%char (_summarize_result transcript)) <= 11)%nat
  /\ take 5 (split_on "010"%char (_summarize_result transcript))
     = take 5 (split_on "010"%char (strip transcript)).
Proof.
  destruct (summary_lines transcript) as (lines & -> & Hne & Hlen & Hall & Htake).
  unfold nl. by rewrite split_on_join.
Qed.

(** X2.  [ResultAnalyzer._summarize_result]: a transcript of at most five
    lines, once stripped, is its own summary. *)
Theorem summary_of_short_transcript (transcript : string) :
  (length (split_on "010"%char (strip transcript)) <= 5)%nat ->
  _summarize_result transcript = strip transcript.
Proof.
  intros Hlen. unfold _summarize_result.
  rewrite (drop_ge _ 5) by lia. rewrite filter_nil, app_nil_r.
  rewrite take_ge by lia.
  destruct (10 <? _) eqn:Hlong; [apply Z.ltb_lt in Hlong; lia |].
  apply join_split_on.
Qed.

Lemma summary_of_short_transcript_witness :
  _summarize_result ("  Build successful" +:+ nl +:+ "done" +:+ nl)
  = "Build successful" +:+ nl +:+ "done".
Proof.
  apply (summary_of_short_transcript ("  Build successful" +:+ nl +:+ "done" +:+ nl)).
  vm_compute. lia.
Defined.


Lemma free_of_cons (excluded : list ascii) (c : ascii) (g : string) :
  existsb (ascii_eqb c) excluded = false -> free_of excluded g ->
  free_of excluded (String c g).
Proof.
  intros Hc Hg x Hx. simpl. destruct (ascii_eqb c x) eqn:E.
  - apply ascii_eqb_eq in E as ->.
    assert (existsb (ascii_eqb x) excluded = true); [| congruence].
    apply existsb_exists. exists x. by rewrite ascii_eqb_refl.
  - by rewrite (Hg x Hx).
Qed.

Lemma free_of_inv (excluded : list ascii) (c : ascii) (g : string) :
  free_of excluded (String c g) ->
  existsb (ascii_eqb c) excluded = false /\ free_of excluded g.
Proof.
  intros H. split.
  - destruct (existsb (ascii_eqb c) excluded) eqn:E; [| done].
    apply existsb_exists in E as (x & Hx & Hcx). specialize (H x Hx).
    simpl in H. by rewrite Hcx in H.
  - intros x Hx. specialize (H x Hx). simpl in H.
    destruct (ascii_eqb c x); [done |]. by destruct (find_char x g).
Qed.

Lemma span_outside_spec (excluded : list ascii) (s run rest : string) :
  span_outside excluded s = (run, rest) ->
  s = run +:+ rest /\ free_of excluded run.
Proof.
  revert run rest. induction s as [|c s IH]; intros run rest H; simpl in H.
  - by injection H as <- <-.
  - destruct (existsb (ascii_eqb c) excluded) eqn:E.
    + by injection H as <- <-.
    + destruct (span_outside excluded s) as [run' rest'].
      injection H as <- <-. destruct (IH _ _ eq_refl) as [-> Hfree].
      split; [done |]. by apply free_of_cons.
Qed.

Lemma span_outside_app (excluded : list ascii) (g s : string) :
  free_of excluded g ->
  span_outside excluded (g +:+ s)
  = ((g +:+ (span_outside excluded s).1), (span_outside excluded s).2).
Proof.
  induction g as [|c g IH]; intros Hfree; str_simpl.
  - by destruct (span_outside excluded s).
  - apply free_of_inv in Hfree as [Hc Hg]. rewrite Hc, (IH Hg). done.
Qed.

Lemma longest_before_sound (closing run rest g : string) :
  longest_before closing run rest = Some g ->
  g <> EmptyString
  /\ exists run2, run = g +:+ run2 /\ startswith (run2 +:+ rest) closing = true.
Proof.
  revert g. induction run as [|c run IH]; intros g H; simpl in H; [done |].
  destruct (longest_before closing run rest) as [g' |].
  - injection H as <-. destruct (IH _ eq_refl) as (_ & run2 & -> & Hs).
    split; [done |]. by exists run2.
  - destruct (startswith (run +:+ rest) closing) eqn:E; [| done].
    injection H as <-. split; [done |]. by exists run.
Qed.

Lemma longest_before_complete (closing g run2 rest : string) :
  g <> EmptyString -> startswith (run2 +:+ rest) closing = true ->
  exists g', longest_before closing (g +:+ run2) rest = Some g'.
Proof.
  induction g as [|c g IH]; intros Hne Hs; [done |]. str_simpl.
  destruct g as [|c' g].
  - rewrite str_app_nil_l, Hs.
    destruct (longest_before closing run2 rest); eauto.
  - destruct IH as [g' ->]; [done | done |]. eauto.
Qed.

(** What [search_group] finds is a match of the pattern. *)
Lemma search_group_sound (opening : string) (excluded : list ascii)
    (closing text g : string) :
  search_group opening excluded closing text = Some g ->
  g <> EmptyString /\ free_of excluded g
  /\ contains (opening +:+ g +:+ closing) text = true.
Proof.
  assert (Hhere : forall text g,
    (if startswith text opening then
       let '(run, rest) :=
         span_outside excluded (str_drop (str_length opening) text) in
       longest_before closing run rest
     else None) = Some g ->
    g <> EmptyString /\ free_of excluded g
    /\ contains (opening +:+ g +:+ closing) text = true).
  { clear. intros text g H.
    destruct (startswith text opening) eqn:Hs; [| done].
    destruct (startswith_inv _ _ Hs) as [tail ->].
    rewrite str_drop_app in H.
    destruct (span_outside excluded tail) as [run rest] eqn:Hspan.
    apply span_outside_spec in Hspan as [-> Hfree].
    apply longest_before_sound in H as (Hne & run2 & -> & Hcl).
    split; [done |]. split.
    - intros c Hc. specialize (Hfree c Hc). revert Hfree. clear.
      induction g as [|x g IH]; str_simpl; [done |].
      destruct (ascii_eqb x c); [done |].
      destruct (find_char c (g +:+ run2)) eqn:E; [done |]. intros _.
      by rewrite IH.
    - destruct (startswith_inv _ _ Hcl) as [post Hpost].
      rewrite str_app_assoc, Hpost.
      pose proof (contains_intro EmptyString (opening +:+ g +:+ closing) post) as Hc.
      rewrite str_app_nil_l in Hc. by rewrite !str_app_assoc in *. }
  induction text as [|x text IH]; intros H.
  - cbn [search_group] in H.
    destruct (if startswith EmptyString opening then _ else None) eqn:E; [| done].
    injection H as ->. by apply Hhere.
  - cbn [search_group] in H.
    destruct (if startswith (String x text) opening then _ else None) eqn:E.
    + injection H as ->. by apply Hhere.
    + destruct (IH H) as (Hne & Hfree & Hc). split; [done |]. split; [done |].
      simpl. rewrite Hc. apply orb_true_r.
Qed.

(** Where the pattern has a match, [search_group] finds one. *)
Lemma search_group_complete (opening : string) (excluded : list ascii)
    (closing text g : string) :
  g <> EmptyString -> free_of excluded g ->
  contains (opening +:+ g +:+ closing) text = true ->
  exists g', search_group opening excluded closing text = Some g'.
Proof.
  intros Hne Hfree.
  assert (Hhere : forall text,
    startswith text (opening +:+ g +:+ closing) = true ->
    exists g',
      (if startswith text opening then
         let '(run, rest) :=
           span_outside excluded (str_drop (str_length opening) text) in
         longest_before closing run rest
       else None) = Some g').
  { intros text' Hs. destruct (startswith_inv _ _ Hs) as [post ->].
    rewrite !str_app_assoc, startswith_app, str_drop_app.
    rewrite span_outside_app by done.
    destruct (span_outside excluded (closing +:+ post)) as [run2 rest] eqn:Hspan.
    cbn [fst snd]. apply span_outside_spec in Hspan as [Heq _].
    apply longest_before_complete; [done |]. rewrite <- Heq.
    apply startswith_app. }
  induction text as [|x text IH]; intros Hc.
  - simpl in Hc. rewrite orb_false_r in Hc.
    destruct (Hhere _ Hc) as [g' Hg']. exists g'.
    cbn [search_group]. by rewrite Hg'.
  - simpl in Hc. cbn [search_group].
    destruct (if startswith (String x text) opening then _ else None) eqn:E;
      [eauto |].
    apply orb_true_iff in Hc as [Hc | Hc]; [| by apply IH].
    destruct (Hhere _ Hc) as [g' Hg']. congruence.
Qed.

Lemma first_reason_sound (table : list (string * list ascii * string * string))
    (t r : string) :
  first_reason table t = Some r ->
  exists opening excluded closing label g,
    In (opening, excluded, closing, label) table
    /\ r = label +:+ g /\ g <> EmptyString /\ free_of excluded g
    /\ contains (opening +:+ g +:+ closing) t = true.
Proof.
  induction table as [|[[[opening excluded] closing] label] rest IH];
    simpl; [done |].
  destruct (search_group opening excluded closing t) as [g |] eqn:E.
  - intros [= <-]. apply search_group_sound in E as (Hne & Hfree & Hc).
    exists opening, excluded, closing, label, g. auto.
  - intros H. destruct (IH H) as (o & ex & cl & lb & g & Hin & Hrest).
    exists o, ex, cl, lb, g. auto.
Qed.

(** X3.  [ResultAnalyzer._determine_reason]: the reason given for a run
    that failed without ending the cycle is the fixed text, or the label of
    a row of the table followed by a text [g] that is not empty, has none of
    the characters the row's pattern excludes (for the four rows after the
    first these are the backslash and the letter n), and stands in the
    transcript between what the row's pattern has before and after its
    group. *)
Theorem reason_quotes_the_transcript (transcript : string) :
  _determine_reason transcript false false = "Execution failed with errors"
  \/ exists opening excluded closing label g,
       In (opening, excluded, closing, label) reason_table
       /\ _determine_reason transcript false false = label +:+ g
       /\ g <> EmptyString /\ free_of excluded g
       /\ contains (opening +:+ g +:+ closing) transcript = true.
Proof.
  unfold _determine_reason. cbn [negb].
  destruct (first_reason reason_table transcript) as [r |] eqn:E; [| by left].
  right. apply first_reason_sound in E
    as (o & ex & cl & lb & g & Hin & -> & Hrest).
  exists o, ex, cl, lb, g. auto.
Qed.

(** X4.  [ResultAnalyzer.analyze]: when the transcript reports a missing
    module by name and has no phrase that ends the cycle, the run is
    classified as failed and the reason names a module that the transcript
    reports missing. *)
Theorem missing_module_is_named (transcript g : string) :
  g <> EmptyString -> find_char "'"%char g = None ->
  contains ("ModuleNotFoundError: No module named '" +:+ g +:+ "'") transcript
    = true ->
  terminate (analyze transcript) = false ->
  success (analyze transcript) = false
  /\ exists g',
       reason (analyze transcript) = "Missing module: " +:+ g'
       /\ g' <> EmptyString /\ find_char "'"%char g' = None
       /\ contains ("ModuleNotFoundError: No module named '" +:+ g' +:+ "'")
            transcript = true.
Proof.
  intros Hne Hfree Hc.
  assert (Ht : transcript <> EmptyString).
  { eapply contains_nonempty; [| exact Hc]. done. }
  assert (Herr : _check_for_errors transcript = true).
  { apply (search_any_true _ "ModuleNotFoundError:").
    - unfold error_patterns. set_solver.
    - change ("ModuleNotFoundError: No module named '" +:+ g +:+ "'")
        with ("ModuleNotFoundError:" +:+ (" No module named '" +:+ g +:+ "'")) in Hc.
      by eapply contains_prefix. }
  rewrite analyze_nonempty by done. cbn [terminate success reason].
  rewrite Herr. cbn [negb andb]. intros ->. split; [done |].
  unfold _determine_reason. cbn [negb reason_table first_reason].
  destruct (search_group_complete "ModuleNotFoundError: No module named '"
              ["'"%char] "'" transcript g) as [g' Hg']; [done | | done |].
  { intros c [<- | []]. done. }
  rewrite Hg'. apply search_group_sound in Hg' as (Hne' & Hfree' & Hc').
  exists g'. repeat split; [done | | done]. apply Hfree'. by left.
Qed.

Lemma missing_module_is_named_witness :
  success (analyze ("ModuleNotFoundError: No module named 'numpy'")) = false
  /\ exists g',
       reason (analyze ("ModuleNotFoundError: No module named 'numpy'"))
       = "Missing module: " +:+ g'
       /\ g' <> EmptyString /\ find_char "'"%char g' = None
       /\ contains ("ModuleNotFoundError: No module named '" +:+ g' +:+ "'")
            "ModuleNotFoundError: No module named 'numpy'" = true.
Proof.
  apply (missing_module_is_named
           "ModuleNotFoundError: No module named 'numpy'" "numpy");
    [done | reflexivity | reflexivity | reflexivity].
Defined.

(** X5.  [ResultAnalyzer.analyze]: the reason is "Execution completed
    successfully" exactly when the run is classified as a success that does
    not end the cycle. *)
Theorem reason_completed_iff_success (transcript : string) :
  reason (analyze transcript) = "Execution completed successfully"
  <-> success (analyze transcript) = true
      /\ terminate (analyze transcript) = false.
Proof.
  destruct (decide (transcript = EmptyString)) as [-> | Hne].
  { cbn. split; [done | by intros [? _]]. }
  rewrite analyze_nonempty by done. cbn [reason success terminate].
  set (s := negb _ && _).
  unfold _determine_reason.
  destruct (_should_terminate transcript s).
  { split; [| by intros [_ ?]].
    destruct (contains "CRITICAL ERROR" transcript); [done |]. by destruct s. }
  destruct s; cbn [negb]; [done |].
  split; [| by intros [? _]].
  destruct (first_reason reason_table transcript) as [r |] eqn:E; [| done].
  apply first_reason_sound in E as (o & ex & cl & lb & g & Hin & -> & _).
  cbn in Hin.
  destruct Hin as [[= <- <- <- <-] | [[= <- <- <- <-] | [[= <- <- <- <-]
    | [[= <- <- <- <-] | [[= <- <- <- <-] | []]]]]]; done.
Qed.

(* ===================================================================== *)
(** * 19. What the file actions leave alone *)
(* ===================================================================== *)

(** What [os.makedirs] changes: it adds directories, each at a place that a
    leading part of the name leads to, and nothing else. *)
Lemma os_makedirs_frame (name : string) (disk : fs) (r : result unit)
    (disk' : fs) (k : list string) :
  os_makedirs name disk = (r, disk') ->
  disk' !! k = disk !! k
  \/ (disk !! k = None /\ disk' !! k = Some Dir
      /\ exists comps,
           comps `prefix_of` split_on sep name /\ walk disk' [] comps = At k).
Proof.
  intros [Hsub Hnew]%makedirs_frame.
  destruct (disk !! k) as [n|] eqn:Hk.
  - left. by eapply lookup_weaken.
  - destruct (disk' !! k) as [n|] eqn:Hk'; [| by left].
    right. destruct (Hnew k Hk) as (Hdir & comps & Hpre & Hw); [by eexists |].
    rewrite Hk' in Hdir. split; [done |]. split; [done |].
    exists comps. split; [| done]. etrans; [done |].
    destruct (split_on_rstrip name) as (n0 & ->). by eexists.
Qed.

Lemma os_makedirs_preserves (name : string) (disk : fs) (r : result unit)
    (disk' : fs) (k : list string) (v : node) :
  os_makedirs name disk = (r, disk') ->
  disk !! k = Some v -> disk' !! k = Some v.
Proof.
  intros H Hk. apply os_makedirs_subseteq in H. by eapply lookup_weaken.
Qed.

(** What [write_file] changes. *)
Lemma write_file_changes (base_dir : string) (relative_path content : pyval)
    (disk : fs) (loc : list string) :
  let disk' := (write_file base_dir relative_path content disk).2 in
  disk' !! loc = disk !! loc
  \/ exists full_path,
       get_full_path base_dir relative_path = Ok full_path
       /\ ((loc = locate full_path
            /\ disk !! loc <> Some Dir
            /\ exists text, disk' !! loc = Some (File text))
           \/ (disk !! loc = None /\ disk' !! loc = Some Dir
               /\ exists comps,
                    comps `prefix_of` split_on sep (dirname full_path)
                    /\ walk disk' [] comps = At loc)).
Proof.
  cbv zeta. unfold write_file.
  destruct (get_full_path base_dir relative_path) as [full | e]; [| by left].
  destruct (os_makedirs (dirname full) disk) as [[[] | e] disk1] eqn:Hmk.
  2:{ cbn [snd]. destruct (os_makedirs_frame _ _ _ _ loc Hmk) as [Hk | Hk];
        [by left |]. right. exists full. split; [done |]. by right. }
  destruct (os_open_w full disk1) as [[handle | e] disk2] eqn:Hopen.
  2:{ apply os_open_w_raise in Hopen as ->. cbn [snd].
      destruct (os_makedirs_frame _ _ _ _ loc Hmk) as [Hk | Hk];
        [by left |]. right. exists full. split; [done |]. by right. }
  apply os_open_w_ok in Hopen
    as (Hne & Henc & Hend & Hw & Hloc & Hnil & Hnode & ->).
  rewrite node_at_lookup in Hnode by done.
  assert (Hfinal : exists x,
            (file_write handle content (<[handle := File EmptyString]> disk1)).2
            = <[handle := File x]> disk1).
  { destruct (file_write handle content _) as [r d] eqn:Hwr.
    apply file_write_cases in Hwr as [(e & _ & ->) | (text & _ & _ & ->)];
      cbn [snd]; [by eexists |].
    rewrite insert_insert_eq. by eexists. }
  destruct Hfinal as (x & ->).
  destruct (decide (loc = handle)) as [-> | Hdiff].
  - right. exists full. split; [done |]. left. split; [done |].
    split; [| exists x; apply lookup_insert_eq].
    intros Hd. apply Hnode. by eapply os_makedirs_preserves.
  - rewrite lookup_insert_ne by done.
    destruct (os_makedirs_frame _ _ _ _ loc Hmk)
      as [Hk | (Hk & Hk' & comps & Hpre & Hwalk)]; [by left |].
    right. exists full. split; [done |]. right.
    split; [done |]. split; [done |]. exists comps. split; [done |].
    eapply walk_kept; [| done]. apply insert_file_dirs_kept.
    by rewrite node_at_lookup.
Qed.

(** X6.  [FileManager.write_file] changes the disk in two ways only: the
    entry at the place the path names, which was not a directory, becomes a
    file; and places without an entry become directories, each the place
    that a leading part of the path to the parent directory, followed
    component by component, leads to.  Every other entry stays as it was,
    also when the call raises. *)
Theorem write_file_frame (base_dir : string) (relative_path content : pyval)
    (disk : fs) (loc : list string) :
  let disk' := (write_file base_dir relative_path content disk).2 in
  disk' !! loc = disk !! loc
  \/ exists full_path,
       get_full_path base_dir relative_path = Ok full_path
       /\ ((loc = locate full_path
            /\ disk !! loc <> Some Dir
            /\ exists text, disk' !! loc = Some (File text))
           \/ (disk !! loc = None /\ disk' !! loc = Some Dir
               /\ exists comps,
                    comps `prefix_of` split_on sep (dirname full_path)
                    /\ walk disk' [] comps = At loc)).
Proof. apply write_file_changes. Qed.

(** The directories need not be on the way to the file, nor inside the
    project directory: both paths below are accepted. *)
Example write_file_makes_directories_on_the_way :
  (write_file "/work/app" (PStr "newdir/../x.txt") (PStr "x") example_disk).2
  = <[ ["work"; "app"; "x.txt"] := File "x" ]>
      (<[ ["work"; "app"; "newdir"] := Dir ]> example_disk)
  /\ (write_file "/work/app" (PStr "x/../../zzz/../app/f.txt") (PStr "x")
        example_disk).2
     = <[ ["work"; "app"; "f.txt"] := File "x" ]>
         (<[ ["work"; "zzz"] := Dir ]>
            (<[ ["work"; "app"; "x"] := Dir ]> example_disk)).
Proof. split; reflexivity. Qed.

(** What [delete_file] changes. *)
Lemma delete_file_changes (base_dir : string) (relative_path : pyval)
    (disk : fs) (loc : list string) :
  let disk' := (delete_file base_dir relative_path disk).2 in
  disk' !! loc = disk !! loc
  \/ exists full_path text,
       get_full_path base_dir relative_path = Ok full_path
       /\ loc = locate full_path
       /\ disk !! loc = Some (File text) /\ disk' !! loc = None.
Proof.
  cbv zeta.
  destruct (delete_file base_dir relative_path disk) as [r disk'] eqn:Hdel.
  cbn [snd].
  destruct (delete_file_cases _ _ _ _ _ Hdel)
    as [-> | (_ & full & text & Hfull & _ & _ & Hn & ->)]; [by left |].
  destruct (decide (loc = locate full)) as [-> | Hne].
  - right. exists full, text. repeat split; try done. apply lookup_delete_eq.
  - left. by rewrite lookup_delete_ne.
Qed.

(** X7.  [FileManager.delete_file] removes at most the entry at the place
    the path names, and only when it is a file: a directory is never
    removed, and nothing is added. *)
Theorem delete_file_frame (base_dir : string) (relative_path : pyval)
    (disk : fs) (loc : list string) :
  let disk' := (delete_file base_dir relative_path disk).2 in
  disk' !! loc = disk !! loc
  \/ exists full_path text,
       get_full_path base_dir relative_path = Ok full_path
       /\ loc = locate full_path
       /\ disk !! loc = Some (File text) /\ disk' !! loc = None.
Proof. apply delete_file_changes. Qed.

Lemma write_file_keeps (base_dir : string) (relative_path content : pyval)
    (disk : fs) (loc : list string) (n : node) :
  disk !! loc = Some n ->
  n = Dir
  \/ (forall full_path, get_full_path base_dir relative_path = Ok full_path ->
        locate full_path <> loc) ->
  (write_file base_dir relative_path content disk).2 !! loc = Some n.
Proof.
  intros Hloc Hcase.
  destruct (write_file_changes base_dir relative_path content disk loc)
    as [-> | (full & Hfull & [(-> & Hnd & _) | (Hnone & _)])];
    [done | | congruence].
  destruct Hcase as [-> | Hcase]; [done |]. by destruct (Hcase _ Hfull).
Qed.

Lemma delete_file_keeps (base_dir : string) (relative_path : pyval)
    (disk : fs) (loc : list string) (n : node) :
  disk !! loc = Some n ->
  n = Dir
  \/ (forall full_path, get_full_path base_dir relative_path = Ok full_path ->
        locate full_path <> loc) ->
  (delete_file base_dir relative_path disk).2 !! loc = Some n.
Proof.
  intros Hloc Hcase.
  destruct (delete_file_changes base_dir relative_path disk loc)
    as [-> | (full & text & Hfull & -> & Hfile & _)]; [done |].
  destruct Hcase as [-> | Hcase]; [congruence |]. by destruct (Hcase _ Hfull).
Qed.

Section FrameFacts.
Context (console : string -> option string).
Context (py_str : pyval -> string).

Lemma file_action_step_keeps (base_dir : string)
    (action : list (string * pyval)) (disk : fs) (loc : list string) (n : node) :
  disk !! loc = Some n ->
  n = Dir
  \/ (forall full_path,
        get_full_path base_dir (dict_get "path" action (PStr EmptyString))
          = Ok full_path ->
        locate full_path <> loc) ->
  (file_action_step console py_str base_dir action disk).2 !! loc = Some n.
Proof.
  intros Hloc Hcase. unfold file_action_step.
  destruct (negb (truthy _)); [done |]. unfold apply_file_action.
  set (path := dict_get "path" action (PStr EmptyString)) in *.
  set (content := dict_get "content" action (PStr EmptyString)).
  set (kind := dict_get "action" action (PStr EmptyString)).
  pose proof (write_file_keeps base_dir path content disk loc n Hloc Hcase) as Hw.
  pose proof (delete_file_keeps base_dir path disk loc n Hloc Hcase) as Hd.
  destruct (py_eq_str kind "create").
  { destruct (write_file base_dir path content disk) as [[[] | e] d];
      [| done]. by destruct (report console py_str (CreatedFile path)). }
  destruct (py_eq_str kind "modify").
  { destruct (write_file base_dir path content disk) as [[[] | e] d];
      [| done]. by destruct (report console py_str (ModifiedFile path)). }
  destruct (py_eq_str kind "delete").
  { destruct (delete_file base_dir path disk) as [[[] | e] d];
      [| done]. by destruct (report console py_str (DeletedFile path)). }
  by destruct (report console py_str (UnknownFileAction kind path)).
Qed.

Lemma file_actions_loop_keeps (base_dir : string) (items : list pyval)
    (disk : fs) (log : list diagnostic) (loc : list string) (n : node) :
  disk !! loc = Some n ->
  n = Dir
  \/ (forall action full_path,
        In (PDict action) items ->
        get_full_path base_dir (dict_get "path" action (PStr EmptyString))
          = Ok full_path ->
        locate full_path <> loc) ->
  (file_actions_loop console py_str base_dir items disk log).2 !! loc = Some n.
Proof.
  revert disk log. induction items as [|item rest IH]; intros disk log Hloc Hcase;
    [done |].
  destruct item as [| | | | | | | | action]; try done.
  cbn [file_actions_loop].
  assert (Hstep : (file_action_step console py_str base_dir action disk).2 !! loc
                  = Some n).
  { apply file_action_step_keeps; [done |].
    destruct Hcase as [-> | Hcase]; [by left | right].
    intros full. apply Hcase. by left. }
  destruct (file_action_step console py_str base_dir action disk)
    as [[d | e] disk1]; [| done].
  apply IH; [done |].
  destruct Hcase as [-> | Hcase]; [by left | right].
  intros a full Hin. apply Hcase. by right.
Qed.

(** X8.  [AutoCodeforge.execute_file_actions]: whatever the file actions
    are, also when they are not a list of dictionaries and the call raises,
    no directory of the disk is removed or replaced, and an entry that is
    not at the place named by the path of one of the actions stays as it
    was. *)
Theorem execute_file_actions_frame (base_dir : string) (file_actions : pyval)
    (disk : fs) (loc : list string) (n : node) :
  disk !! loc = Some n ->
  n = Dir
  \/ (forall items action full_path,
        py_iter file_actions = Ok items -> In (PDict action) items ->
        get_full_path base_dir (dict_get "path" action (PStr EmptyString))
          = Ok full_path ->
        locate full_path <> loc) ->
  (execute_file_actions console py_str base_dir file_actions disk).2 !! loc
  = Some n.
Proof.
  intros Hloc Hcase. unfold execute_file_actions.
  destruct (py_iter file_actions) as [items | e] eqn:Hiter; [| done].
  apply file_actions_loop_keeps; [done |].
  destruct Hcase as [-> | Hcase]; [by left | right].
  intros a full. by apply Hcase.
Qed.

End FrameFacts.

Lemma execute_file_actions_frame_witness :
  (execute_file_actions utf8_console example_py_str "/work/app"
     (PList [delete_action (PStr "../app"); create_action (PStr "a/b.txt") (PStr "x");
             PInt 3; delete_action (PStr "..")])
     example_disk).2 !! ["work"; "app"] = Some Dir.
Proof.
  apply (execute_file_actions_frame utf8_console example_py_str "/work/app" _
           example_disk ["work"; "app"] Dir);
    [reflexivity | by left].
Defined.

(** A write that returned wrote a text, and the path leads to it. *)
Lemma write_file_ok (base_dir : string) (relative_path content : pyval)
    (disk disk1 : fs) :
  write_file base_dir relative_path content disk = (Ok (), disk1) ->
  exists full_path text,
    content = PStr text
    /\ get_full_path base_dir relative_path = Ok full_path
    /\ resolve full_path disk1 = At (locate full_path)
    /\ locate full_path <> []
    /\ disk1 !! locate full_path = Some (File text).
Proof.
  intros Hw.
  assert (Hcontent : exists text, content = PStr text).
  { unfold write_file in Hw.
    destruct (get_full_path base_dir relative_path) as [full | e]; [| done].
    destruct (os_makedirs (dirname full) disk) as [[[] | e] dm]; [| done].
    destruct (os_open_w full dm) as [[handle | e] do]; [| done].
    apply file_write_cases in Hw as [(e & [=] & _) | (t & -> & _)].
    by eexists. }
  destruct Hcontent as (text & ->).
  destruct (write_file_holds _ _ _ _ _ Hw) as [(full & Hfull & Hres & Hn) _].
  exists full, text. repeat split; try done.
  unfold write_file in Hw. rewrite Hfull in Hw.
  destruct (os_makedirs (dirname full) disk) as [[[] | e] dm]; [| done].
  destruct (os_open_w full dm) as [[handle | e] do] eqn:Hopen; [| done].
  apply os_open_w_ok in Hopen as (_ & _ & _ & _ & <- & Hnil & _). done.
Qed.

(** X9.  [FileManager.write_file] followed by [FileManager.delete_file]:
    after a write that returned, deleting the same path returns too, and
    nothing is left at the place the path names; every other entry is as
    the write left it. *)
Theorem delete_after_write (base_dir : string) (relative_path content : pyval)
    (disk disk1 : fs) :
  write_file base_dir relative_path content disk = (Ok (), disk1) ->
  exists full_path,
    get_full_path base_dir relative_path = Ok full_path
    /\ delete_file base_dir relative_path disk1
       = (Ok (), delete (locate full_path) disk1)
    /\ os_path_exists full_path (delete (locate full_path) disk1) = false.
Proof.
  intros (full & text & _ & Hfull & Hres & Hnil & Hn)%write_file_ok.
  exists full. split; [done |].
  assert (Hnode : node_at disk1 (locate full) = Some (File text))
    by by rewrite node_at_lookup.
  unfold delete_file, os_path_exists, os_remove.
  rewrite Hfull, Hres, Hnode. split; [done |].
  assert (Hres' : resolve full (delete (locate full) disk1) = At (locate full)).
  { unfold resolve in *. destruct (str_eqb full EmptyString); [done |].
    destruct (fsencode_error full); [done |].
    eapply walk_kept; [| done]. by eapply delete_file_dirs_kept. }
  rewrite Hres', node_at_lookup by done. by rewrite lookup_delete_eq.
Qed.

Lemma delete_after_write_witness :
  exists full_path,
    get_full_path "/work/app" (PStr "src/main.py") = Ok full_path
    /\ delete_file "/work/app" (PStr "src/main.py")
         (write_file "/work/app" (PStr "src/main.py") (PStr "print(1)")
            example_disk).2
       = (Ok (), delete (locate full_path)
            (write_file "/work/app" (PStr "src/main.py") (PStr "print(1)")
               example_disk).2)
    /\ os_path_exists full_path
         (delete (locate full_path)
            (write_file "/work/app" (PStr "src/main.py") (PStr "print(1)")
               example_disk).2) = false.
Proof.
  apply (delete_after_write "/work/app" (PStr "src/main.py") (PStr "print(1)")
           example_disk).
  reflexivity.
Defined.

(** X10.  [FileManager.create_directory]: every entry that was on the disk
    is still there, and what is added are directories; a second call
    changes nothing more, and raises when the first one raised.  When the
    call returns for a path whose last component is not a dot, the path
    names a directory, and a second call returns as well. *)
Theorem create_directory_makes_directory (base_dir : string)
    (relative_path : pyval) (disk : fs) :
  let run := create_directory base_dir relative_path disk in
  (create_directory base_dir relative_path run.2).2 = run.2
  /\ (forall e, run.1 = Raise e ->
        exists e', (create_directory base_dir relative_path run.2).1 = Raise e')
  /\ (forall loc n, disk !! loc = Some n -> run.2 !! loc = Some n)
  /\ (forall loc, disk !! loc = None -> is_Some (run.2 !! loc) ->
        run.2 !! loc = Some Dir)
  /\ (run.1 = Ok () ->
      exists full_path,
        get_full_path base_dir relative_path = Ok full_path
        /\ ((split_twice full_path).2 <> "." ->
            node_at run.2 (locate full_path) = Some Dir
            /\ create_directory base_dir relative_path run.2 = run)).
Proof.
  cbv zeta. unfold create_directory.
  destruct (get_full_path base_dir relative_path) as [full | e] eqn:Hfull.
  2:{ cbn [fst snd].
      split; [done |]. split; [by eauto |]. split; [done |].
      split; [| done]. intros loc Hn [n Hs]. congruence. }
  destruct (os_makedirs full disk) as [r disk'] eqn:Hmk. cbn [fst snd].
  destruct (os_makedirs_again _ _ _ _ Hmk) as (r2 & Hmk2 & Hraise).
  rewrite Hmk2. cbn [fst snd].
  split; [done |]. split; [done |].
  split; [intros loc n; by eapply os_makedirs_preserves |]. split.
  { intros loc Hn Hs.
    destruct (os_makedirs_frame _ _ _ _ loc Hmk) as [E | (_ & Hd & _)]; [| done].
    rewrite E, Hn in Hs. by destruct Hs. }
  intros ->. exists full. split; [done |]. intros Htail.
  pose proof (os_makedirs_ok _ _ _ _ Hmk Htail) as Hdir.
  split.
  - apply os_path_isdir_spec in Hdir as (_ & _ & loc & Hw & Hn).
    apply walk_locate in Hw. rewrite locate_rstrip_sep in Hw. by subst loc.
  - rewrite (os_makedirs_of_dir _ _ Hdir) in Hmk2. by injection Hmk2 as <-.
Qed.

(** The path of a call that returns need not name a directory when its last
    component is a dot: below, [f] is a file and [m] is missing, the call
    makes [m] and returns, and a second call raises. *)
Example create_directory_through_a_file :
  let disk : fs := {[ ["work"] := Dir; ["work"; "app"] := Dir;
                      ["work"; "app"; "f"] := File EmptyString ]} in
  let run := create_directory "/work/app" (PStr "m/../f/.") disk in
  run = (Ok (), <[ ["work"; "app"; "m"] := Dir ]> disk)
  /\ locate "/work/app/m/../f/." = ["work"; "app"; "f"]
  /\ create_directory "/work/app" (PStr "m/../f/.") run.2
     = (Raise (os_error "[Errno 20] Not a directory" "/work/app/m/../f/."),
        run.2).
Proof. cbv zeta. split; [reflexivity |]. split; reflexivity. Qed.
(* ===================================================================== *)
(** * 20. The shell executor *)
(* ===================================================================== *)

Section ShellFacts.
Context {Ext : Type}.
Context (spawn : string -> string -> Z -> world Ext -> proc_outcome * world Ext).
Context (getcwd : world Ext -> result string).
Context (console : string -> option string).
Context (py_str : pyval -> string).

Lemma execute_ok_cases (working_directory command : string)
    (timeout : Z) (w w' : world Ext) (out : string) :
  execute spawn getcwd working_directory command timeout w = (Ok out, w') ->
  startswith out "ERROR:" = false ->
  exists w1 stderr,
    spawn working_directory command timeout w1 = (Exited 0 out stderr, w')
    /\ w_ext w1 = w_ext w.
Proof.
  unfold execute. intros H Hprefix.
  set (prepared := if negb (str_eqb working_directory EmptyString) then _
                   else (Ok None, w)) in H.
  assert (Hprep : forall w1, prepared = (Ok None, w1) -> w_ext w1 = w_ext w).
  { unfold prepared. intros w1.
    destruct (negb (str_eqb working_directory EmptyString)); [| by intros [= <-]].
    destruct (if negb (os_path_exists working_directory (w_disk w)) then _
              else (Ok (), w_disk w)) as [[[] | e] disk]; [| done].
    destruct (negb (os_path_exists working_directory disk)); [done |].
    by intros [= <-]. }
  assert (Hearly : forall early w1, prepared = (Ok (Some early), w1) ->
            startswith early "ERROR:" = true).
  { unfold prepared. intros early w1.
    destruct (negb (str_eqb working_directory EmptyString)); [| done].
    destruct (if negb (os_path_exists working_directory (w_disk w)) then _
              else (Ok (), w_disk w)) as [[[] | e] disk]; [| done].
    destruct (negb (os_path_exists working_directory disk)); [| done].
    by intros [= <- _]. }
  destruct prepared as [[[early |] | e] w1] eqn:Hp; [| | done].
  { injection H as <- <-. by rewrite (Hearly _ _ eq_refl) in Hprefix. }
  specialize (Hprep _ eq_refl).
  destruct (if negb (str_eqb working_directory EmptyString)
            then Ok working_directory else getcwd w1) as [cwd | e]; [| done].
  destruct (spawn working_directory command timeout w1) as [outcome w2] eqn:Hs.
  destruct outcome as [returncode stdout stderr | [[] | e] | e].
  - destruct (returncode =? 0) eqn:Hrc; cbn [negb] in H.
    + injection H as <- <-. apply Z.eqb_eq in Hrc as ->.
      exists w1, stderr. done.
    + injection H as <- <-. done.
  - injection H as <- <-. done.
  - done.
  - injection H as <- <-. done.
Qed.

(** X11.  [PowerShellExecutor.execute]: a result that does not begin with
    [ERROR:] is the standard output of a process that was started for the
    command and exited with code 0.  So for every other way the command can
    go (the working directory is still missing after it was made, the
    process exits with another code, runs out of time or cannot be started)
    the result begins with [ERROR:]. *)
Theorem execute_result_without_error_prefix (working_directory command : string)
    (timeout : Z) (w w' : world Ext) (out : string) :
  execute spawn getcwd working_directory command timeout w = (Ok out, w') ->
  (startswith out "ERROR:" = false ->
   exists w1 stderr,
     spawn working_directory command timeout w1 = (Exited 0 out stderr, w')
     /\ w_ext w1 = w_ext w)
  /\ ((forall w1 w2 stdout stderr,
        spawn working_directory command timeout w1 <> (Exited 0 stdout stderr, w2)) ->
      startswith out "ERROR:" = true).
Proof.
  intros H. split; [by apply execute_ok_cases |].
  intros Hfail. destruct (startswith out "ERROR:") eqn:Hprefix; [done |].
  destruct (execute_ok_cases _ _ _ _ _ _ H Hprefix) as (w1 & stderr & Hs & _).
  by apply Hfail in Hs.
Qed.

(** X12.  [PowerShellExecutor.execute] raises in three places only: while
    it makes a working directory that did not exist (the exception is that
    of [os.makedirs], and no process was started); when it has no working
    directory and asks for the current one (the exception is that of
    [os.getcwd], and nothing was done); and when the process ran out of
    time and could not be killed (the exception is that of
    [process.kill]). *)
Theorem execute_raises_in_three_places (working_directory command : string)
    (timeout : Z) (w w' : world Ext) (e : exn) :
  execute spawn getcwd working_directory command timeout w = (Raise e, w') ->
  (working_directory <> EmptyString
   /\ os_path_exists working_directory (w_disk w) = false
   /\ os_makedirs working_directory (w_disk w) = (Raise e, w_disk w')
   /\ w_ext w' = w_ext w)
  \/ (working_directory = EmptyString /\ getcwd w = Raise e /\ w' = w)
  \/ (exists w1,
        spawn working_directory command timeout w1 = (TimedOut (Raise e), w')
        /\ w_ext w1 = w_ext w).
Proof.
  unfold execute.
  assert (Hrun : forall w1 : world Ext,
            w_ext w1 = w_ext w ->
            (let '(outcome, w2) := spawn working_directory command timeout w1 in
             match outcome with
             | Exited returncode stdout stderr =>
                 if negb (returncode =? 0) then
                   (Ok ("ERROR: " +:+ ("PowerShell command failed with exit code "
                                       +:+ pretty returncode +:+ ": " +:+ stderr)
                        +:+ nl +:+ stdout), w2)
                 else (Ok stdout, w2)
             | TimedOut (Raise e) => (Raise e, w2)
             | TimedOut (Ok _) =>
                 (Ok ("ERROR: " +:+ "Command timed out after " +:+ pretty timeout
                      +:+ " seconds"), w2)
             | SpawnFailed e =>
                 (Ok ("ERROR: " +:+ "Error executing PowerShell command: " +:+ e),
                  w2)
             end) = (Raise e, w') ->
            exists w1,
              spawn working_directory command timeout w1
                = (TimedOut (Raise e), w')
              /\ w_ext w1 = w_ext w).
  { intros w1 Hext.
    destruct (spawn working_directory command timeout w1)
      as [[rc so se | [[] | e1] | x] w2] eqn:Hs;
      [by destruct (negb (rc =? 0)) | done | | done].
    intros [= <- <-]. by exists w1. }
  destruct (str_eqb working_directory EmptyString) eqn:Hwd; cbn [negb].
  { apply str_eqb_eq in Hwd as ->.
    destruct (getcwd w) as [cwd | e1] eqn:Hcwd.
    - intros H. right. right. by apply (Hrun w).
    - intros [= <- <-]. right. by left. }
  apply str_eqb_neq in Hwd.
  destruct (os_path_exists working_directory (w_disk w)) eqn:Hex; cbn [negb].
  { rewrite Hex. cbn [negb]. intros H. right. right.
    by apply (Hrun (set_disk w (w_disk w))). }
  destruct (os_makedirs working_directory (w_disk w)) as [[[] | e'] disk] eqn:Hmk.
  - destruct (negb (os_path_exists working_directory disk)); [done |].
    intros H. right. right. by apply (Hrun (set_disk w disk)).
  - intros [= <- <-]. by left.
Qed.

Lemma execute_multiple_spec (wd : string) (commands : list string)
    (stop_on_error : bool) (w w' : world Ext)
    (acc results : list command_result) :
  execute_multiple spawn getcwd wd commands stop_on_error w acc = (Ok results, w') ->
  exists new,
    results = acc ++ new
    /\ cr_command <$> new `prefix_of` commands
    /\ Forall (fun r => cr_success r = negb (startswith (cr_output r) "ERROR:")) new
    /\ (length new = length commands
        \/ stop_on_error = true
           /\ exists r, last new = Some r /\ cr_success r = false)
    /\ (stop_on_error = true ->
        Forall (fun r => cr_success r = true) (removelast new)).
Proof.
  revert w acc. induction commands as [|cmd rest IH]; intros w acc H.
  - simpl in H. injection H as <- <-. exists []. rewrite app_nil_r.
    repeat split; [done | constructor | by left | constructor].
  - cbn [execute_multiple] in H.
    destruct (execute spawn getcwd wd cmd 300 w) as [[output | e] w1]; [| done].
    set (entry := CommandResult cmd output (negb (startswith output "ERROR:"))) in *.
    destruct (stop_on_error && startswith output "ERROR:") eqn:Hstop.
    + injection H as <- <-. apply andb_true_iff in Hstop as [-> Herr].
      exists [entry]. split; [done |].
      split; [apply prefix_cons, prefix_nil |].
      split; [by repeat constructor |].
      split; [| constructor].
      right. split; [done |]. exists entry. split; [done |].
      unfold entry. cbn [cr_success]. by rewrite Herr.
    + destruct (IH _ _ H) as (new & -> & Hpre & Hall & Hlen & Hbefore).
      exists (entry :: new). split; [by rewrite <- app_assoc |].
      split; [by apply prefix_cons |].
      split; [by constructor |].
      split.
      * destruct Hlen as [Hlen | (Hs & r & Hlast & Hr)].
        -- left. simpl. by rewrite Hlen.
        -- right. split; [done |]. exists r. split; [| done].
           destruct new; [done | exact Hlast].
      * intros Hs. specialize (Hbefore Hs). rewrite Hs in Hstop. cbn [andb] in Hstop.
        destruct new as [|r new]; [constructor |].
        change (removelast (entry :: r :: new))
          with (entry :: removelast (r :: new)).
        constructor; [| done]. unfold entry. cbn [cr_success]. by rewrite Hstop.
Qed.

(** X13.  [PowerShellExecutor.execute_multiple]: the entries of the result
    are for the commands in order, one each, and the [success] of an entry
    says that its output does not begin with [ERROR:].  Without
    [stop_on_error] every command has its entry; with it, the commands are
    run up to the first whose output begins with [ERROR:], which is the last
    entry, and every entry before the last is a success. *)
Theorem execute_multiple_results (working_directory : string)
    (commands : list string) (stop_on_error : bool) (w w' : world Ext)
    (results : list command_result) :
  execute_multiple spawn getcwd working_directory commands stop_on_error w []
    = (Ok results, w') ->
  cr_command <$> results `prefix_of` commands
  /\ Forall (fun r => cr_success r = negb (startswith (cr_output r) "ERROR:"))
       results
  /\ (stop_on_error = false -> length results = length commands)
  /\ (stop_on_error = true ->
      Forall (fun r => cr_success r = true) (removelast results)
      /\ (length results = length commands
          \/ exists r, last results = Some r /\ cr_success r = false)).
Proof.
  intros H.
  destruct (execute_multiple_spec _ _ _ _ _ _ _ H)
    as (new & -> & Hpre & Hall & Hlen & Hbefore).
  rewrite app_nil_l. split; [done |]. split; [done |]. split.
  - intros Hs. destruct Hlen as [Hlen | [Hs' _]]; [done | congruence].
  - intros Hs. split; [by apply Hbefore |].
    destruct Hlen as [Hlen | [_ Hlast]]; [by left | by right].
Qed.

Lemma contains_app_r (needle a b : string) :
  contains needle b = true -> contains needle (a +:+ b) = true.
Proof.
  intros H. destruct (contains_inv _ _ H) as (pre & post & ->).
  rewrite <- str_app_assoc. apply contains_intro.
Qed.

Lemma contains_app_l (needle a b : string) :
  contains needle a = true -> contains needle (a +:+ b) = true.
Proof.
  intros H. destruct (contains_inv _ _ H) as (pre & post & ->).
  rewrite !str_app_assoc. apply contains_intro.
Qed.

Lemma contains_join (needle sp : string) (parts : list string) (p : string) :
  In p parts -> contains needle p = true ->
  contains needle (join sp parts) = true.
Proof.
  induction parts as [|q rest IH]; [done |]. intros [-> | Hin] Hc.
  - destruct rest; [done |]. rewrite join_cons. by apply contains_app_l.
  - destruct rest as [|q' rest]; [done |]. rewrite join_cons.
    apply contains_app_r, contains_app_r. by apply IH.
Qed.

(** The transcript has a block for every command: the result of an
    execution of the command, or an error. *)
Lemma shell_loop_has_block (wd : string) (cmds : list string) (c : string)
    (w w' : world Ext) (acc all_results : list string) :
  In c cmds ->
  shell_loop spawn getcwd console py_str wd (PStr <$> cmds) w acc
    = (Ok all_results, w') ->
  exists b,
    In b all_results
    /\ ((exists out w1 w2,
           execute spawn getcwd wd c 300 w1 = (Ok out, w2)
           /\ b = command_block c out)
        \/ exists e, b = error_block c e).
Proof.
  assert (Hacc : forall cmds w w' acc all_results b,
            shell_loop spawn getcwd console py_str wd (PStr <$> cmds) w acc
              = (Ok all_results, w') ->
            In b acc -> In b all_results).
  { intros cmds0 w0 w0' acc0 all0 b Hloop Hb.
    apply shell_loop_blocks in Hloop as (blocks & _ & ->).
    apply in_or_app. by left. }
  revert w acc. induction cmds as [|cmd rest IH]; intros w acc Hin; [done |].
  cbn [fmap list_fmap shell_loop cmd_text fmt].
  destruct Hin as [-> | Hin].
  - unfold shell_step.
    destruct (py_print console ("Executing: " +:+ c)) as [[] | e0].
    + destruct (execute spawn getcwd wd c 300 w) as [[out | e] w1] eqn:Hexec.
      * assert (Hblock : forall rest_acc w2,
                  shell_loop spawn getcwd console py_str wd (PStr <$> rest) w2
                    (acc ++ [command_block c out] ++ rest_acc)
                    = (Ok all_results, w') ->
                  exists b,
                    In b all_results
                    /\ ((exists out w1 w2,
                           execute spawn getcwd wd c 300 w1 = (Ok out, w2)
                           /\ b = command_block c out)
                        \/ exists e, b = error_block c e)).
        { intros rest_acc w2 Hloop. exists (command_block c out). split.
          - eapply Hacc; [done |]. apply in_or_app. right. by left.
          - left. by exists out, w, w1. }
        destruct (py_print console (result_line out)) as [[] | e].
        -- intros Hloop. apply (Hblock [] w1). by rewrite app_nil_r.
        -- destruct (py_print console _) as [[] | e']; [| done].
           intros Hloop. by apply (Hblock [error_block c e] w1).
      * destruct (py_print console _) as [[] | e']; [| done].
        intros Hloop. exists (error_block c e). split; [| right; by exists e].
        eapply Hacc; [done |]. apply in_or_app. right. by left.
    + destruct (py_print console _) as [[] | e']; [| done].
      intros Hloop. exists (error_block c e0). split; [| right; by exists e0].
      eapply Hacc; [done |]. apply in_or_app. right. by left.
  - destruct (shell_step spawn getcwd console wd cmd w) as [[[[] | e] bs] w1].
    + by apply IH.
    + destruct (py_print console _) as [[] | e']; [| done]. by apply IH.
Qed.

(** X14.  [AutoCodeforge.execute_shell_actions] with
    [ResultAnalyzer.analyze]: when one of the commands is such that no
    process started for it exits with code 0, the transcript is classified
    with [has_error] true and [success] false, whatever the other commands
    print. *)
Theorem failing_command_fails_the_iteration (app : autocodeforge)
    (cmds : list string) (c : string) (w w' : world Ext) (transcript : string) :
  In c cmds ->
  (forall w1 w2 out stderr,
     spawn (project_path app) c 300 w1 <> (Exited 0 out stderr, w2)) ->
  execute_shell_actions spawn getcwd console py_str app (PList (PStr <$> cmds)) w
    = (Ok transcript, w') ->
  has_error (analyze transcript) = Some true
  /\ success (analyze transcript) = false.
Proof.
  intros Hin Hfail. unfold execute_shell_actions.
  destruct (execute spawn getcwd (project_path app) check_cmd 300 w)
    as [[check_dir | e] w1]; [| done].
  cbn [py_iter].
  destruct (shell_loop spawn getcwd console py_str (project_path app)
              (PStr <$> cmds) _ []) as [[all_results | e] w3] eqn:Hloop;
    [| done].
  intros [= <- <-].
  destruct (shell_loop_has_block _ _ _ _ _ _ _ Hin Hloop) as (b & Hb & Hkind).
  assert (Hmark : exists marker,
            marker ∈ error_patterns /\ marker <> EmptyString
            /\ contains marker b = true).
  { destruct Hkind as [(out & wa & wb & Hexec & ->) | (e & ->)].
    - exists "ERROR:". split; [unfold error_patterns; set_solver |].
      split; [done |].
      destruct (startswith out "ERROR:") eqn:Hprefix.
      + destruct (startswith_inv _ _ Hprefix) as [tail ->].
        unfold command_block.
        do 5 apply contains_app_r. apply contains_app_l.
        apply (contains_intro EmptyString "ERROR:" tail).
      + destruct (execute_ok_cases _ _ _ _ _ _ Hexec Hprefix)
          as (w1' & stderr & Hs & _). by apply Hfail in Hs.
    - exists "Error:". split; [unfold error_patterns; set_solver |].
      split; [done |].
      unfold error_block.
      do 3 apply contains_app_r.
      apply (contains_here "Error:"). reflexivity. }
  destruct Hmark as (marker & Hm & Hmne & Hc).
  assert (Hjoin : contains marker (join nl all_results) = true)
    by (by eapply contains_join).
  assert (Herr : _check_for_errors (join nl all_results) = true)
    by (by eapply search_any_true).
  assert (Hne : join nl all_results <> EmptyString).
  { by eapply contains_nonempty. }
  rewrite analyze_nonempty by done. cbn [has_error success].
  by rewrite Herr.
Qed.

End ShellFacts.

(* ===================================================================== *)
(** * 21. The parsed actions, and the mock client *)
(* ===================================================================== *)

Lemma object_items_dict (scan : string -> result (pyval * string))
    (fuel : nat) (s : string) (acc : list (string * pyval))
    (v : pyval) (rest : string) :
  object_items scan fuel s acc = Ok (v, rest) -> exists d, v = PDict d.
Proof.
  revert s acc. induction fuel as [|fuel IH]; intros s acc H; [done |].
  cbn [object_items] in H.
  destruct (scanstring s) as [[key s1] | e]; [| done]. cbn in H.
  destruct (skip_ws s1) as [|c s2]; [done |].
  destruct (ascii_dec c ":"%char) as [-> | Hc].
  2:{ destruct c as [[] [] [] [] [] [] [] []]; try done. }
  destruct (scan (skip_ws s2)) as [[x s3] | e]; [| done]. cbn in H.
  destruct (skip_ws s3) as [|c s4]; [done |].
  destruct (ascii_eqb c "}"%char); [injection H as <- _; eauto |].
  destruct (ascii_eqb c ","%char); [| done].
  destruct (skip_ws s4) as [|q s5]; [done |].
  destruct (ascii_eqb q dquote); [| done]. by eapply IH.
Qed.

Lemma scan_once_object (depth : nat) (rest : string) (v : pyval) (r : string) :
  scan_once depth (String "{"%char rest) = Ok (v, r) -> exists d, v = PDict d.
Proof.
  destruct depth as [|depth]; cbn [scan_once];
    change (ascii_eqb "{"%char dquote) with false;
    change (ascii_eqb "{"%char "{"%char) with true; cbv iota; [done |].
  destruct (skip_ws rest) as [|q s1]; [done |].
  destruct (ascii_eqb q "}"%char); [intros [= <- _]; eauto |].
  destruct (ascii_eqb q dquote); [| done].
  apply object_items_dict.
Qed.

Lemma json_loads_object (depth : nat) (rest : string) (v : pyval) :
  json_loads depth (String "{"%char rest) = Ok v -> exists d, v = PDict d.
Proof.
  unfold json_loads.
  change (skip_ws (String "{"%char rest)) with (String "{"%char rest).
  destruct (scan_once depth (String "{"%char rest)) as [[x r] | e] eqn:E;
    [| done].
  cbn [mbind result_bind]. destruct (skip_ws r); [| done]. intros [= <-].
  by eapply scan_once_object.
Qed.

Lemma str_drop_find_char (c : ascii) (s : string) (i : nat) :
  find_char c s = Some i -> exists rest, str_drop i s = String c rest.
Proof.
  revert i. induction s as [|a s IH]; intros i H; [done |]. simpl in H.
  destruct (ascii_eqb a c) eqn:E.
  - injection H as <-. apply ascii_eqb_eq in E as ->. by exists s.
  - destruct (find_char c s) as [k|]; [| done]. injection H as <-.
    by apply IH.
Qed.

Lemma json_candidate_brace (text j : string) :
  json_candidate text = Some j -> exists rest, j = String "{"%char rest.
Proof.
  unfold json_candidate.
  destruct (find_char "{"%char text) as [i|] eqn:Hi; [| done].
  destruct (rfind_char "}"%char text) as [k|]; [| done].
  destruct (i <=? k)%nat; [| done]. intros [= <-].
  destruct (str_drop_find_char _ _ _ Hi) as [rest ->].
  replace (k - i + 1)%nat with (S (k - i)) by lia. simpl. eauto.
Qed.

Lemma parse_response_dict (depth : nat) (r : response) :
  exists d, parse_response depth r = Ok (PDict d).
Proof.
  unfold parse_response, parse_text.
  destruct (extract_text r) as [text | e]; [| by eexists].
  cbn [mbind result_bind]. rewrite find_json_candidate.
  destruct (json_candidate text) as [j|] eqn:Hj; [| by eexists].
  destruct (json_candidate_brace _ _ Hj) as [rest ->].
  destruct (json_loads depth (String "{"%char rest)) as [v | e] eqn:Hv.
  - destruct (json_loads_object _ _ _ Hv) as [d ->]. by exists d.
  - cbn. destruct (is_JSONDecodeError e); by eexists.
Qed.

(** X15.  [AutoCodeforge.parse_response] returns a dictionary for every
    reply: the text it decodes starts with a brace, so what [json.loads]
    returns for it is an object; so the two [actions.get] of [run_cycle]
    never fail. *)
Theorem parse_response_returns_dict (depth : nat) (r : response) :
  exists d,
    parse_response depth r = Ok (PDict d)
    /\ actions_get (PDict d) "file_actions"
       = Ok (dict_get "file_actions" d (PList []))
    /\ actions_get (PDict d) "shell_actions"
       = Ok (dict_get "shell_actions" d (PList [])).
Proof.
  destruct (parse_response_dict depth r) as [d H]. exists d. by rewrite H.
Qed.

Lemma report_raise (console : string -> option string)
    (py_str : pyval -> string) (d : diagnostic) (e : exn) :
  report console py_str d = Raise e ->
  exn_kind e = UnicodeEncodeError
  /\ exists text, console text = Some (exn_message e).
Proof.
  unfold report. destruct (report_line py_str d) as [line|]; [| done].
  intros [Hk Hc]%py_print_raise. eauto.
Qed.

Section FileActionsResult.
Context (console : string -> option string).
Context (py_str : pyval -> string).


Lemma file_actions_loop_raises (base_dir : string) (items : list pyval)
    (disk disk' : fs) (log : list diagnostic) (e : exn) :
  file_actions_loop console py_str base_dir items disk log = (Raise e, disk') ->
  (exn_kind e = AttributeError
   /\ exists item, In item items /\ forall action, item <> PDict action)
  \/ (exn_kind e = UnicodeEncodeError
      /\ exists text, console text = Some (exn_message e)).
Proof.
  revert disk log. induction items as [|item rest IH]; intros disk log H;
    [done |].
  destruct item as [| | | | | | | | action];
    try (injection H as <- <-; left; split; [done |]; eexists;
         split; [by left | done]).
  cbn [file_actions_loop] in H.
  destruct (file_action_step console py_str base_dir action disk)
    as [[d | e0] disk1] eqn:Hstep.
  - destruct (IH _ _ H) as [(Hk & it & Hin & Hnd) | Hprint]; [| by right].
    left. split; [done |]. exists it. split; [by right | done].
  - injection H as <- <-. right.
    apply file_action_step_raise in Hstep as (_ & cause & _ & Hr).
    by apply report_raise in Hr.
Qed.

(** How the call raises. *)
Lemma execute_file_actions_raise_cases (base_dir : string)
    (file_actions : pyval) (disk disk' : fs) (e : exn) :
  execute_file_actions console py_str base_dir file_actions disk
    = (Raise e, disk') ->
  (py_iter file_actions = Raise e /\ exn_kind e = TypeError)
  \/ (exn_kind e = AttributeError
      /\ exists items item,
           py_iter file_actions = Ok items /\ In item items
           /\ forall action, item <> PDict action)
  \/ (exn_kind e = UnicodeEncodeError
      /\ exists text, console text = Some (exn_message e)).
Proof.
  unfold execute_file_actions.
  destruct (py_iter file_actions) as [items | e0] eqn:Hiter.
  - intros [(Hk & item & Hin & Hnd) | Hprint]%file_actions_loop_raises;
      [| by right; right].
    right. left. split; [done |]. by exists items, item.
  - intros [= <- <-]. left. split; [done |].
    destruct file_actions; try done; by injection Hiter as <-.
Qed.


End FileActionsResult.


Lemma find_char_app_none (c : ascii) (a b : string) :
  find_char c a = None -> find_char c b = None -> find_char c (a +:+ b) = None.
Proof.
  intros Ha Hb. induction a as [|x a IH]; str_simpl; [done |].
  simpl in Ha. destruct (ascii_eqb x c); [done |].
  destruct (find_char c a); [done |]. by rewrite IH.
Qed.

Lemma parse_text_without_brace (depth : nat) (text : string) :
  find_char "{"%char text = None ->
  parse_response depth (Message [TextBlock (PStr text)]) = Ok empty_actions.
Proof.
  intros H. unfold parse_response, parse_text.
  cbn [extract_text concat_text_blocks]. rewrite str_app_nil_l.
  cbn [mbind result_bind]. rewrite find_json_candidate.
  unfold json_candidate. by rewrite H.
Qed.

Lemma mock_text_without_brace (prompt : string) (system_prompt : option string) :
  find_char "{"%char (take_chars 50 prompt) = None ->
  (forall sp, system_prompt = Some sp ->
     find_char "{"%char (take_chars 20 sp) = None) ->
  find_char "{"%char (mock_text prompt system_prompt) = None.
Proof.
  intros Hp Hs. unfold mock_text.
  set (text := if contains "hello" (str_lower prompt) then _ else _).
  assert (Htext : find_char "{"%char text = None).
  { unfold text. destruct (contains "hello" (str_lower prompt)); [done |].
    apply (find_char_app_none _ "I received your prompt: "); [done |].
    by apply find_char_app_none. }
  destruct system_prompt as [sp |]; [| done].
  destruct (negb (str_eqb sp EmptyString)); [| done].
  apply find_char_app_none; [done |].
  apply (find_char_app_none _ " (Following system instructions: "); [done |].
  apply find_char_app_none; [by apply Hs | done].
Qed.

(** X17.  [MockAPIClient.send_message] with [parse_response]: when the
    first 50 characters of the prompt and the first 20 of the system prompt
    have no opening brace, the reply of the mock client parses to the
    actions with no file action and no shell action. *)
Theorem mock_reply_has_no_actions (depth : nat) (prompt : string)
    (system_prompt : option string) :
  find_char "{"%char (take_chars 50 prompt) = None ->
  (forall sp, system_prompt = Some sp ->
     find_char "{"%char (take_chars 20 sp) = None) ->
  parse_response depth (mock_send_message prompt system_prompt)
  = Ok empty_actions.
Proof.
  intros Hp Hs. unfold mock_send_message.
  by apply parse_text_without_brace, mock_text_without_brace.
Qed.

Lemma mock_reply_has_no_actions_witness :
  parse_response 1000
    (mock_send_message "Sort the numbers in the file data.txt and print them as {a, b}"
       (Some "Reply with one JSON object {...}"))
  = Ok empty_actions.
Proof.
  apply (mock_reply_has_no_actions 1000
           "Sort the numbers in the file data.txt and print them as {a, b}"
           (Some "Reply with one JSON object {...}")).
  - reflexivity.
  - intros sp [= <-]. reflexivity.
Defined.

Lemma chars_of_plain (c c' : ascii) (s : string) :
  (nat_of_ascii c' <? 128)%nat = true ->
  chars_of (String c (String c' s))
  = String c EmptyString :: chars_of (String c' s).
Proof.
  intros Hc'. destruct (chars_of_head c' s) as (t & ps & E).
  change (chars_of (String c (String c' s)))
    with (match chars_of (String c' s) with
          | p :: ps =>
              match p with
              | String c' _ =>
                  if ((128 <=? nat_of_ascii c') && (nat_of_ascii c' <? 192))%nat
                  then String c p :: ps
                  else String c EmptyString :: p :: ps
              | EmptyString => String c EmptyString :: ps
              end
          | [] => [String c EmptyString]
          end).
  rewrite E. apply Nat.ltb_lt in Hc'.
  replace (128 <=? nat_of_ascii c')%nat with false; [done |].
  symmetry. apply Nat.leb_gt. lia.
Qed.

(** The first characters of a text that begins with units below 128 are
    these units. *)
Lemma take_chars_ascii (pre : string) (c : ascii) (r : string) :
  is_ascii (pre +:+ String c EmptyString) = true ->
  take_chars (str_length pre) (pre +:+ String c r) = pre.
Proof.
  induction pre as [|a pre IH]; intros H; [done |].
  rewrite !str_app_cons in *. cbn [is_ascii] in H.
  apply andb_true_iff in H as [Ha Hrest].
  assert (Hnext : exists c' s, pre +:+ String c r = String c' s
                               /\ (nat_of_ascii c' <? 128)%nat = true).
  { destruct pre as [|b pre'].
    - exists c, r. split; [done |]. rewrite str_app_nil_l in Hrest.
      cbn [is_ascii] in Hrest. by apply andb_true_iff in Hrest as [? _].
    - rewrite str_app_cons in *. exists b, (pre' +:+ String c r).
      split; [done |]. cbn [is_ascii] in Hrest.
      by apply andb_true_iff in Hrest as [? _]. }
  destruct Hnext as (c' & s & Heq & Hc').
  specialize (IH Hrest). unfold take_chars in *. rewrite Heq in *.
  rewrite chars_of_plain by done. cbn [str_length take foldr].
  rewrite IH. done.
Qed.

Section MockFacts.
Context {Ext : Type}.
Context (spawn : string -> string -> Z -> world Ext -> proc_outcome * world Ext).
Context (getcwd : world Ext -> result string).
Context (console : string -> option string).
Context (py_str : pyval -> string).
Context (recursion_limit : nat).
Context (prompt_tail : string -> Z -> option string -> world Ext -> result string).
Context (system_tail : Z -> string).

Lemma mock_generate_code_reply (topic : string) (i : Z)
    (current_result : option string) (w w1 : world Ext) (reply : response) :
  mock_generate_code prompt_tail system_tail topic i current_result w
    = (Ok reply, w1) ->
  parse_response recursion_limit reply = Ok empty_actions.
Proof.
  unfold mock_generate_code.
  destruct (prompt_tail topic i current_result w) as [rest | e]; [| done].
  intros [= <- _]. unfold mock_send_message.
  apply parse_text_without_brace, mock_text_without_brace.
  - change (prompt_head +:+ rest)
      with ((nl +:+ "        I need you to help me with the following ")
            +:+ String "t"%char ("ask: " +:+ rest)).
    pose proof (take_chars_ascii
                  (nl +:+ "        I need you to help me with the following ")
                  "t"%char ("ask: " +:+ rest) eq_refl) as Hhead.
    change (str_length _) with 50%nat in Hhead. by rewrite Hhead.
  - intros sp [= <-].
    change (system_prompt_head +:+ system_tail i)
      with ((nl +:+ "        You are Aut")
            +:+ String "o"%char
                  ("Codeforge, an AI system that helps generate and optimize code."
                   +:+ system_tail i)).
    pose proof (take_chars_ascii (nl +:+ "        You are Aut") "o"%char
                  ("Codeforge, an AI system that helps generate and optimize code."
                   +:+ system_tail i) eq_refl) as Hhead.
    change (str_length _) with 20%nat in Hhead. by rewrite Hhead.
Qed.

Lemma mock_run_iteration (app : autocodeforge) (topic : string) (i : Z)
    (current_result : option string) (w w1 : world Ext)
    (actions : pyval) (result : string) (a : analysis) :
  run_iteration spawn getcwd console (mock_generate_code prompt_tail system_tail)
    py_str recursion_limit app topic i current_result w
    = (Ok (actions, result, a), w1) ->
  actions = empty_actions /\ result = EmptyString
  /\ a = analyze EmptyString.
Proof.
  unfold run_iteration.
  destruct (mock_generate_code prompt_tail system_tail topic i current_result w)
    as [[reply | e] w0] eqn:Hgen; [| done].
  rewrite (mock_generate_code_reply _ _ _ _ _ _ Hgen).
  assert (Hf : actions_get empty_actions "file_actions" = Ok (PList []))
    by reflexivity.
  assert (Hs : actions_get empty_actions "shell_actions" = Ok (PList []))
    by reflexivity.
  rewrite Hf, Hs. unfold execute_file_actions. cbn [py_iter file_actions_loop].
  unfold execute_shell_actions.
  destruct (execute spawn getcwd (project_path app) check_cmd 300 _)
    as [[check_dir | e] w2]; [| done].
  cbn [py_iter shell_loop join]. by intros [= <- <- <- _].
Qed.

Lemma mock_cycle_loop (app : autocodeforge) (topic : string) (remaining : nat)
    (i : Z) (current_result : option string) (w w' : world Ext)
    (history0 history : list iteration_record) (how : stop) :
  cycle_loop spawn getcwd console (mock_generate_code prompt_tail system_tail)
    py_str recursion_limit app topic remaining i current_result w history0
    = (history, how, w') ->
  how <> Terminated
  /\ exists new,
       history = history0 ++ new
       /\ Forall (fun rec => ir_actions rec = empty_actions
                             /\ ir_transcript rec = EmptyString
                             /\ ir_outcome rec = analyze EmptyString) new.
Proof.
  revert i current_result w history0.
  induction remaining as [|remaining IH]; intros i cur w history0 H.
  - cbn in H. injection H as <- <- <-. split; [done |]. exists [].
    by rewrite app_nil_r.
  - cbn [cycle_loop] in H.
    destruct (run_iteration _ _ _ _ _ _ app topic i cur w)
      as [[[[actions result] a] | e] w1] eqn:Hit.
    + apply mock_run_iteration in Hit as (-> & -> & ->).
      rewrite report_iteration_empty in H.
      change (terminate (analyze EmptyString)) with false in H. cbv iota in H.
      destruct (IH _ _ _ _ H) as (Hhow & new & -> & Hall).
      split; [done |]. eexists (_ :: new).
      split; [by rewrite <- app_assoc |]. by constructor.
    + injection H as <- <- <-. split; [done |]. exists [].
      by rewrite app_nil_r.
Qed.

(** X18.  [AutoCodeforge.run_cycle] with the mock client: the prompt and
    the system prompt begin with fixed texts longer than what the mock
    client quotes of them, so each reply parses to no actions; every
    iteration that completes has the empty transcript, is classified as
    "Empty result", and the cycle never ends early. *)
Theorem mock_cycle_never_ends_early (app : autocodeforge) (topic : string)
    (iterations : Z) (w w' : world Ext) (history : list iteration_record)
    (how : stop) :
  run_cycle spawn getcwd console (mock_generate_code prompt_tail system_tail)
    py_str recursion_limit app topic iterations w = (history, how, w') ->
  how <> Terminated
  /\ Forall (fun rec => ir_actions rec = empty_actions
                        /\ ir_transcript rec = EmptyString
                        /\ success (ir_outcome rec) = false
                        /\ reason (ir_outcome rec) = "Empty result") history.
Proof.
  unfold run_cycle.
  destruct (cycle_loop _ _ _ _ _ _ app topic (Z.to_nat iterations) 0 None w [])
    as [[history0 how0] w0] eqn:Hloop.
  apply mock_cycle_loop in Hloop as (Hhow & new & -> & Hall).
  rewrite app_nil_l.
  assert (Hall' : Forall (fun rec => ir_actions rec = empty_actions
                        /\ ir_transcript rec = EmptyString
                        /\ success (ir_outcome rec) = false
                        /\ reason (ir_outcome rec) = "Empty result") new).
  { eapply Forall_impl; [exact Hall |]. intros rec (Ha & Ht & ->). done. }
  destruct how0 as [| | e].
  - done.
  - destruct (iterations <=? 0); [by intros [= <- <- _] |].
    destruct (report_cycle console app _); by intros [= <- <- _].
  - intros [= <- <- _]. done.
Qed.

End MockFacts.

Lemma py_iter_raises (v : pyval) (e : exn) :
  py_iter v = Raise e -> exn_kind e = TypeError.
Proof. destruct v; try done; by intros [= <-]. Qed.

Section CycleFacts.
Context {Ext : Type}.
Context (spawn : string -> string -> Z -> world Ext -> proc_outcome * world Ext).
Context (getcwd : world Ext -> result string).
Context (console : string -> option string).
Context (generate_code : string -> Z -> option string -> world Ext ->
                    result response * world Ext).
Context (py_str : pyval -> string).
Context (recursion_limit : nat).

(** X19.  One round of [AutoCodeforge.run_cycle]: an exception that leaves
    the round has one of these origins.  The generator raised it.  Or the
    reply was parsed to a dictionary and: iterating the file actions or the
    shell actions raised it (a [TypeError]); or a file action is not a
    dictionary (an [AttributeError]); or the directory check before the
    commands raised it, which [execute] does while it makes the working
    directory, asks for the current directory or kills a process that ran
    out of time; or it is the [UnicodeEncodeError] of a line that the
    console cannot print.  Nothing else ends the round with an exception:
    not the reply, whatever its text, and a file action or a command that
    fails only when the line that reports the failure cannot be
    printed. *)
Theorem iteration_exceptions (app : autocodeforge) (topic : string) (i : Z)
    (current_result : option string) (w w' : world Ext) (e : exn) :
  run_iteration spawn getcwd console generate_code py_str recursion_limit app
    topic i current_result w = (Raise e, w') ->
  generate_code topic i current_result w = (Raise e, w')
  \/ exists reply w1 d,
       generate_code topic i current_result w = (Ok reply, w1)
       /\ parse_response recursion_limit reply = Ok (PDict d)
       /\ ((py_iter (dict_get "file_actions" d (PList [])) = Raise e
            /\ exn_kind e = TypeError)
           \/ (exn_kind e = AttributeError
               /\ exists items item,
                    py_iter (dict_get "file_actions" d (PList [])) = Ok items
                    /\ In item items /\ forall action, item <> PDict action)
           \/ (exists disk,
                 execute spawn getcwd (project_path app) check_cmd 300
                   (set_disk w1 disk) = (Raise e, w'))
           \/ (py_iter (dict_get "shell_actions" d (PList [])) = Raise e
               /\ exn_kind e = TypeError)
           \/ (exn_kind e = UnicodeEncodeError
               /\ exists text, console text = Some (exn_message e))).
Proof.
  unfold run_iteration.
  destruct (generate_code topic i current_result w) as [[reply | e0] w1];
    [| intros [= <- <-]; by left].
  destruct (parse_response_dict recursion_limit reply) as [d Hd]. rewrite Hd.
  cbn [actions_get]. intros H. right. exists reply, w1, d.
  split; [done |]. split; [done |].
  destruct (execute_file_actions console py_str (file_manager_path app)
              (dict_get "file_actions" d (PList [])) (w_disk w1))
    as [[log | e0] disk] eqn:Hfile.
  2:{ injection H as <- <-.
      destruct (execute_file_actions_raise_cases console py_str _ _ _ _ _ Hfile)
        as [Hiter | [Hitem | Hprint]]; [by left | by right; left |].
      by right; right; right; right. }
  unfold execute_shell_actions in H.
  destruct (execute spawn getcwd (project_path app) check_cmd 300 _)
    as [[check_dir | e0] w2] eqn:Hcheck.
  2:{ injection H as <- <-. right. right. left. by exists disk. }
  destruct (py_iter (dict_get "shell_actions" d (PList []))) as [cmds | e0]
    eqn:Hcmds.
  2:{ injection H as <- <-. right. right. right. left. split; [done |].
      by eapply py_iter_raises. }
  destruct (shell_loop _ _ _ _ _ _ _ _) as [[all | e0] w3] eqn:Hloop; [done |].
  injection H as <- <-. right. right. right. right.
  by apply shell_loop_raise in Hloop.
Qed.

End CycleFacts.
(* ===================================================================== *)
(** * 22. The configuration and the project directory *)
(* ===================================================================== *)

Lemma dict_lookup_set_eq (k : string) (v : pyval) (d : list (string * pyval)) :
  dict_lookup k (dict_set k v d) = Some v.
Proof.
  induction d as [|[k' v'] d IH]; simpl.
  - by rewrite (proj2 (str_eqb_eq k k) eq_refl).
  - destruct (str_eqb k k') eqn:E; simpl.
    + by rewrite (proj2 (str_eqb_eq k k) eq_refl).
    + by rewrite E.
Qed.

Lemma dict_lookup_set_ne (k k0 : string) (v : pyval) (d : list (string * pyval)) :
  k <> k0 -> dict_lookup k (dict_set k0 v d) = dict_lookup k d.
Proof.
  intros Hne. apply str_eqb_neq in Hne.
  induction d as [|[k' v'] d IH]; simpl.
  - by rewrite Hne.
  - destruct (str_eqb k0 k') eqn:E; simpl.
    + apply str_eqb_eq in E as <-. by rewrite Hne.
    + by rewrite IH.
Qed.

Lemma dict_lookup_None (k : string) (d : list (string * pyval)) :
  k ∉ d.*1 -> dict_lookup k d = None.
Proof.
  induction d as [|[k' v'] d IH]; simpl; [done |]. intros Hk.
  apply not_elem_of_cons in Hk as [Hne Hk]. apply str_eqb_neq in Hne.
  rewrite Hne. by apply IH.
Qed.

(** One round of the loop of [deep_update]. *)
Lemma deep_update_cons (target : list (string * pyval)) (key : string)
    (value : pyval) (rest : list (string * pyval)) :
  deep_update target (PDict ((key, value) :: rest))
  = deep_update
      (match dict_lookup key target, value with
       | Some (PDict nested), PDict _ =>
           dict_set key (PDict (deep_update nested value)) target
       | _, _ => dict_set key value target
       end) (PDict rest).
Proof.
  cbn [deep_update].
  destruct (dict_lookup key target) as [[] |]; try done.
  by destruct value.
Qed.

(** X20.  [config.deep_update], for a source whose keys are distinct: a key
    the source does not have keeps the value it had in the target; a key
    whose values in the target and in the source are both dictionaries gets
    the target's dictionary updated by the source's; every other key of the
    source gets the source's value. *)
Theorem deep_update_lookup (target source : list (string * pyval)) (k : string) :
  NoDup source.*1 ->
  dict_lookup k (deep_update target (PDict source))
  = match dict_lookup k source with
    | None => dict_lookup k target
    | Some value =>
        match dict_lookup k target, value with
        | Some (PDict nested), PDict _ =>
            Some (PDict (deep_update nested value))
        | _, _ => Some value
        end
    end.
Proof.
  revert target. induction source as [|[k0 v0] rest IH]; intros target Hnd;
    [done |].
  apply NoDup_cons in Hnd as [Hk0 Hnd]. cbn [fst] in Hk0.
  rewrite deep_update_cons.
  rewrite (IH _ Hnd). cbn [dict_lookup].
  destruct (str_eqb k k0) eqn:E.
  - apply str_eqb_eq in E as ->. rewrite (dict_lookup_None _ _ Hk0).
    destruct (dict_lookup k0 target) as [[] |]; try (by rewrite dict_lookup_set_eq).
    destruct v0; by rewrite dict_lookup_set_eq.
  - apply str_eqb_neq in E.
    assert (Hsame : dict_lookup k
              (match dict_lookup k0 target, v0 with
               | Some (PDict nested), PDict _ =>
                   dict_set k0 (PDict (deep_update nested v0)) target
               | _, _ => dict_set k0 v0 target
               end) = dict_lookup k target).
    { destruct (dict_lookup k0 target) as [[] |];
        try (by rewrite dict_lookup_set_ne).
      destruct v0; by rewrite dict_lookup_set_ne. }
    by rewrite Hsame.
Qed.

Lemma deep_update_lookup_witness :
  dict_lookup "api"
    (deep_update
       [("api", PDict [("default_provider", PStr "claude");
                       ("providers", PDict [("mock", PDict [])])]);
        ("execution", PDict [("default_iterations", PInt 5)])]
       (PDict [("api", PDict [("default_provider", PStr "mock")])]))
  = Some (PDict [("default_provider", PStr "mock");
                 ("providers", PDict [("mock", PDict [])])]).
Proof.
  rewrite (deep_update_lookup _ [("api", PDict [("default_provider", PStr "mock")])]
             "api").
  - reflexivity.
  - apply NoDup_singleton.
Defined.

Lemma str_forall_impl (p q : ascii -> bool) (s : string) :
  (forall c, p c = true -> q c = true) ->
  str_forall p s = true -> str_forall q s = true.
Proof.
  intros Hpq. induction s as [|c s IH]; simpl; [done |].
  intros [Hc Hs]%andb_true_iff. by rewrite (Hpq _ Hc), IH.
Qed.

Lemma str_forall_take (p : ascii -> bool) (n : nat) (s : string) :
  str_forall p s = true -> str_forall p (str_take n s) = true.
Proof.
  revert n. induction s as [|c s IH]; intros [|n]; simpl; try done.
  intros [Hc Hs]%andb_true_iff. by rewrite Hc, IH.
Qed.

Lemma str_length_take (n : nat) (s : string) :
  (str_length (str_take n s) <= n)%nat.
Proof.
  revert n. induction s as [|c s IH]; intros [|n]; simpl; try lia.
  specialize (IH n). lia.
Qed.

Lemma lower_char_not_upper (c : ascii) :
  let n := nat_of_ascii (lower_char c) in
  ((65 <=? n) && (n <=? 90))%nat = false.
Proof. destruct c as [[] [] [] [] [] [] [] []]; reflexivity. Qed.

Lemma name_char_safe (c : ascii) :
  let n := nat_of_ascii c in
  ((65 <=? n) && (n <=? 90))%nat = false ->
  name_char c = true -> safe_char c = true.
Proof. destruct c as [[] [] [] [] [] [] [] []]; cbv; done. Qed.

Lemma safe_char_facts (c : ascii) :
  safe_char c = true ->
  is_space c = false /\ lower_char c = c /\ name_char c = true
  /\ ascii_eqb c " "%char = false /\ ascii_eqb c sep = false
  /\ ascii_eqb c "."%char = false.
Proof. destruct c as [[] [] [] [] [] [] [] []]; cbv; done. Qed.

Lemma sanitize_filtered_safe (s : string) :
  str_forall safe_char
    (str_filter name_char (replace_char " "%char "_"%char (str_lower s))) = true.
Proof.
  induction s as [|c s IH]; [done |]. cbn [str_lower replace_char str_filter].
  set (c' := if ascii_eqb (lower_char c) " "%char then "_"%char else lower_char c).
  destruct (name_char c') eqn:Hn; [| done].
  cbn [str_forall]. rewrite IH, andb_true_r.
  apply name_char_safe; [| done]. unfold c'.
  destruct (ascii_eqb (lower_char c) " "%char); [done |].
  apply lower_char_not_upper.
Qed.

Lemma sanitize_safe (project_name : string) :
  let s := sanitize_project_name project_name in
  str_forall safe_char s = true /\ s <> EmptyString
  /\ (str_length s <= 50)%nat.
Proof.
  cbv zeta. unfold sanitize_project_name.
  set (f := str_filter name_char _).
  assert (Hf : str_forall safe_char f = true) by apply sanitize_filtered_safe.
  set (g := if str_eqb f EmptyString then "project" else f).
  assert (Hg : str_forall safe_char g = true /\ g <> EmptyString).
  { unfold g. destruct (str_eqb f EmptyString) eqn:E; [done |].
    by apply str_eqb_neq in E. }
  destruct Hg as [Hg Hne].
  destruct (50 <? Z.of_nat (str_length g)) eqn:Hlen.
  - unfold py_slice. cbn [Z.sub Z.to_nat Pos.to_nat Pos.iter_op Nat.add str_drop].
    change (Z.to_nat (50 - 0)) with 50%nat. change (Z.to_nat 0) with 0%nat.
    replace (str_drop 0 g) with g by (by destruct g).
    split; [by apply str_forall_take |]. split; [| apply str_length_take].
    destruct g; [done |]. done.
  - apply Z.ltb_ge in Hlen. split; [done |]. split; [done | lia].
Qed.

Lemma safe_lstrip (s : string) :
  str_forall safe_char s = true -> lstrip s = s.
Proof.
  destruct s as [|c s]; [done |]. simpl. intros [Hc _]%andb_true_iff.
  by destruct (safe_char_facts _ Hc) as (-> & _).
Qed.

Lemma safe_rstrip (s : string) :
  str_forall safe_char s = true -> rstrip s = s.
Proof.
  induction s as [|c s IH]; [done |]. cbn [str_forall rstrip].
  intros [Hc Hs]%andb_true_iff. rewrite (IH Hs).
  destruct (safe_char_facts _ Hc) as (-> & _). by destruct s.
Qed.

Lemma safe_lower (s : string) :
  str_forall safe_char s = true -> str_lower s = s.
Proof.
  induction s as [|c s IH]; [done |]. cbn [str_forall str_lower].
  intros [Hc Hs]%andb_true_iff. rewrite (IH Hs).
  by destruct (safe_char_facts _ Hc) as (_ & -> & _).
Qed.

Lemma safe_replace (s : string) :
  str_forall safe_char s = true -> replace_char " "%char "_"%char s = s.
Proof.
  induction s as [|c s IH]; [done |]. cbn [str_forall replace_char].
  intros [Hc Hs]%andb_true_iff. rewrite (IH Hs).
  by destruct (safe_char_facts _ Hc) as (_ & _ & _ & -> & _).
Qed.

Lemma safe_filter (s : string) :
  str_forall safe_char s = true -> str_filter name_char s = s.
Proof.
  induction s as [|c s IH]; [done |]. cbn [str_forall str_filter].
  intros [Hc Hs]%andb_true_iff. rewrite (IH Hs).
  by destruct (safe_char_facts _ Hc) as (_ & _ & -> & _).
Qed.

Lemma safe_plain_name (s : string) :
  str_forall safe_char s = true -> s <> EmptyString -> plain_name s.
Proof.
  intros Hs Hne. split; [done |]. split.
  - clear Hne. induction s as [|c s IH]; [done |]. simpl in *.
    apply andb_true_iff in Hs as [Hc Hs].
    destruct (safe_char_facts _ Hc) as (_ & _ & _ & _ & -> & _).
    by rewrite (IH Hs).
  - destruct s as [|c s]; [done |]. simpl in Hs.
    apply andb_true_iff in Hs as [Hc Hs].
    destruct (safe_char_facts _ Hc) as (_ & _ & _ & _ & _ & Hdot).
    apply ascii_eqb_neq in Hdot. split; congruence.
Qed.

(** X21.  [FileManager._sanitize_project_name] and
    [config.sanitize_project_name], for a name made of units below 128: the
    result is not empty, has at most 50 characters, each of them a digit, a
    small letter, the underscore or the hyphen; so it is a plain directory
    name (no separator, neither [.] nor [..]), and sanitizing it again
    gives it back. *)
Theorem sanitize_project_name_safe (project_name : string) :
  is_ascii project_name = true ->
  let s := sanitize_project_name project_name in
  s <> EmptyString
  /\ (str_length s <= 50)%nat
  /\ str_forall safe_char s = true
  /\ plain_name s
  /\ sanitize_project_name s = s.
Proof.
  intros _. cbv zeta.
  destruct (sanitize_safe project_name) as (Hs & Hne & Hlen).
  set (s := sanitize_project_name project_name) in *.
  split; [done |]. split; [done |]. split; [done |].
  split; [by apply safe_plain_name |].
  unfold sanitize_project_name, strip.
  rewrite safe_lstrip, safe_rstrip, safe_lower, safe_replace, safe_filter by done.
  apply str_eqb_neq in Hne. rewrite Hne.
  replace (50 <? Z.of_nat (str_length s)) with false; [done |].
  symmetry. apply Z.ltb_ge. lia.
Qed.

Lemma sanitize_project_name_safe_witness :
  let s := sanitize_project_name "  My Project: v2.0 (final)/../x " in
  s <> EmptyString
  /\ (str_length s <= 50)%nat
  /\ str_forall safe_char s = true
  /\ plain_name s
  /\ sanitize_project_name s = s.
Proof.
  apply (sanitize_project_name_safe "  My Project: v2.0 (final)/../x ").
  reflexivity.
Defined.

Lemma normpath_loop_plain (rooted : bool) (s : string) (stack : list string) :
  plain_name s -> normpath_loop rooted [s] stack = rev stack ++ [s].
Proof.
  intros (Hne & _ & Hdot & Hdots). cbn [normpath_loop].
  apply str_eqb_neq in Hne, Hdot, Hdots. by rewrite Hne, Hdot, Hdots.
Qed.

Lemma endswith_char_inv (s : string) (c : ascii) :
  endswith_char s c = true -> exists t, s = t +:+ String c EmptyString.
Proof.
  induction s as [|a s IH]; [done |]. destruct s as [|b s].
  - simpl. intros ->%ascii_eqb_eq. by exists EmptyString.
  - intros H. destruct (IH H) as [t ->]. by exists (String a t).
Qed.

Lemma plain_name_startswith (s : string) :
  plain_name s -> startswith s "/" = false.
Proof.
  intros (Hne & Hsep & _). destruct s as [|c s]; [done |]. simpl in *.
  unfold sep in Hsep. destruct (ascii_eqb c "/") eqn:E; [done |].
  rewrite ascii_eqb_neq in E.
  destruct (ascii_eqb "/" c) eqn:E'; [| done].
  apply ascii_eqb_eq in E'. congruence.
Qed.

Lemma rooted_app (a b : string) :
  a <> EmptyString ->
  negb (initial_slashes (a +:+ b) =? 0)%nat = negb (initial_slashes a =? 0)%nat.
Proof.
  intros Hne. destruct a as [|c a]; [done |]. unfold initial_slashes.
  rewrite str_app_cons. cbn [startswith].
  destruct (ascii_eqb "/" c); cbn [andb]; [| done].
  by repeat match goal with |- context [if ?b then _ else _] => destruct b end.
Qed.

(** The project directory of a plain name is the entry of that name in the
    base directory. *)
Lemma locate_join_plain (base s : string) :
  plain_name s -> locate (path_join base s) = locate base ++ [s].
Proof.
  intros Hs. pose proof Hs as (Hne & Hsep & _).
  unfold path_join. rewrite (plain_name_startswith _ Hs).
  unfold locate.
  destruct (str_eqb base EmptyString) eqn:Hb; cbn [orb].
  { apply str_eqb_eq in Hb as ->. rewrite str_app_nil_l.
    rewrite (split_on_whole _ _ Hsep).
    rewrite normpath_loop_plain by done. done. }
  apply str_eqb_neq in Hb.
  destruct (endswith_char base sep) eqn:He.
  - destruct (endswith_char_inv _ _ He) as [t ->].
    rewrite str_app_assoc, str_app_cons, str_app_nil_l.
    rewrite !split_on_app_sep, (split_on_whole _ _ Hsep).
    change (split_on sep EmptyString) with [EmptyString].
    rewrite !normpath_loop_app.
    rewrite normpath_loop_plain by done. cbn [normpath_loop].
    change (str_eqb EmptyString EmptyString || str_eqb EmptyString ".") with true.
    cbv iota. by rewrite !rev_involutive.
  - rewrite str_app_cons, str_app_nil_l.
    change (String "/"%char s) with (String sep s).
    rewrite (split_on_app_sep sep base s), (split_on_whole sep s Hsep).
    rewrite normpath_loop_app, normpath_loop_plain by done.
    by rewrite rev_involutive.
Qed.

(** The last component of a plain name joined to a base is the name. *)
Lemma split_twice_join_plain (base s : string) :
  plain_name s -> (split_twice (path_join base s)).2 = s.
Proof.
  intros Hplain. pose proof Hplain as (Hne & Hfree & _).
  assert (Hsplit : forall pre, (split_twice (pre +:+ String sep s)).2 = s).
  { intros pre. unfold split_twice. rewrite path_split_sep by done.
    apply str_eqb_neq in Hne. by rewrite Hne. }
  unfold path_join. rewrite (plain_name_startswith _ Hplain).
  destruct (str_eqb base EmptyString) eqn:Hb; cbn [orb].
  { apply str_eqb_eq in Hb as ->. rewrite str_app_nil_l.
    unfold split_twice. rewrite path_split_free by done.
    apply str_eqb_neq in Hne. by rewrite Hne. }
  destruct (endswith_char base sep) eqn:He.
  - apply endswith_char_inv in He as [pre ->].
    rewrite str_app_assoc. apply Hsplit.
  - apply (Hsplit base).
Qed.

(** X22.  [config.get_project_path] with project subdirectories, for a name
    made of units below 128: the project directory is the entry with the
    sanitized name in the base directory, whatever the name is; when the
    call returns, that entry is a directory, and everything that was on the
    disk is still there. *)
Theorem project_directory_is_child_of_base (base_path project_name : string)
    (disk : fs) :
  is_ascii project_name = true ->
  let run := get_project_path base_path true project_name disk in
  forall project_path,
    run.1 = Ok project_path ->
    locate project_path
      = locate base_path ++ [sanitize_project_name project_name]
    /\ node_at run.2 (locate project_path) = Some Dir
    /\ forall loc n, disk !! loc = Some n -> run.2 !! loc = Some n.
Proof.
  intros _. cbv zeta. unfold get_project_path. intros project_path.
  destruct (sanitize_safe project_name) as (Hs & Hne & _).
  pose proof (safe_plain_name _ Hs Hne) as Hplain.
  set (p := path_join base_path (sanitize_project_name project_name)).
  destruct (os_makedirs p disk) as [[[] | e] disk'] eqn:Hmk; [| done].
  cbn [fst snd]. intros [= <-].
  pose proof (locate_join_plain base_path _ Hplain) as Hloc. fold p in Hloc.
  split; [done |]. split.
  - assert (Htail : (split_twice p).2 <> ".").
    { unfold p. rewrite split_twice_join_plain by done. by destruct Hplain as (_ & _ & ? & _). }
    apply (os_makedirs_ok _ _ _ _ Hmk) in Htail.
    apply os_path_isdir_spec in Htail as (_ & _ & loc & Hw & Hn).
    apply walk_locate in Hw. rewrite locate_rstrip_sep in Hw. by subst loc.
  - intros loc n. by eapply os_makedirs_preserves.
Qed.

Lemma project_directory_is_child_of_base_witness :
  let run := get_project_path "/work/projects" true "../../etc/passwd"
               example_disk in
  run.1 = Ok "/work/projects/etcpasswd"
  /\ locate "/work/projects/etcpasswd"
     = locate "/work/projects" ++ [sanitize_project_name "../../etc/passwd"]
  /\ node_at run.2 (locate "/work/projects/etcpasswd") = Some Dir
  /\ forall loc n, example_disk !! loc = Some n -> run.2 !! loc = Some n.
Proof.
  intros run. split; [by vm_compute |].
  apply (project_directory_is_child_of_base "/work/projects" "../../etc/passwd"
           example_disk eq_refl).
  by vm_compute.
Defined.

(* ===================================================================== *)
(** * 23. The paths that [get_full_path] accepts *)
(* ===================================================================== *)

Lemma startswith_nosep_prefix (b l t : string) :
  find_char sep b = None ->
  startswith (l +:+ String sep t) b = true -> startswith l b = true.
Proof.
  revert l. induction b as [|x b IH]; intros l Hb H; [done |].
  simpl in Hb. destruct (ascii_eqb x sep) eqn:Hx; [done |].
  destruct (find_char sep b) eqn:Hb'; [done |].
  destruct l as [|y l]; str_simpl; rewrite ?str_app_cons, ?str_app_nil_l in H;
    simpl in H.
  - by rewrite Hx in H.
  - apply andb_true_iff in H as [-> H]. by apply IH.
Qed.

Lemma startswith_sep_split (l b JL JB : string) :
  find_char sep l = None -> find_char sep b = None ->
  startswith (l +:+ String sep JL) (b +:+ String sep JB) = true ->
  l = b /\ startswith JL JB = true.
Proof.
  revert l. induction b as [|x b IH]; intros l Hl Hb H.
  - rewrite str_app_nil_l in H. destruct l as [|y l].
    + rewrite str_app_nil_l in H. cbn [startswith] in H.
      by apply andb_true_iff in H as [_ H].
    + rewrite str_app_cons in H. cbn [startswith] in H. simpl in Hl.
      apply andb_true_iff in H as [Hy _]. apply ascii_eqb_eq in Hy as <-.
      by rewrite ascii_eqb_refl in Hl.
  - simpl in Hb. destruct (ascii_eqb x sep) eqn:Hx; [done |].
    destruct (find_char sep b) eqn:Hb'; [done |].
    rewrite str_app_cons in H. destruct l as [|y l].
    + rewrite str_app_nil_l in H. simpl in H. by rewrite Hx in H.
    + rewrite str_app_cons in H. simpl in H, Hl.
      apply andb_true_iff in H as [Hxy H]. apply ascii_eqb_eq in Hxy as <-.
      rewrite Hx in Hl. destruct (find_char sep l) eqn:Hl'; [done |].
      destruct (IH l Hl' eq_refl H) as [-> HJ]. done.
Qed.

Lemma startswith_nosep_whole (l b JB : string) :
  find_char sep l = None ->
  startswith l (b +:+ String sep JB) = true -> False.
Proof.
  intros Hl H. destruct (startswith_inv _ _ H) as [t ->].
  rewrite str_app_assoc, str_app_cons in Hl. clear H.
  induction b as [|x b IH]; rewrite ?str_app_cons, ?str_app_nil_l in Hl;
    cbn [find_char] in Hl.
  - by rewrite ascii_eqb_refl in Hl.
  - destruct (ascii_eqb x sep); [done |].
    destruct (find_char sep (b +:+ String sep (JB +:+ t))); [done |]. by apply IH.
Qed.

Lemma join_sep_cons (p q : string) (rest : list string) :
  join "/" (p :: q :: rest) = p +:+ String sep (join "/" (q :: rest)).
Proof. reflexivity. Qed.

(** A list of names whose joined text begins with the joined text of
    another agrees with it up to the last name, which it extends. *)
Lemma startswith_join (B L : list string) :
  B <> [] ->
  Forall (fun s => find_char sep s = None) L ->
  Forall (fun s => find_char sep s = None) B ->
  Forall (fun s => s <> EmptyString) B ->
  startswith (join "/" L) (join "/" B) = true ->
  exists x rest, L = removelast B ++ (List.last B EmptyString +:+ x) :: rest.
Proof.
  revert L. induction B as [|b B IH]; intros L Hne HL HB HBne H; [done |].
  inversion HB as [|? ? Hb HB']; subst. inversion HBne as [|? ? Hbne HBne']; subst.
  destruct B as [|b2 B].
  - cbn [join removelast List.last app] in *.
    destruct L as [|l L].
    { simpl in H. by destruct b. }
    inversion HL as [|? ? Hl HL']; subst.
    assert (Hpre : startswith l b = true).
    { destruct L as [|l2 L]; [exact H |]. rewrite join_sep_cons in H.
      by eapply startswith_nosep_prefix. }
    destruct (startswith_inv _ _ Hpre) as [x ->]. by exists x, L.
  - rewrite join_sep_cons in H.
    destruct L as [|l L].
    { simpl in H. destruct b; [done |]. by rewrite str_app_cons in H. }
    inversion HL as [|? ? Hl HL']; subst.
    destruct L as [|l2 L].
    { cbn [join] in H. by apply startswith_nosep_whole in H. }
    rewrite join_sep_cons in H.
    apply startswith_sep_split in H as [-> H]; [| done | done].
    destruct (IH (l2 :: L)) as (x & rest & Heq); [done | done | done | done | done |].
    exists x, rest.
    change (removelast (b :: b2 :: B)) with (b :: removelast (b2 :: B)).
    change (List.last (b :: b2 :: B) EmptyString)
      with (List.last (b2 :: B) EmptyString).
    by rewrite Heq.
Qed.

Lemma normpath_loop_Forall (P : string -> Prop) (rooted : bool)
    (comps stack : list string) :
  Forall P comps -> Forall P stack ->
  Forall P (normpath_loop rooted comps stack).
Proof.
  revert stack. induction comps as [|c comps IH]; intros stack Hc Hs.
  - simpl. by apply Forall_rev.
  - inversion Hc as [|? ? Hc1 Hc2]; subst. cbn [normpath_loop].
    destruct (str_eqb c EmptyString || str_eqb c "."); [by apply IH |].
    destruct (negb (str_eqb c "..") || _ || _).
    + apply IH; [done | by constructor].
    + destruct stack as [|top stack]; [by apply IH |].
      inversion Hs; subst. by apply IH.
Qed.

Lemma normpath_loop_plain_list (rooted : bool) (names stack : list string) :
  Forall plain_name names ->
  normpath_loop rooted names stack = rev stack ++ names.
Proof.
  revert stack. induction names as [|s names IH]; intros stack H.
  - simpl. by rewrite app_nil_r.
  - inversion H as [|? ? Hs Hrest]; subst.
    change (s :: names) with ([s] ++ names).
    rewrite normpath_loop_app, normpath_loop_plain by done.
    rewrite IH by done. rewrite rev_involutive. by rewrite <- app_assoc.
Qed.

Lemma plain_name_head (s : string) :
  plain_name s -> exists c t, s = String c t /\ ascii_eqb "/"%char c = false.
Proof.
  intros Hs. pose proof (plain_name_startswith _ Hs) as H.
  destruct s as [|c t]; [by destruct Hs |]. exists c, t. split; [done |].
  simpl in H. by destruct (ascii_eqb "/" c).
Qed.

Lemma join_plain_head (B : list string) :
  B <> [] -> Forall plain_name B ->
  exists c t, join "/" B = String c t /\ ascii_eqb "/"%char c = false.
Proof.
  intros Hne HB. destruct B as [|b B]; [done |].
  inversion HB as [|? ? Hb _]; subst.
  destruct (plain_name_head _ Hb) as (c & t & -> & Hc).
  destruct B as [|b2 B]; [by exists c, t |].
  rewrite join_sep_cons, str_app_cons. by eexists c, _.
Qed.

(** The location of a rooted path made of plain names is these names. *)
Lemma locate_rooted (B : list string) :
  B <> [] -> Forall plain_name B -> locate ("/" +:+ join "/" B) = B.
Proof.
  intros Hne HB. destruct (join_plain_head B Hne HB) as (c & t & Hj & Hc).
  unfold locate.
  rewrite str_app_cons, str_app_nil_l. cbn [split_on].
  change (ascii_eqb "/"%char sep) with true. cbv iota.
  change (join "/" B) with (join (String sep EmptyString) B).
  rewrite split_on_join; [| done |].
  2:{ eapply Forall_impl; [exact HB |]. by intros s (_ & Hs & _). }
  cbn [normpath_loop].
  change (str_eqb EmptyString EmptyString || str_eqb EmptyString ".") with true.
  cbv iota. by rewrite normpath_loop_plain_list.
Qed.

(** For a rooted path, the components of the normal form are the
    location. *)
Lemma norm_comps_rooted (path : string) :
  startswith path "/" = true -> norm_comps path = locate path.
Proof.
  intros H. unfold norm_comps, locate, initial_slashes. rewrite H.
  by destruct (startswith path "//" && negb (startswith path "///")).
Qed.

Lemma path_join_rooted (base p : string) :
  startswith base "/" = true -> startswith (path_join base p) "/" = true.
Proof.
  intros Hb. unfold path_join. destruct (startswith p "/") eqn:Hp; [done |].
  destruct base as [|c base]; [done |].
  destruct (str_eqb _ _ || endswith_char _ _); rewrite str_app_cons;
    simpl in *; by destruct (ascii_eqb "/" c).
Qed.

(** X23.  [FileManager.get_full_path], for a project directory given by a
    rooted path of plain names: a path that is accepted names a place whose
    location begins with the names of the project directory, the last of
    them possibly extended.  So what is accepted lies in the project
    directory or in a directory beside it whose name begins with the name
    of the project directory, and nowhere else. *)
Theorem accepted_paths_extend_the_last_name (names : list string)
    (relative_path full_path : string) :
  names <> [] -> Forall plain_name names ->
  get_full_path ("/" +:+ join "/" names) (PStr relative_path) = Ok full_path ->
  locate ("/" +:+ join "/" names) = names
  /\ (inside ("/" +:+ join "/" names) (locate full_path)
      \/ exists x rest,
           x <> EmptyString
           /\ locate full_path
              = removelast names ++ (List.last names EmptyString +:+ x) :: rest).
Proof.
  intros Hne HB Hget. pose proof (locate_rooted names Hne HB) as Hbase.
  split; [done |]. revert Hget. unfold get_full_path.
  set (base := "/" +:+ join "/" names) in *.
  set (full := path_join base relative_path).
  destruct (startswith (normpath full) base) eqn:Hs; cbn [negb]; [| done].
  intros [= <-].
  assert (Hroot : startswith full "/" = true) by (by apply path_join_rooted).
  assert (Hfull : full <> EmptyString) by (intros E; by rewrite E in Hroot).
  destruct (join_plain_head names Hne HB) as (c & t & Hj & Hc).
  unfold normpath in Hs. apply str_eqb_neq in Hfull. rewrite Hfull in Hs.
  rewrite (norm_comps_rooted full Hroot) in Hs.
  assert (Hjoin : startswith (join "/" (locate full)) (join "/" names) = true).
  { unfold initial_slashes in Hs. rewrite Hroot in Hs.
    destruct (startswith full "//" && negb (startswith full "///")).
    - cbn [slashes] in Hs. rewrite !str_app_cons, str_app_nil_l in Hs.
      unfold base in Hs. rewrite str_app_cons, str_app_nil_l, Hj in Hs.
      simpl in Hs.
      assert (Hc' : ascii_eqb c sep = false).
      { apply ascii_eqb_neq. apply ascii_eqb_neq in Hc. unfold sep. congruence. }
      by rewrite Hc' in Hs.
    - cbn [slashes] in Hs. rewrite !str_app_cons, str_app_nil_l in Hs.
      unfold base in Hs. rewrite str_app_cons, str_app_nil_l in Hs.
      change (str_eqb (String sep (join "/" (locate full))) EmptyString)
        with false in Hs.
      cbv iota in Hs. cbn [startswith] in Hs.
      by apply andb_true_iff in Hs as [_ Hs]. }
  destruct (startswith_join names (locate full) Hne) as (x & rest & Heq);
    [| | | done |].
  - unfold locate. apply normpath_loop_Forall; [| constructor].
    apply split_on_pieces.
  - eapply Forall_impl; [exact HB |]. by intros s (_ & Hsep & _).
  - eapply Forall_impl; [exact HB |]. by intros s (Hn & _).
  - destruct (decide (x = EmptyString)) as [-> | Hx].
    + left. unfold inside. rewrite Hbase, Heq. exists rest.
      rewrite str_app_nil_r.
      pose proof (app_removelast_last EmptyString Hne) as Hn.
      set (init := removelast names) in *.
      set (final := List.last names EmptyString) in *.
      rewrite Hn. by rewrite <- app_assoc.
    + right. by exists x, rest.
Qed.

Lemma accepted_paths_extend_the_last_name_witness :
  locate ("/" +:+ join "/" ["work"; "app"]) = ["work"; "app"]
  /\ (inside ("/" +:+ join "/" ["work"; "app"])
        (locate "/work/app/../app_backup/key.txt")
      \/ exists x rest,
           x <> EmptyString
           /\ locate "/work/app/../app_backup/key.txt"
              = removelast ["work"; "app"]
                ++ (List.last ["work"; "app"] EmptyString +:+ x) :: rest).
Proof.
  apply (accepted_paths_extend_the_last_name ["work"; "app"]
           "../app_backup/key.txt" "/work/app/../app_backup/key.txt").
  - done.
  - repeat constructor; done.
  - reflexivity.
Defined.

(* ===================================================================== *)
(** * 24. The shell executor and the mock client in the example
      environment *)
(* ===================================================================== *)

Lemma execute_result_without_error_prefix_witness :
  exists w1 stderr,
    example_spawn "/work/app" "ls" 300 w1
      = (Exited 0 ("ran ls" +:+ nl) stderr, example_world)
    /\ w_ext w1 = w_ext example_world.
Proof.
  refine (proj1 (execute_result_without_error_prefix example_spawn
                   example_getcwd "/work/app"
                   "ls" 300 example_world example_world ("ran ls" +:+ nl) _) _);
    by vm_compute.
Defined.

Lemma execute_raises_in_three_places_witness :
  let w : world unit := World {[ ["work"] := File EmptyString ]} tt in
  let e := os_error "[Errno 20] Not a directory" "/work/app" in
  ("/work/app" <> EmptyString
   /\ os_path_exists "/work/app" (w_disk w) = false
   /\ os_makedirs "/work/app" (w_disk w) = (Raise e, w_disk w)
   /\ w_ext w = w_ext w)
  \/ ("/work/app" = EmptyString /\ example_getcwd w = Raise e /\ w = w)
  \/ (exists w1,
        example_spawn "/work/app" "ls" 300 w1 = (TimedOut (Raise e), w)
        /\ w_ext w1 = w_ext w).
Proof.
  intros w e.
  apply (execute_raises_in_three_places example_spawn example_getcwd
           "/work/app" "ls" 300 w w e).
  by vm_compute.
Defined.

(** A process that runs out of time and cannot be killed: [execute]
    raises what [process.kill] raised. *)
Example execute_raises_after_timeout :
  (execute
     (fun wd cmd timeout w =>
        (TimedOut (Raise (Exn OSError "[Errno 1] Operation not permitted")), w))
     example_getcwd "/work/app" "sleep 1000" 300 example_world).1
  = Raise (Exn OSError "[Errno 1] Operation not permitted").
Proof. reflexivity. Qed.

Lemma execute_multiple_results_witness :
  let run := execute_multiple failing_spawn example_getcwd "/work/app"
               ["ls"; "make test"; "ls"] true example_world [] in
  exists results,
    run.1 = Ok results
    /\ cr_command <$> results `prefix_of` ["ls"; "make test"; "ls"]
    /\ Forall (fun r => cr_success r = true) (removelast results)
    /\ exists r, last results = Some r /\ cr_success r = false.
Proof.
  intros run.
  destruct run as [[results | e] w'] eqn:Hrun; [| by vm_compute in Hrun].
  exists results. split; [done |].
  destruct (execute_multiple_results failing_spawn example_getcwd _ _ _ _ _ _ Hrun)
    as (Hprefix & _ & _ & Hstop).
  destruct (Hstop eq_refl) as [Hbefore [Hlen | Hlast]]; [| done].
  exfalso. vm_compute in Hrun. injection Hrun as <- _. discriminate.
Defined.

Lemma failing_command_fails_the_iteration_witness :
  let run := execute_shell_actions failing_spawn example_getcwd utf8_console
               example_py_str example_app
               (PList (PStr <$> ["echo Build successful"; "make test"]))
               example_world in
  exists transcript,
    run.1 = Ok transcript
    /\ contains "Build successful" transcript = true
    /\ has_error (analyze transcript) = Some true
    /\ success (analyze transcript) = false.
Proof.
  intros run.
  destruct run as [[transcript | e] w'] eqn:Hrun; [| by vm_compute in Hrun].
  exists transcript. split; [done |]. split.
  - vm_compute in Hrun. injection Hrun as <- _. reflexivity.
  - apply (failing_command_fails_the_iteration failing_spawn example_getcwd
             utf8_console example_py_str
             example_app ["echo Build successful"; "make test"] "make test"
             example_world w' transcript).
    + right. by left.
    + intros w1 w2 out stderr H. cbv in H. discriminate.
    + exact Hrun.
Defined.

Lemma mock_cycle_never_ends_early_witness :
  let run := run_cycle example_spawn example_getcwd utf8_console
               (mock_generate_code (fun topic _ _ _ => Ok (topic +:+ nl))
                  (fun _ => EmptyString))
               example_py_str 1000 example_app "print {hello}" 3
               example_world in
  length run.1.1 = 3%nat
  /\ run.1.2 <> Terminated
  /\ Forall (fun rec => ir_actions rec = empty_actions
                        /\ ir_transcript rec = EmptyString
                        /\ success (ir_outcome rec) = false
                        /\ reason (ir_outcome rec) = "Empty result") run.1.1.
Proof.
  intros run. split; [by vm_compute |].
  apply (mock_cycle_never_ends_early example_spawn example_getcwd utf8_console
           example_py_str 1000
           (fun topic _ _ _ => Ok (topic +:+ nl)) (fun _ => EmptyString)
           example_app "print {hello}" 3 example_world run.2).
  by vm_compute.
Defined.

Lemma create_directory_makes_directory_witness :
  node_at (create_directory "/work/app" (PStr "pkg/data") example_disk).2
    ["work"; "app"; "pkg"; "data"] = Some Dir.
Proof.
  destruct (create_directory_makes_directory "/work/app" (PStr "pkg/data")
              example_disk) as (_ & _ & _ & _ & H).
  destruct (H eq_refl) as (full & Hfull & Hnode).
  injection Hfull as <-. apply Hnode. by vm_compute.
Defined.

Lemma iteration_exceptions_witness :
  let generate := fun (_ : string) (_ : Z) (_ : option string) (w : world unit) =>
                    (Ok (Unrecognized
                           (dq "{'file_actions': {'action': 'create'}}")), w) in
  let e := Exn AttributeError "object has no attribute 'get'" in
  generate "topic" 0 None example_world = (Raise e, example_world)
  \/ exists reply w1 d,
       generate "topic" 0 None example_world = (Ok reply, w1)
       /\ parse_response 1000 reply = Ok (PDict d)
       /\ ((py_iter (dict_get "file_actions" d (PList [])) = Raise e
            /\ exn_kind e = TypeError)
           \/ (exn_kind e = AttributeError
               /\ exists items item,
                    py_iter (dict_get "file_actions" d (PList [])) = Ok items
                    /\ In item items /\ forall action, item <> PDict action)
           \/ (exists disk,
                 execute example_spawn example_getcwd (project_path example_app)
                   check_cmd 300 (set_disk w1 disk) = (Raise e, example_world))
           \/ (py_iter (dict_get "shell_actions" d (PList [])) = Raise e
               /\ exn_kind e = TypeError)
           \/ (exn_kind e = UnicodeEncodeError
               /\ exists text, utf8_console text = Some (exn_message e))).
Proof.
  intros generate e.
  apply (iteration_exceptions example_spawn example_getcwd utf8_console
           generate example_py_str 1000 example_app "topic" 0 None
           example_world example_world e).
  by vm_compute.
Defined.

(** A file action that fails with a path the console cannot print ends
    the round. *)
Example unprintable_path_ends_the_round :
  let generate := fun (_ : string) (_ : Z) (_ : option string) (w : world unit) =>
                    (Ok (Unrecognized
                           (dq "{'file_actions': [{'action': 'rename', 'path': '\ud800'}]}")),
                     w) in
  (run_iteration example_spawn example_getcwd utf8_console generate
     example_py_str 1000 example_app "topic" 0 None example_world).1
  = Raise (Exn UnicodeEncodeError
      "'utf-8' codec can't encode character '\ud800' in position 16: surrogates not allowed").
Proof. by vm_compute. Qed.
